(** * dynamic_pybloom: bloom filters over a packed bit vector

    A shallow embedding of [dynamic_pybloom/pybloom.py]: the hash sequence
    generator [make_hashfuncs], the fixed-capacity [BloomFilter] and the two
    growing filters [ScalableBloomFilter] and [DynamicBloomFilter].

    Python integers are [Z], Python floats are binary64 primitive floats,
    byte strings are [list byte], a [bitarray] is a [list bool], and an
    exception is the [Raise] case of an error monad.  Methods that mutate
    [self] return the final object next to their outcome, so that what an
    exception leaves behind is visible.  The operators are those of
    Python 3: [/] on two ints is true division.

    [hashlib] and the C functions behind [math] are parameters, gathered in
    the classes [Hashlib] and [Libm]; the modules [struct] and [bitarray]
    are modelled as far as the program uses them. *)

From Stdlib Require Import String ZArith List Bool Lia Floats.
From Stdlib Require Import Strings.Byte.
Import ListNotations.

Local Open Scope Z_scope.

(** ** Exceptions *)

Inductive exn : Type :=
| ValueError (msg : string)
| IndexError (msg : string)
| ZeroDivisionError
| OverflowError
| StructError
| EOFError.

Inductive result (A : Type) : Type :=
| Ok (a : A)
| Raise (e : exn).

Arguments Ok {A} a.
Arguments Raise {A} e.

Definition bind {A B : Type} (c : result A) (k : A -> result B) : result B :=
  match c with
  | Ok a => k a
  | Raise e => Raise e
  end.

Declare Scope py_scope.
Delimit Scope py_scope with py.
Notation "x <- c ;; k" := (bind c (fun x => k))
  (at level 61, c at next level, right associativity) : py_scope.
Notation "' p <- c ;; k" := (bind c (fun x => let p := x in k))
  (at level 61, p pattern, c at next level, right associativity) : py_scope.
Local Open Scope py_scope.

Fixpoint mapM {A B : Type} (f : A -> result B) (l : list A) : result (list B) :=
  match l with
  | [] => Ok []
  | a :: l' => b <- f a ;; bs <- mapM f l' ;; Ok (b :: bs)
  end.

(** Modelled from the spec: [range_fn] of [dynamic_pybloom.utils], a module
    that is not among the sources.  The spec derives each salt from its
    index, so [range_fn(n)] is [range(n)]: the integers [0 .. n-1], none
    when [n <= 0]. *)
Definition range_fn (n : Z) : list Z := map Z.of_nat (seq 0 (Z.to_nat n)).

(** ** The [struct] module: fixed-width unsigned integers

    The formats the program uses are ['I'] and runs of one of ['H'], ['I'],
    ['Q'] in native order, and ['<Q'], ['<d'].  Native order is modelled as
    little-endian, the order of the explicit formats. *)

Definition byte_of_Z (z : Z) : byte :=
  match Byte.of_N (Z.to_N (z mod 256)) with
  | Some b => b
  | None => x00
  end.

Definition Z_of_byte (b : byte) : Z := Z.of_N (Byte.to_N b).

Fixpoint le_bytes (width : nat) (z : Z) : list byte :=
  match width with
  | O => []
  | S w => byte_of_Z z :: le_bytes w (z / 256)
  end.

Fixpoint le_value (bs : list byte) : Z :=
  match bs with
  | [] => 0
  | b :: bs' => Z_of_byte b + 256 * le_value bs'
  end.

(** [pack] of one unsigned integer of [width] bytes: [struct.error] unless
    [0 <= z < 2 ^ (8 * width)]. *)
Definition pack_uint (width : nat) (z : Z) : result (list byte) :=
  if (0 <=? z) && (z <? 2 ^ (8 * Z.of_nat width))
  then Ok (le_bytes width z)
  else Raise StructError.

Fixpoint chunks (width count : nat) (bs : list byte) : list (list byte) :=
  match count with
  | O => []
  | S c => firstn width bs :: chunks width c (skipn width bs)
  end.

(** [unpack(code * count, bs)]: [struct.error] unless [bs] has exactly
    [calcsize] bytes. *)
Definition unpack_uints (width count : nat) (bs : list byte) : result (list Z) :=
  if Nat.eqb (length bs) (count * width)
  then Ok (map le_value (chunks width count bs))
  else Raise StructError.

(** [pack(code * n, *zs)] for the [n] unsigned integers [zs]. *)
Definition pack_uints (width : nat) (zs : list Z) : result (list byte) :=
  ps <- mapM (pack_uint width) zs ;; Ok (concat ps).

(** [pack] of one signed integer of [width] bytes, in two's complement:
    [struct.error] unless
    [- 2 ^ (8 * width - 1) <= z < 2 ^ (8 * width - 1)]. *)
Definition pack_int (width : nat) (z : Z) : result (list byte) :=
  let half := 2 ^ (8 * Z.of_nat width - 1) in
  if (- half <=? z) && (z <? half)
  then Ok (le_bytes width (z mod 2 ^ (8 * Z.of_nat width)))
  else Raise StructError.

(** The signed integer that [width] bytes hold. *)
Definition int_value (width : nat) (bs : list byte) : Z :=
  let v := le_value bs in
  if v <? 2 ^ (8 * Z.of_nat width - 1) then v
  else v - 2 ^ (8 * Z.of_nat width).

(** [unpack] of one signed integer: [struct.error] unless [bs] has exactly
    [width] bytes. *)
Definition unpack_int (width : nat) (bs : list byte) : result Z :=
  if Nat.eqb (length bs) width then Ok (int_value width bs)
  else Raise StructError.

(** ** [hashlib] *)

Inductive hashfn : Type := md5 | sha1 | sha256 | sha384 | sha512.

(** [hashfn().digest_size] *)
Definition digest_size (h : hashfn) : nat :=
  match h with
  | md5 => 16
  | sha1 => 20
  | sha256 => 32
  | sha384 => 48
  | sha512 => 64
  end.

(** The digest functions of [hashlib] are not part of the program:
    [digest h data] stands for [h(data).digest()], of which only the output
    length is known. *)
Class Hashlib : Type := {
  digest : hashfn -> list byte -> list byte;
  digest_length : forall h data, length (digest h data) = digest_size h
}.

(** What the closure [_make_hashfuncs] captures from [make_hashfuncs].  A
    salt is a hash object that has absorbed [hashfn(pack('I', i)).digest()];
    it is kept as the bytes it has absorbed. *)
Record hashfuncs : Type := {
  hf_chunk_size : nat;
  hf_hashfn : hashfn;
  hf_fmt_len : nat;
  hf_salts : list (list byte);
  hf_num_slices : Z;
  hf_num_bits : Z
}.

(** How the inner [for uint in unpack(...)] loop of the generator ends. *)
Inductive gen_status : Type :=
| Continue (i : Z)
| Returned
| Raised (e : exn).

(** The positions yielded by the inner loop over one digest, with the counter
    [i] on entry.  [uint % num_bits] raises when [num_bits] is zero. *)
Fixpoint emit (num_slices num_bits : Z) (uints : list Z) (i : Z)
  : list Z * gen_status :=
  match uints with
  | [] => ([], Continue i)
  | uint :: rest =>
    if num_bits =? 0 then ([], Raised ZeroDivisionError)
    else
      let i' := i + 1 in
      if i' >=? num_slices then ([uint mod num_bits], Returned)
      else
        let '(ys, st) := emit num_slices num_bits rest i' in
        (uint mod num_bits :: ys, st)
  end.

Section Hashing.

Context {hashlib : Hashlib}.

(** [make_hashfuncs(num_slices, num_bits)], lines 68-90 and 112: the format
    and digest are chosen and the salts are built once. *)
Definition make_hashfuncs (num_slices num_bits : Z) : result hashfuncs :=
  let chunk_size :=
    if num_bits >=? 2 ^ 31 then 8%nat
    else if num_bits >=? 2 ^ 15 then 4%nat
    else 2%nat in
  let total_hash_bits := 8 * num_slices * Z.of_nat chunk_size in
  let hashfn :=
    if total_hash_bits >? 384 then sha512
    else if total_hash_bits >? 256 then sha384
    else if total_hash_bits >? 160 then sha256
    else if total_hash_bits >? 128 then sha1
    else md5 in
  let fmt_len := (digest_size hashfn / chunk_size)%nat in
  let num_salts := num_slices / Z.of_nat fmt_len in
  let extra := num_slices mod Z.of_nat fmt_len in
  let num_salts := if extra =? 0 then num_salts else num_salts + 1 in
  salts <- mapM (fun i => p <- pack_uint 4 i ;; Ok (digest hashfn p))
                (range_fn num_salts) ;;
  Ok {| hf_chunk_size := chunk_size;
        hf_hashfn := hashfn;
        hf_fmt_len := fmt_len;
        hf_salts := salts;
        hf_num_slices := num_slices;
        hf_num_bits := num_bits |}.

(** The generator [_make_hashfuncs(key)], lines 91-110, from the salt it
    has reached: the positions it yields, and the exception that ends it
    if one does.  [key] is the byte string the key was normalised to
    (lines 92-101). *)
Fixpoint run_salts (hf : hashfuncs) (key : list byte)
         (salts : list (list byte)) (i : Z) : list Z * option exn :=
  match salts with
  | [] => ([], None)
  | salt :: rest =>
    match unpack_uints (hf_chunk_size hf) (hf_fmt_len hf)
                       (digest (hf_hashfn hf) (salt ++ key)) with
    | Raise e => ([], Some e)
    | Ok uints =>
      match emit (hf_num_slices hf) (hf_num_bits hf) uints i with
      | (ys, Continue i') =>
        let '(zs, r) := run_salts hf key rest i' in (ys ++ zs, r)
      | (ys, Returned) => (ys, None)
      | (ys, Raised e) => (ys, Some e)
      end
    end
  end.

Definition hashes (hf : hashfuncs) (key : list byte) : list Z * option exn :=
  run_salts hf key (hf_salts hf) 0.

End Hashing.

(** ** Python floats

    A Python [float] is a binary64 value; the arithmetic operators are the
    IEEE ones.  What Python adds is modelled here: conversions from and to
    [int], and the exceptions of division and of the [math] module.  The C
    library functions behind [math.log], [math.exp] and [**] are not part of
    the program. *)

Class Libm : Type := {
  libm_log : float -> float;
  libm_exp : float -> float;
  libm_pow : float -> float -> float
}.

(** [float(z)], also the conversion of the [int] operand of a mixed
    operation: round to nearest even, [OverflowError] when out of range. *)
Definition float_of_int (z : Z) : result float :=
  match binary_normalize prec emax z 0 false with
  | S754_infinity _ => Raise OverflowError
  | sf => Ok (SF2Prim sf)
  end.

(** [x / y] on floats. *)
Definition float_truediv (x y : float) : result float :=
  if (y =? 0)%float then Raise ZeroDivisionError else Ok (x / y)%float.

(** [a / b] on ints: the correctly rounded quotient. *)
Definition int_truediv (a b : Z) : result float :=
  if b =? 0 then Raise ZeroDivisionError
  else
    let negate := xorb (a <? 0) (b <? 0) in
    if a =? 0 then Ok (if negate then neg_zero else zero)
    else
      let '(q, e, l) := SFdiv_core_binary prec emax (Z.abs a) 0 (Z.abs b) 0 in
      match binary_round_aux prec emax negate q e l with
      | S754_infinity _ => Raise OverflowError
      | sf => Ok (SF2Prim sf)
      end.

(** The integer value [m * 2 ^ e] rounded towards plus infinity, and towards
    zero. *)
Definition ceil_scaled (m e : Z) : Z :=
  if 0 <=? e then m * 2 ^ e else - ((- m) / 2 ^ (- e)).

Definition trunc_scaled (m e : Z) : Z :=
  if 0 <=? e then m * 2 ^ e else Z.quot m (2 ^ (- e)).

Definition nan_to_int : exn := ValueError "cannot convert float NaN to integer".

(** [math.ceil(x)] on a float: an [int]. *)
Definition math_ceil (x : float) : result Z :=
  match Prim2SF x with
  | S754_nan => Raise nan_to_int
  | S754_infinity _ => Raise OverflowError
  | S754_zero _ => Ok 0
  | S754_finite s m e => Ok (ceil_scaled (cond_Zopp s (Zpos m)) e)
  end.

(** [int(x)] on a float. *)
Definition int_of_float (x : float) : result Z :=
  match Prim2SF x with
  | S754_nan => Raise nan_to_int
  | S754_infinity _ => Raise OverflowError
  | S754_zero _ => Ok 0
  | S754_finite s m e => Ok (trunc_scaled (cond_Zopp s (Zpos m)) e)
  end.

Definition math_domain_error : exn := ValueError "math domain error".

Section PyMath.

Context {libm : Libm}.

(** [m_log] of the math module: the C [log] on positive arguments. *)
Definition m_log (x : float) : float :=
  if is_finite x then
    if (0 <? x)%float then libm_log x
    else if (x =? 0)%float then neg_infinity
    else nan
  else if is_nan x then x
  else if (0 <? x)%float then x
  else nan.

(** The wrapper [math_1] turns a result that is not a number, or an
    infinite result on a finite argument, into an exception. *)
Definition math_1 (func : float -> float) (can_overflow : bool) (x : float)
  : result float :=
  let r := func x in
  if is_nan r && negb (is_nan x) then Raise math_domain_error
  else if is_infinity r && is_finite x then
    Raise (if can_overflow then OverflowError else math_domain_error)
  else Ok r.

(** [math.log(x)] on a float, and [math.log(2)] on the int literal. *)
Definition math_log (x : float) : result float := math_1 m_log false x.

Definition math_log_2 : float := m_log 2%float.

(** [math.log(x, 2)]: the quotient of the two logarithms. *)
Definition math_log_base_2 (x : float) : result float :=
  num <- math_log x ;;
  float_truediv num math_log_2.

(** [math.exp(x)] *)
Definition math_exp (x : float) : result float := math_1 libm_exp true x.

(** [x ** 2] on a float. *)
Definition float_sqr (x : float) : result float :=
  if is_nan x then Ok x
  else if is_infinity x then Ok infinity
  else if (x =? 0)%float then Ok zero
  else if (abs x =? 1)%float then Ok one
  else
    let r := libm_pow (abs x) 2%float in
    if is_infinity r then Raise OverflowError else Ok r.

End PyMath.

(** ** The [bitarray] type, little-endian bit order *)

Definition len {A : Type} (l : list A) : Z := Z.of_nat (length l).

Module bitarray.

Definition t : Type := list bool.

(** The largest [Py_ssize_t], [sys.maxsize] of a 64-bit build: the length
    given to [bitarray(n)] is converted to one.  The memory for the bits
    is taken to be there. *)
Definition maxsize : Z := 2 ^ 63 - 1.

Definition index_error : exn := IndexError "bitarray index out of range".
Definition assignment_index_error : exn :=
  IndexError "bitarray assignment index out of range".

(** The position a Python index denotes in a sequence of [n] items. *)
Definition index (n k : Z) : result nat :=
  if (0 <=? k) && (k <? n) then Ok (Z.to_nat k)
  else if (- n <=? k) && (k <? 0) then Ok (Z.to_nat (n + k))
  else Raise index_error.

Fixpoint update (i : nat) (v : bool) (a : t) : t :=
  match a, i with
  | [], _ => []
  | _ :: a', O => v :: a'
  | b :: a', S i' => b :: update i' v a'
  end.

(** [a[k]] and [a[k] = v] *)
Definition getitem (a : t) (k : Z) : result bool :=
  i <- index (len a) k ;; Ok (nth i a false).

Definition setitem (a : t) (k : Z) (v : bool) : result t :=
  match index (len a) k with
  | Ok i => Ok (update i v a)
  | Raise _ => Raise assignment_index_error
  end.

(** [a.count()]: the number of set bits. *)
Definition count (a : t) : Z := len (filter (fun b => b) a).

Definition length_error : exn :=
  ValueError "bitarrays of equal length expected".

Definition bitwise (op : bool -> bool -> bool) (a b : t) : result t :=
  if len a =? len b
  then Ok (map (fun p => op (fst p) (snd p)) (combine a b))
  else Raise length_error.

(** [a | b] and [a & b] *)
Definition or (a b : t) : result t := bitwise orb a b.
Definition and (a b : t) : result t := bitwise andb a b.

(** One byte from the first eight bits of [a], least significant first;
    bits past the end count as zero. *)
Definition byte_of_bits (a : t) : byte :=
  Byte.of_bits (nth 0 a false, (nth 1 a false, (nth 2 a false,
               (nth 3 a false, (nth 4 a false, (nth 5 a false,
               (nth 6 a false, nth 7 a false))))))).

Definition bits_of_byte (b : byte) : t :=
  let '(b0, (b1, (b2, (b3, (b4, (b5, (b6, b7))))))) := Byte.to_bits b in
  [b0; b1; b2; b3; b4; b5; b6; b7].

Fixpoint pack_bits (nbytes : nat) (a : t) : list byte :=
  match nbytes with
  | O => []
  | S n => byte_of_bits a :: pack_bits n (skipn 8 a)
  end.

(** [a.tobytes()], also what [a.tofile(f)] writes. *)
Definition tobytes (a : t) : list byte :=
  pack_bits (Nat.div (length a + 7) 8) a.

(** [a.frombytes(bs)] on a fresh bitarray. *)
Definition frombytes (bs : list byte) : t := flat_map bits_of_byte bs.

End bitarray.

(** ** [struct] formats ['<d'] and ['<dQQQQ'] *)

(** The binary64 bit pattern of a float; every NaN is the quiet one. *)
Definition float_bits (x : float) : Z :=
  match Prim2SF x with
  | S754_zero s => if s then 2 ^ 63 else 0
  | S754_infinity s => (if s then 2 ^ 63 else 0) + 2047 * 2 ^ 52
  | S754_nan => 2047 * 2 ^ 52 + 2 ^ 51
  | S754_finite s m e =>
    (if s then 2 ^ 63 else 0) +
    (if Zpos m <? 2 ^ 52 then Zpos m
     else (e + 1075) * 2 ^ 52 + (Zpos m - 2 ^ 52))
  end.

Definition float_of_bits (z : Z) : float :=
  let s := 2 ^ 63 <=? z in
  let biased := (z / 2 ^ 52) mod 2 ^ 11 in
  let fraction := z mod 2 ^ 52 in
  SF2Prim
    (if biased =? 2047 then
       if fraction =? 0 then S754_infinity s else S754_nan
     else if biased =? 0 then
       match fraction with
       | Zpos m => S754_finite s m (-1074)
       | _ => S754_zero s
       end
     else
       match fraction + 2 ^ 52 with
       | Zpos m => S754_finite s m (biased - 1075)
       | _ => S754_nan
       end).

Definition pack_double (x : float) : list byte := le_bytes 8 (float_bits x).
Definition unpack_double (bs : list byte) : float := float_of_bits (le_value bs).

(** [pack('<dQQQQ', d, a, b, c, e)] *)
Definition pack_dQQQQ (d : float) (a b c e : Z) : result (list byte) :=
  pa <- pack_uint 8 a ;;
  pb <- pack_uint 8 b ;;
  pc <- pack_uint 8 c ;;
  pe <- pack_uint 8 e ;;
  Ok (pack_double d ++ pa ++ pb ++ pc ++ pe).

(** [unpack('<dQQQQ', bs)] *)
Definition unpack_dQQQQ (bs : list byte) : result (float * Z * Z * Z * Z) :=
  if Nat.eqb (length bs) 40 then
    match chunks 8 5 bs with
    | [d; a; b; c; e] =>
      Ok (unpack_double d, le_value a, le_value b, le_value c, le_value e)
    | _ => Raise StructError
    end
  else Raise StructError.

(** [pack('<idQd', i, d, q, e)] and [unpack('<idQd', bs)]: 28 bytes, no
    padding in a format that starts with ['<']. *)
Definition pack_idQd (i : Z) (d : float) (q : Z) (e : float)
  : result (list byte) :=
  pi <- pack_int 4 i ;;
  pq <- pack_uint 8 q ;;
  Ok (pi ++ pack_double d ++ pq ++ pack_double e).

Definition unpack_idQd (bs : list byte) : result (Z * float * Z * float) :=
  if Nat.eqb (length bs) 28 then
    Ok (int_value 4 (firstn 4 bs),
        unpack_double (firstn 8 (skipn 4 bs)),
        le_value (firstn 8 (skipn 12 bs)),
        unpack_double (firstn 8 (skipn 20 bs)))
  else Raise StructError.

(** [pack('<iQd', i, q, d)] and [unpack('<iQd', bs)]: 20 bytes. *)
Definition pack_iQd (i q : Z) (d : float) : result (list byte) :=
  pi <- pack_int 4 i ;;
  pq <- pack_uint 8 q ;;
  Ok (pi ++ pq ++ pack_double d).

Definition unpack_iQd (bs : list byte) : result (Z * Z * float) :=
  if Nat.eqb (length bs) 20 then
    Ok (int_value 4 (firstn 4 bs),
        le_value (firstn 8 (skipn 4 bs)),
        unpack_double (firstn 8 (skipn 12 bs)))
  else Raise StructError.

(** ** File objects

    A binary file that is written is its content and the position of the
    next write.  A file that is read is the bytes not read yet, as in
    [BloomFilter.fromfile]: [f.read(k)] takes [firstn k] and leaves
    [skipn k]. *)

Record file : Type := {
  content : list byte;
  position : nat
}.

(** [f.write(data)]: the bytes replace what follows the position and extend
    the file past its end; a position beyond the end is reached by zero
    bytes. *)
Definition write (f : file) (data : list byte) : file :=
  {| content :=
       firstn (position f) (content f)
       ++ repeat x00 (position f - length (content f))
       ++ data
       ++ skipn (position f + length data) (content f);
     position := position f + length data |}.

(** [f.tell()], and [f.seek(offset)] for an offset that [tell] gave. *)
Definition tell (f : file) : Z := Z.of_nat (position f).

Definition seek (f : file) (offset : Z) : file :=
  {| content := content f; position := Z.to_nat offset |}.

(** ** [class BloomFilter] *)

Module BloomFilter.

Record t : Type := {
  error_rate : float;
  num_slices : Z;
  bits_per_slice : Z;
  capacity : Z;
  count : Z;
  num_bits : Z;
  make_hashes : hashfuncs;
  bitarray : bitarray.t
}.

Definition set_bitarray (bits : bitarray.t) (self : t) : t :=
  {| error_rate := error_rate self;
     num_slices := num_slices self;
     bits_per_slice := bits_per_slice self;
     capacity := capacity self;
     count := count self;
     num_bits := num_bits self;
     make_hashes := make_hashes self;
     bitarray := bits |}.

Definition set_count (n : Z) (self : t) : t :=
  {| error_rate := error_rate self;
     num_slices := num_slices self;
     bits_per_slice := bits_per_slice self;
     capacity := capacity self;
     count := n;
     num_bits := num_bits self;
     make_hashes := make_hashes self;
     bitarray := bitarray self |}.

Definition error_rate_error : exn :=
  ValueError "Error_Rate must be between 0 and 1.".
Definition capacity_error : exn := ValueError "Capacity must be > 0".
Definition at_capacity : exn := IndexError "BloomFilter is at capacity".
Definition union_mismatch : exn :=
  ValueError "Unioning filters requires both filters to have both the same capacity and error rate".
Definition intersection_mismatch : exn :=
  ValueError "Intersecting filters requires both filters to have equal capacity and error rate".
Definition n_too_small : exn := ValueError "n too small!".
Definition bit_length_mismatch : exn := ValueError "Bit length mismatch!".
Definition negative_length : exn := ValueError "bitarray length must be >= 0".

(** [calcsize(FILE_FMT)] for [FILE_FMT = '<dQQQQ'] *)
Definition headerlen : Z := 40.

(** The default of the [error_rate] argument, [0.001]. *)
Definition default_error_rate : float := 0x1.0624dd2f1a9fcp-10%float.

(** The dictionary that is pickled, lines 331-334: the attributes of the
    object without [make_hashes]. *)
Record state : Type := {
  st_error_rate : float;
  st_num_slices : Z;
  st_bits_per_slice : Z;
  st_capacity : Z;
  st_count : Z;
  st_num_bits : Z;
  st_bitarray : bitarray.t
}.

Section Methods.

Context {hashlib : Hashlib} {libm : Libm}.

(** [_setup], lines 155-162, on an object whose bit vector is [bits]. *)
Definition _setup (bits : bitarray.t) (error_rate : float)
           (num_slices bits_per_slice capacity count : Z) : result t :=
  hf <- make_hashfuncs num_slices bits_per_slice ;;
  Ok {| error_rate := error_rate;
        num_slices := num_slices;
        bits_per_slice := bits_per_slice;
        capacity := capacity;
        count := count;
        num_bits := num_slices * bits_per_slice;
        make_hashes := hf;
        bitarray := bits |}.

(** The two parameters derived at lines 147-150. *)
Definition solve_num_slices (error_rate : float) : result Z :=
  inv <- float_truediv 1 error_rate ;;
  lg <- math_log_base_2 inv ;;
  math_ceil lg.

Definition solve_bits_per_slice (capacity : Z) (error_rate : float)
           (num_slices : Z) : result Z :=
  le <- math_log error_rate ;;
  c <- float_of_int capacity ;;
  sq <- float_sqr math_log_2 ;;
  k <- float_of_int num_slices ;;
  q <- float_truediv (c * abs le) (k * sq) ;;
  math_ceil q.

(** [BloomFilter(capacity, error_rate)], lines 118-153. *)
Definition __init__ (capacity : Z) (error_rate : float) : result t :=
  if negb ((0 <? error_rate)%float && (error_rate <? 1)%float)
  then Raise error_rate_error
  else if negb (capacity >? 0) then Raise capacity_error
  else
    num_slices <- solve_num_slices error_rate ;;
    bits_per_slice <- solve_bits_per_slice capacity error_rate num_slices ;;
    self <- _setup [] error_rate num_slices bits_per_slice capacity 0 ;;
    if (num_bits self <? - bitarray.maxsize - 1)
       || (num_bits self >? bitarray.maxsize)
    then Raise OverflowError
    else if num_bits self <? 0 then Raise negative_length
    else Ok (set_bitarray (repeat false (Z.to_nat (num_bits self))) self).

(** The loop of [__contains__], lines 177-182, over the positions [ks]
    the generator yields before it ends with [stop]. *)
Fixpoint contains_loop (bits : bitarray.t) (bits_per_slice : Z)
         (ks : list Z) (stop : option exn) (offset : Z) : result bool :=
  match ks with
  | [] => match stop with Some e => Raise e | None => Ok true end
  | k :: ks' =>
    b <- bitarray.getitem bits (offset + k) ;;
    if negb b then Ok false
    else contains_loop bits bits_per_slice ks' stop (offset + bits_per_slice)
  end.

(** [key in self], lines 164-182. *)
Definition __contains__ (self : t) (key : list byte) : result bool :=
  let '(ks, stop) := hashes (make_hashes self) key in
  contains_loop (bitarray self) (bits_per_slice self) ks stop 0.

(** [len(self)], lines 208-210. *)
Definition __len__ (self : t) : Z := count self.

(** The loop of [add], lines 231-236: the outcome is [found_all_bits],
    next to the bit vector as the loop leaves it. *)
Fixpoint add_loop (skip_check : bool) (bits_per_slice : Z) (ks : list Z)
         (stop : option exn) (offset : Z) (found_all_bits : bool)
         (bits : bitarray.t) : result bool * bitarray.t :=
  match ks with
  | [] =>
    (match stop with Some e => Raise e | None => Ok found_all_bits end,
     bits)
  | k :: ks' =>
    let probe :=
      if negb skip_check && found_all_bits then
        b <- bitarray.getitem bits (offset + k) ;;
        Ok (if negb b then false else found_all_bits)
      else Ok found_all_bits in
    match probe with
    | Raise e => (Raise e, bits)
    | Ok found =>
      match bitarray.setitem bits (offset + k) true with
      | Raise e => (Raise e, bits)
      | Ok bits' =>
        add_loop skip_check bits_per_slice ks' stop
                 (offset + bits_per_slice) found bits'
      end
    end
  end.

(** [self.add(key, skip_check)], lines 212-245: the outcome and the
    object as the call leaves it. *)
Definition add (self : t) (key : list byte) (skip_check : bool)
  : result bool * t :=
  if count self >? capacity self then (Raise at_capacity, self)
  else
    let '(ks, stop) := hashes (make_hashes self) key in
    match add_loop skip_check (bits_per_slice self) ks stop 0 true
                   (bitarray self) with
    | (Raise e, bits) => (Raise e, set_bitarray bits self)
    | (Ok found_all_bits, bits) =>
      let self := set_bitarray bits self in
      if skip_check then (Ok false, set_count (count self + 1) self)
      else if negb found_all_bits
           then (Ok false, set_count (count self + 1) self)
           else (Ok true, self)
    end.

(** [self.copy()], lines 247-253. *)
Definition copy (self : t) : result t :=
  new_filter <- __init__ (capacity self) (error_rate self) ;;
  Ok (set_count (count self) (set_bitarray (bitarray self) new_filter)).

(** The count estimate of lines 266-270 and 287-291, with its fallback. *)
Definition estimate (bits : bitarray.t) (num_slices : Z) : result Z :=
  ones <- float_of_int (bitarray.count bits) ;;
  n <- float_of_int (len bits) ;;
  fill <- float_truediv ones n ;;
  num <- math_log (1 - fill)%float ;;
  n' <- float_of_int (len bits) ;;
  one_bit <- float_truediv 1 n' ;;
  lg <- math_log (1 - one_bit)%float ;;
  k <- float_of_int num_slices ;;
  q <- float_truediv num (k * lg)%float ;;
  int_of_float q.

Definition estimated_count (bits : bitarray.t) (num_slices : Z) : Z :=
  match estimate bits num_slices with
  | Ok n => n
  | Raise _ => len bits
  end.

(** [self.union(other)], lines 255-271. *)
Definition union (self other : t) : result t :=
  if negb (capacity self =? capacity other)
     || negb (error_rate self =? error_rate other)%float
  then Raise union_mismatch
  else
    new_bloom <- copy self ;;
    bits <- bitarray.or (bitarray new_bloom) (bitarray other) ;;
    Ok (set_count (estimated_count bits (num_slices new_bloom))
                  (set_bitarray bits new_bloom)).

Definition __or__ (self other : t) : result t := union self other.

(** [self.intersection(other)], lines 276-292. *)
Definition intersection (self other : t) : result t :=
  if negb (capacity self =? capacity other)
     || negb (error_rate self =? error_rate other)%float
  then Raise intersection_mismatch
  else
    new_bloom <- copy self ;;
    bits <- bitarray.and (bitarray new_bloom) (bitarray other) ;;
    Ok (set_count (estimated_count bits (num_slices new_bloom))
                  (set_bitarray bits new_bloom)).

Definition __and__ (self other : t) : result t := intersection self other.

(** [self.tofile(f)], lines 297-304: the content of [f] afterwards.  Both
    kinds of file object receive the same bytes. *)
Definition tofile (self : t) (f : list byte) : result (list byte) :=
  header <- pack_dQQQQ (error_rate self) (num_slices self)
                       (bits_per_slice self) (capacity self) (count self) ;;
  Ok (f ++ header ++ bitarray.tobytes (bitarray self)).

(** Reading the bit vector, lines 318-323, from the unread bytes [f]:
    [f.read] returns what is left when less than [want] bytes are,
    [bitarray.fromfile] raises then. *)
Definition read_bits (is_string_io : bool) (f : list byte) (n : Z)
  : result (bitarray.t * list byte) :=
  if n >? 0 then
    let want := Z.to_nat (n - headerlen) in
    if negb is_string_io && (length f <? want)%nat then Raise EOFError
    else Ok (bitarray.frombytes (firstn want f), skipn want f)
  else Ok (bitarray.frombytes f, []).

(** [BloomFilter.fromfile(f, n)], lines 306-329, on the unread bytes [f]
    of a file object: the filter and the bytes left unread.  What
    [is_string_io(f)] of [dynamic_pybloom.utils] answers is the parameter
    [is_string_io]. *)
Definition fromfile (is_string_io : bool) (f : list byte) (n : Z)
  : result (t * list byte) :=
  if (0 <? n) && (n <? headerlen) then Raise n_too_small
  else
    filter <- __init__ 1 default_error_rate ;;
    '(error_rate, num_slices, bits_per_slice, capacity, count) <-
      unpack_dQQQQ (firstn (Z.to_nat headerlen) f) ;;
    filter <- _setup (bitarray filter) error_rate num_slices
                     bits_per_slice capacity count ;;
    '(bits, rest) <- read_bits is_string_io
                               (skipn (Z.to_nat headerlen) f) n ;;
    let filter := set_bitarray bits filter in
    if negb (num_bits filter =? len (bitarray filter))
       && negb (num_bits filter + (8 - num_bits filter mod 8)
                =? len (bitarray filter))
    then Raise bit_length_mismatch
    else Ok (filter, rest).

(** [self.tofile(f)], lines 297-304, on a file object with a position: the
    two writes go where the position is.  On a file at its end this is
    [tofile]. *)
Definition tofile_at (self : t) (f : file) : result file :=
  header <- pack_dQQQQ (error_rate self) (num_slices self)
                       (bits_per_slice self) (capacity self) (count self) ;;
  Ok (write (write f header) (bitarray.tobytes (bitarray self))).

(** [self.__getstate__()], lines 331-334. *)
Definition __getstate__ (self : t) : state :=
  {| st_error_rate := error_rate self;
     st_num_slices := num_slices self;
     st_bits_per_slice := bits_per_slice self;
     st_capacity := capacity self;
     st_count := count self;
     st_num_bits := num_bits self;
     st_bitarray := bitarray self |}.

(** [self.__setstate__(d)], lines 336-338: every attribute is taken from
    [d], whatever the object held, and the hash functions are made again
    from the two sizes. *)
Definition __setstate__ (d : state) : result t :=
  hf <- make_hashfuncs (st_num_slices d) (st_bits_per_slice d) ;;
  Ok {| error_rate := st_error_rate d;
        num_slices := st_num_slices d;
        bits_per_slice := st_bits_per_slice d;
        capacity := st_capacity d;
        count := st_count d;
        num_bits := st_num_bits d;
        make_hashes := hf;
        bitarray := st_bitarray d |}.

End Methods.

End BloomFilter.

(** ** Truth value and the operators [or], [and] on filters

    [BloomFilter] defines [__len__] and no [__bool__], so a filter is true
    when its length is not zero; [len] rejects a length that is negative or
    above [sys.maxsize]. *)

Definition negative_len : exn := ValueError "__len__() should return >= 0".

Definition truth (x : BloomFilter.t) : result bool :=
  let n := BloomFilter.__len__ x in
  if n <? 0 then Raise negative_len
  else if n >? 2 ^ 63 - 1 then Raise OverflowError
  else Ok (negb (n =? 0)).

(** [x or y] and [x and y]: one of the two operands, [y] looked at only when
    [x] does not decide. *)
Definition py_or (x : BloomFilter.t) (y : result BloomFilter.t)
  : result BloomFilter.t :=
  b <- truth x ;; if b then Ok x else y.

Definition py_and (x y : BloomFilter.t) : result BloomFilter.t :=
  b <- truth x ;; if b then Ok y else Ok x.

(** The loop shared by the two [__contains__] of the growing filters:
    [for f in reversed(self.filters): if key in f: return True]. *)
Fixpoint any_contains {hashlib : Hashlib} (reversed : list BloomFilter.t)
         (key : list byte) : result bool :=
  match reversed with
  | [] => Ok false
  | f :: rest =>
    b <- BloomFilter.__contains__ f key ;;
    if b then Ok true else any_contains rest key
  end.

(** [filter.add(key, skip_check=True)] on the last filter of a list, the
    filters before it being [front]; the result of the inner call is dropped
    and the caller returns [False]. *)
Definition add_to_last {hashlib : Hashlib} (front : list BloomFilter.t)
           (filter : BloomFilter.t) (key : list byte)
  : result bool * list BloomFilter.t :=
  let '(r, filter') := BloomFilter.add filter key true in
  (_ <- r ;; Ok false, front ++ [filter']).

(** The loop of lines 475-478 and 694-697, the same in the two [tofile]:
    each filter is written where the position is, and the number of bytes
    it took is recorded. *)
Fixpoint write_filters (filters : list BloomFilter.t) (f : file)
  : result (file * list Z) :=
  match filters with
  | [] => Ok (f, [])
  | filter :: rest =>
    let begin := tell f in
    f' <- BloomFilter.tofile_at filter f ;;
    let size := tell f' - begin in
    '(f'', filter_sizes) <- write_filters rest f' ;;
    Ok (f'', size :: filter_sizes)
  end.

(** Lines 465-481 and 684-700: the number of filters, then, when there is
    one at least, a header of their sizes and the filters.  The header is
    written as dots first and again, with the sizes, at the end. *)
Definition tofile_filters (filters : list BloomFilter.t) (f : file)
  : result file :=
  n <- pack_int 4 (len filters) ;;
  let f := write f n in
  if len filters >? 0 then
    let headerpos := tell f in
    let f := write f (repeat x2e (8 * length filters)) in
    '(f, filter_sizes) <- write_filters filters f ;;
    let f := seek f headerpos in
    sizes <- pack_uints 8 filter_sizes ;;
    Ok (write f sizes)
  else Ok f.

(** The loop of lines 493-494 and 712-713 over the unread bytes [f]. *)
Fixpoint read_filters {hashlib : Hashlib} {libm : Libm} (is_string_io : bool)
         (filter_lengths : list Z) (f : list byte)
  : result (list BloomFilter.t * list byte) :=
  match filter_lengths with
  | [] => Ok ([], f)
  | fl :: rest =>
    '(filter, f') <- BloomFilter.fromfile is_string_io f fl ;;
    '(filters, f'') <- read_filters is_string_io rest f' ;;
    Ok (filter :: filters, f'')
  end.

(** Lines 488-496 and 707-715 on the unread bytes [f]: the filters that
    follow, appended to those the object has, or no filter at all when the
    number read is not positive. *)
Definition fromfile_filters {hashlib : Hashlib} {libm : Libm}
           (is_string_io : bool) (filters : list BloomFilter.t)
           (f : list byte) : result (list BloomFilter.t * list byte) :=
  nfilters <- unpack_int 4 (firstn 4 f) ;;
  let f := skipn 4 f in
  if nfilters >? 0 then
    let size := (8 * Z.to_nat nfilters)%nat in
    filter_lengths <- unpack_uints 8 (Z.to_nat nfilters) (firstn size f) ;;
    '(read, f') <- read_filters is_string_io filter_lengths (skipn size f) ;;
    Ok (filters ++ read, f')
  else Ok ([], f).

(** ** [class ScalableBloomFilter] *)

Module ScalableBloomFilter.

Definition SMALL_SET_GROWTH : Z := 2.
Definition LARGE_SET_GROWTH : Z := 4.

Record t : Type := {
  scale : Z;
  ratio : float;
  initial_capacity : Z;
  error_rate : float;
  filters : list BloomFilter.t
}.

Definition set_filters (fs : list BloomFilter.t) (self : t) : t :=
  {| scale := scale self;
     ratio := ratio self;
     initial_capacity := initial_capacity self;
     error_rate := error_rate self;
     filters := fs |}.

Definition error_rate_error : exn :=
  ValueError "Error_Rate must be a decimal less than 0.".

(** The tightening ratio the constructor fixes, [0.9]. *)
Definition default_ratio : float := 0x1.ccccccccccccdp-1%float.

Section Methods.

Context {hashlib : Hashlib} {libm : Libm}.

(** [ScalableBloomFilter(initial_capacity, error_rate, mode)], lines
    346-379. *)
Definition __init__ (initial_capacity : Z) (error_rate : float) (mode : Z)
  : result t :=
  if (error_rate =? 0)%float || (error_rate <? 0)%float
  then Raise error_rate_error
  else Ok {| scale := mode;
             ratio := default_ratio;
             initial_capacity := initial_capacity;
             error_rate := error_rate;
             filters := [] |}.

(** [key in self], lines 387-401. *)
Definition __contains__ (self : t) (key : list byte) : result bool :=
  any_contains (rev (filters self)) key.

(** [self.add(key)], lines 403-431: the outcome and the object as the
    call leaves it. *)
Definition add (self : t) (key : list byte) : result bool * t :=
  match __contains__ self key with
  | Raise e => (Raise e, self)
  | Ok true => (Ok true, self)
  | Ok false =>
    match rev (filters self) with
    | [] =>
      match BloomFilter.__init__ (initial_capacity self)
              (error_rate self * (1 - ratio self))%float with
      | Raise e => (Raise e, self)
      | Ok filter =>
        let '(r, fs) := add_to_last (filters self) filter key in
        (r, set_filters fs self)
      end
    | filter :: front =>
      if BloomFilter.count filter >=? BloomFilter.capacity filter then
        match BloomFilter.__init__ (BloomFilter.capacity filter * scale self)
                (BloomFilter.error_rate filter * ratio self)%float with
        | Raise e => (Raise e, self)
        | Ok filter' =>
          let '(r, fs) := add_to_last (filters self) filter' key in
          (r, set_filters fs self)
        end
      else
        let '(r, fs) := add_to_last (rev front) filter key in
        (r, set_filters fs self)
    end
  end.

(** The properties [capacity] and [count], lines 433-440 and 500-502. *)
Definition capacity (self : t) : Z :=
  fold_right Z.add 0 (map BloomFilter.capacity (filters self)).

Definition __len__ (self : t) : Z :=
  fold_right Z.add 0 (map BloomFilter.count (filters self)).

(** [_setup], lines 381-385, on an object whose filters are [fs]. *)
Definition _setup (fs : list BloomFilter.t) (mode : Z) (ratio : float)
           (initial_capacity : Z) (error_rate : float) : t :=
  {| scale := mode;
     ratio := ratio;
     initial_capacity := initial_capacity;
     error_rate := error_rate;
     filters := fs |}.

(** [self.tofile(f)], lines 459-481. *)
Definition tofile (self : t) (f : file) : result file :=
  header <- pack_idQd (scale self) (ratio self) (initial_capacity self)
                      (error_rate self) ;;
  tofile_filters (filters self) (write f header).

(** [ScalableBloomFilter.fromfile(f)], lines 483-498, on the unread bytes
    [f]: the filter and the bytes left unread.  [cls()] is the constructor
    with its defaults [100], [0.001] and [SMALL_SET_GROWTH]. *)
Definition fromfile (is_string_io : bool) (f : list byte)
  : result (t * list byte) :=
  filter <- __init__ 100 BloomFilter.default_error_rate SMALL_SET_GROWTH ;;
  '(mode, ratio, initial_capacity, error_rate) <- unpack_idQd (firstn 28 f) ;;
  let filter := _setup (filters filter) mode ratio initial_capacity
                       error_rate in
  '(fs, rest) <- fromfile_filters is_string_io (filters filter)
                                  (skipn 28 f) ;;
  Ok (set_filters fs filter, rest).

End Methods.

End ScalableBloomFilter.

(** ** [class DynamicBloomFilter] *)

Module DynamicBloomFilter.

Record t : Type := {
  individual_error_rate : float;
  max_error_rate : float;
  max_capacity : Z;
  base_capacity : Z;
  filters : list BloomFilter.t
}.

Definition set_filters (fs : list BloomFilter.t) (self : t) : t :=
  {| individual_error_rate := individual_error_rate self;
     max_error_rate := max_error_rate self;
     max_capacity := max_capacity self;
     base_capacity := base_capacity self;
     filters := fs |}.

Definition error_rate_error : exn :=
  ValueError "error_rate must be a decimal greater than 0.".

(** The two messages differ in the run of blanks that the continuation
    lines 600 and 633 carry into the string. *)
Definition union_mismatch : exn :=
  ValueError "Intersecting dynamic filters requires both filters to                                   have equal base capacity and maximum_capacity".
Definition intersection_mismatch : exn :=
  ValueError "Intersecting dynamic filters requires both filters to                               have equal base capacity and maximum_capacity".

Section Methods.

Context {hashlib : Hashlib} {libm : Libm}.

(** The rate derived in [_setup], line 542. *)
Definition derive_individual_error_rate
           (base_capacity max_capacity : Z) (error_rate : float)
  : result float :=
  lg <- math_log (1 - error_rate)%float ;;
  q <- int_truediv max_capacity base_capacity ;;
  n <- math_ceil q ;;
  d <- float_of_int n ;;
  x <- float_truediv lg d ;;
  e <- math_exp x ;;
  Ok (1 - e)%float.

(** [_setup], lines 541-545, on an object whose filters are [fs]. *)
Definition _setup (fs : list BloomFilter.t)
           (base_capacity max_capacity : Z) (error_rate : float)
  : result t :=
  ier <- derive_individual_error_rate base_capacity max_capacity
                                      error_rate ;;
  Ok {| individual_error_rate := ier;
        max_error_rate := error_rate;
        max_capacity := max_capacity;
        base_capacity := base_capacity;
        filters := fs |}.

(** [DynamicBloomFilter(base_capacity, max_capacity, error_rate)], lines
    508-539. *)
Definition __init__ (base_capacity max_capacity : Z) (error_rate : float)
  : result t :=
  if (error_rate =? 0)%float || (error_rate <? 0)%float
  then Raise error_rate_error
  else _setup [] base_capacity max_capacity error_rate.

(** [key in self], lines 547-560. *)
Definition __contains__ (self : t) (key : list byte) : result bool :=
  any_contains (rev (filters self)) key.

(** [self.add(key)], lines 562-589. *)
Definition add (self : t) (key : list byte) : result bool * t :=
  match __contains__ self key with
  | Raise e => (Raise e, self)
  | Ok true => (Ok true, self)
  | Ok false =>
    match rev (filters self) with
    | [] =>
      match BloomFilter.__init__ (base_capacity self)
                                 (individual_error_rate self) with
      | Raise e => (Raise e, self)
      | Ok filter =>
        let '(r, fs) := add_to_last (filters self) filter key in
        (r, set_filters fs self)
      end
    | filter :: front =>
      if BloomFilter.count filter >=? BloomFilter.capacity filter then
        match BloomFilter.__init__ (base_capacity self)
                                   (individual_error_rate self) with
        | Raise e => (Raise e, self)
        | Ok filter' =>
          let '(r, fs) := add_to_last (filters self) filter' key in
          (r, set_filters fs self)
        end
      else
        let '(r, fs) := add_to_last (rev front) filter key in
        (r, set_filters fs self)
    end
  end.

(** The inner loop of [union], lines 611-617, over [other_filters] from
    its end: the list with the mate replaced, still reversed, when one
    is found. *)
Fixpoint find_union_mate (base_capacity : Z) (mine : BloomFilter.t)
         (reversed : list BloomFilter.t)
  : result (option (list BloomFilter.t)) :=
  match reversed with
  | [] => Ok None
  | other_filter :: rest =>
    union_filter <- BloomFilter.__or__ mine other_filter ;;
    if BloomFilter.count union_filter <? base_capacity
    then Ok (Some (union_filter :: rest))
    else
      r <- find_union_mate base_capacity mine rest ;;
      Ok (option_map (cons other_filter) r)
  end.

(** The outer loop of [union], lines 609-619. *)
Fixpoint union_loop (base_capacity : Z) (my_filters : list BloomFilter.t)
         (other_filters : list BloomFilter.t)
  : result (list BloomFilter.t) :=
  match my_filters with
  | [] => Ok other_filters
  | mine :: rest =>
    r <- find_union_mate base_capacity mine (rev other_filters) ;;
    union_loop base_capacity rest
               (match r with
                | Some reversed => rev reversed
                | None => other_filters ++ [mine]
                end)
  end.

(** [self.union(other)], lines 591-621. *)
Definition union (self other : t) : result t :=
  if negb (base_capacity self =? base_capacity other)
     || negb (individual_error_rate self
              =? individual_error_rate other)%float
  then Raise union_mismatch
  else
    new_bloom <- __init__ (base_capacity self) (max_capacity self)
                          (max_error_rate self) ;;
    other_filters <- mapM BloomFilter.copy (filters other) ;;
    fs <- union_loop (base_capacity self) (filters self) other_filters ;;
    Ok (set_filters fs new_bloom).

Definition __or__ (self other : t) : result t := union self other.

(** The inner loop of [intersection], lines 640-641. *)
Fixpoint intersection_fold (bloom bloom_filter : BloomFilter.t)
         (others : list BloomFilter.t) : result BloomFilter.t :=
  match others with
  | [] => Ok bloom
  | other_filter :: rest =>
    bloom' <- py_or bloom (py_and bloom_filter other_filter) ;;
    intersection_fold bloom' bloom_filter rest
  end.

(** [self.intersection(other)], lines 626-643. *)
Definition intersection (self other : t) : result t :=
  if negb (base_capacity self =? base_capacity other)
     || negb (individual_error_rate self
              =? individual_error_rate other)%float
  then Raise intersection_mismatch
  else
    new_bloom <- __init__ (base_capacity self) (max_capacity self)
                          (max_error_rate self) ;;
    fs <- mapM (fun bloom_filter =>
                  bloom <- BloomFilter.__init__ (base_capacity self)
                             (individual_error_rate self) ;;
                  intersection_fold bloom bloom_filter (filters other))
               (filters self) ;;
    Ok (set_filters (filters new_bloom ++ fs) new_bloom).

Definition __and__ (self other : t) : result t := intersection self other.

(** The properties [capacity] and [count], lines 648-659. *)
Definition capacity (self : t) : Z :=
  fold_right Z.add 0 (map BloomFilter.capacity (filters self)).

Definition __len__ (self : t) : Z :=
  fold_right Z.add 0 (map BloomFilter.count (filters self)).

(** [self.tofile(f)], lines 678-700. *)
Definition tofile (self : t) (f : file) : result file :=
  header <- pack_iQd (base_capacity self) (max_capacity self)
                     (max_error_rate self) ;;
  tofile_filters (filters self) (write f header).

(** [DynamicBloomFilter.fromfile(f)], lines 702-717, on the unread bytes
    [f].  [cls()] is the constructor with its defaults [100], [1000000] and
    [0.001]; [_setup] derives the individual error rate again from the
    three fields read. *)
Definition fromfile (is_string_io : bool) (f : list byte)
  : result (t * list byte) :=
  filter <- __init__ 100 1000000 BloomFilter.default_error_rate ;;
  '(base_capacity, max_capacity, error_rate) <- unpack_iQd (firstn 20 f) ;;
  filter <- _setup (filters filter) base_capacity max_capacity error_rate ;;
  '(fs, rest) <- fromfile_filters is_string_io (filters filter)
                                  (skipn 20 f) ;;
  Ok (set_filters fs filter, rest).

End Methods.

End DynamicBloomFilter.

(** ** Vocabulary of the statements *)

(** The absolute bit indices [offset + k] the loops of [__contains__] and
    [add] visit for the positions [ks]. *)
Fixpoint absolute (bits_per_slice : Z) (ks : list Z) (offset : Z) : list Z :=
  match ks with
  | [] => []
  | k :: ks' => offset + k :: absolute bits_per_slice ks' (offset + bits_per_slice)
  end.

Definition testbit (bits : bitarray.t) (i : Z) : bool :=
  nth (Z.to_nat i) bits false.

Definition set_bits (bits : bitarray.t) (indices : list Z) : bitarray.t :=
  fold_left (fun a i => bitarray.update (Z.to_nat i) true a) indices bits.

(** [a | b] and [a & b] bit by bit. *)
Definition zip_bits (op : bool -> bool -> bool) (a b : bitarray.t) : bitarray.t :=
  map (fun p => op (fst p) (snd p)) (combine a b).

(** The exceptions of the float layer, none of which is a parameter error
    of a constructor. *)
Definition arithmetic_error (e : exn) : Prop :=
  e = ZeroDivisionError \/ e = OverflowError \/ e = math_domain_error \/
  e = nan_to_int.

(** A float that is zero, negative or minus infinity. *)
Definition nonpositive (sf : spec_float) : Prop :=
  match sf with
  | S754_zero _ => True
  | S754_infinity s => s = true
  | S754_finite s _ _ => s = true
  | S754_nan => False
  end.

(** [a] has no bit set that [b] has not. *)
Definition included (a b : bitarray.t) : Prop :=
  forall i, nth i a false = true -> nth i b false = true.

(** An integer that fits an unsigned 64-bit field. *)
Definition u64 (z : Z) : Prop := 0 <= z < 2 ^ 64.

(** The closure of a generator whose digests unpack without a rest. *)
Definition aligned (hf : hashfuncs) : Prop :=
  (hf_fmt_len hf * hf_chunk_size hf = digest_size (hf_hashfn hf))%nat.

(** The length test of lines 324-327 on [nbytes] bytes of bit vector. *)
Definition length_accepted (num_bits nbytes : Z) : bool :=
  (num_bits =? 8 * nbytes) || (num_bits + (8 - num_bits mod 8) =? 8 * nbytes).

(** The filter [_setup] builds from the fields of a header, around the bit
    vector [bits]. *)
Definition restored (hf : hashfuncs) (bits : bitarray.t) (error_rate : float)
           (num_slices bits_per_slice capacity count : Z) : BloomFilter.t :=
  {| BloomFilter.error_rate := error_rate;
     BloomFilter.num_slices := num_slices;
     BloomFilter.bits_per_slice := bits_per_slice;
     BloomFilter.capacity := capacity;
     BloomFilter.count := count;
     BloomFilter.num_bits := num_slices * bits_per_slice;
     BloomFilter.make_hashes := hf;
     BloomFilter.bitarray := bits |}.

Section Vocabulary.

Context {hashlib : Hashlib} {libm : Libm}.

(** The bits a key hashes to in a filter. *)
Definition bit_indices (self : BloomFilter.t) (key : list byte) : list Z :=
  absolute (BloomFilter.bits_per_slice self)
           (fst (hashes (BloomFilter.make_hashes self) key)) 0.

Definition all_bits_set (self : BloomFilter.t) (key : list byte) : bool :=
  forallb (testbit (BloomFilter.bitarray self)) (bit_indices self key).

(** The state [_setup] and the constructor establish and [add] keeps. *)
Record well_formed (self : BloomFilter.t) : Prop := {
  wf_num_slices : 0 < BloomFilter.num_slices self;
  wf_bits_per_slice : 0 < BloomFilter.bits_per_slice self;
  wf_make_hashes :
    make_hashfuncs (BloomFilter.num_slices self)
                   (BloomFilter.bits_per_slice self)
    = Ok (BloomFilter.make_hashes self);
  wf_bitarray :
    BloomFilter.num_slices self * BloomFilter.bits_per_slice self
    <= len (BloomFilter.bitarray self)
}.

(** The key as [add(key, skip_check=True)] leaves a filter: every bit of the
    key set and one more counted. *)
Definition inserted (filter : BloomFilter.t) (key : list byte) : BloomFilter.t :=
  BloomFilter.set_count (BloomFilter.count filter + 1)
    (BloomFilter.set_bitarray
       (set_bits (BloomFilter.bitarray filter) (bit_indices filter key))
       filter).

(** A filter as the constructor and [add] make it: its sizes and hash
    functions are the ones the constructor derives from its capacity and
    error rate, and its bit vector has [num_bits] bits. *)
Definition constructed (self : BloomFilter.t) : Prop :=
  exists fresh,
    BloomFilter.__init__ (BloomFilter.capacity self)
                         (BloomFilter.error_rate self) = Ok fresh /\
    self = BloomFilter.set_count (BloomFilter.count self)
             (BloomFilter.set_bitarray (BloomFilter.bitarray self) fresh) /\
    len (BloomFilter.bitarray self) = BloomFilter.num_bits self.

(** The result of a set operation: [self] with the bit vectors merged by
    [op] and the count estimated from the merged bits, or set to the number
    of bits when the estimate raises. *)
Definition merged (op : bool -> bool -> bool) (self other : BloomFilter.t)
  : BloomFilter.t :=
  let bits :=
    zip_bits op (BloomFilter.bitarray self) (BloomFilter.bitarray other) in
  BloomFilter.set_count
    (match BloomFilter.estimate bits (BloomFilter.num_slices self) with
     | Ok n => n
     | Raise _ => BloomFilter.num_bits self
     end)
    (BloomFilter.set_bitarray bits self).

(** The estimator of the specification, in the words of the
    specification and in binary64 arithmetic.  [ln] is the natural
    logarithm where [math.log] gives one: the C [log] of a positive finite
    float, when that is finite; none on zero and on a negative float; a
    float that is not a number, and plus infinity, pass through. *)
Definition ln (x : float) : option float :=
  if is_finite x then
    if (0 <? x)%float && is_finite (libm_log x) then Some (libm_log x)
    else None
  else if is_nan x || (0 <? x)%float then Some x
  else None.

(** The float of an integer, none when the integer is too large for one;
    the integer value of a float, none when the float is infinite or not a
    number. *)
Definition as_float (z : Z) : option float :=
  match float_of_int z with Ok x => Some x | Raise _ => None end.

Definition integer_value (q : float) : option Z :=
  match Prim2SF q with
  | S754_zero _ => Some 0
  | S754_finite s m e => Some (trunc_scaled (cond_Zopp s (Zpos m)) e)
  | _ => None
  end.

(** [ln(1 - set_bits/total_bits) / (slice_count * ln(1 - 1/total_bits))],
    none where the formula is undefined: a division by zero or a logarithm
    that is none. *)
Definition cardinality_estimate (set_bits total_bits slice_count : Z)
  : option Z :=
  match as_float set_bits, as_float total_bits, as_float slice_count with
  | Some x, Some m, Some k =>
    if (m =? 0)%float then None
    else
      match ln (1 - x / m), ln (1 - 1 / m) with
      | Some a, Some b =>
        if (k * b =? 0)%float then None else integer_value (a / (k * b))
      | _, _ => None
      end
  | _, _, _ => None
  end.

(** The count of the specification: the integer value of the estimate, or
    the total number of bits where the estimate is undefined. *)
Definition estimated_cardinality (set_bits total_bits slice_count : Z) : Z :=
  match cardinality_estimate set_bits total_bits slice_count with
  | Some n => n
  | None => total_bits
  end.


(** The same without the bound on the count, which a merge may not keep. *)
Definition same_kind (bc : Z) (rate : float) (f : BloomFilter.t) : Prop :=
  constructed f /\
  BloomFilter.capacity f = bc /\ BloomFilter.error_rate f = rate.


(** The fold of [DynamicBloomFilter.intersection] as the specification words
    it, with the set operations of the filters:
    [accumulator = accumulator OR (self_filter AND other_filter)] across the
    sub-filters of [other].  It is what the code is compared with, not a
    part of the code. *)
Fixpoint union_of_intersections (accumulator self_filter : BloomFilter.t)
         (others : list BloomFilter.t) : result BloomFilter.t :=
  match others with
  | [] => Ok accumulator
  | other_filter :: rest =>
    common <- BloomFilter.intersection self_filter other_filter ;;
    accumulator' <- BloomFilter.union accumulator common ;;
    union_of_intersections accumulator' self_filter rest
  end.

(** The filter after a sequence of calls [add(key, skip_check)], whatever
    each of them returns or raises. *)
Fixpoint add_all (self : BloomFilter.t) (calls : list (list byte * bool))
  : BloomFilter.t :=
  match calls with
  | [] => self
  | (key, skip_check) :: rest =>
    add_all (snd (BloomFilter.add self key skip_check)) rest
  end.

(** A filter as [_setup] makes it, with as many bits as its sizes say and
    integers that fit the fields of the file format. *)
Definition storable (self : BloomFilter.t) : Prop :=
  BloomFilter.num_bits self
  = BloomFilter.num_slices self * BloomFilter.bits_per_slice self /\
  len (BloomFilter.bitarray self) = BloomFilter.num_bits self /\
  make_hashfuncs (BloomFilter.num_slices self)
                 (BloomFilter.bits_per_slice self)
  = Ok (BloomFilter.make_hashes self) /\
  u64 (BloomFilter.num_slices self) /\
  u64 (BloomFilter.bits_per_slice self) /\
  u64 (BloomFilter.capacity self) /\
  u64 (BloomFilter.count self).

(** The filter with zero bits after its bit vector, up to a whole number
    of bytes. *)
Definition padded (self : BloomFilter.t) : BloomFilter.t :=
  BloomFilter.set_bitarray
    (BloomFilter.bitarray self
     ++ repeat false (Z.to_nat ((- BloomFilter.num_bits self) mod 8)))
    self.

(** The bytes [tofile] writes for a filter whose integers fit the format:
    the five fields and the bit vector. *)
Definition encoded (self : BloomFilter.t) : list byte :=
  pack_double (BloomFilter.error_rate self)
  ++ le_bytes 8 (BloomFilter.num_slices self)
  ++ le_bytes 8 (BloomFilter.bits_per_slice self)
  ++ le_bytes 8 (BloomFilter.capacity self)
  ++ le_bytes 8 (BloomFilter.count self)
  ++ bitarray.tobytes (BloomFilter.bitarray self).

(** What follows the fixed fields in the file of a growing filter: the
    number of sub-filters, the size of each and the sub-filters. *)
Definition encoded_filters (filters : list BloomFilter.t) : list byte :=
  le_bytes 4 (len filters)
  ++ concat (map (fun f => le_bytes 8 (len (encoded f))) filters)
  ++ concat (map encoded filters).

(** Every filter of [fs] has its set bits in some filter of [gs]. *)
Definition covered (fs gs : list BloomFilter.t) : Prop :=
  forall f, In f fs ->
            exists g, In g gs /\
                      included (BloomFilter.bitarray f) (BloomFilter.bitarray g).

(** A file with the content [before], positioned at its end. *)
Definition at_end (before : list byte) : file :=
  {| content := before; position := length before |}.

(** A growing filter after [add] was called with each of [keys] in turn,
    whatever each call returned or raised. *)
Fixpoint scalable_add_all (self : ScalableBloomFilter.t)
         (keys : list (list byte)) : ScalableBloomFilter.t :=
  match keys with
  | [] => self
  | key :: rest =>
    scalable_add_all (snd (ScalableBloomFilter.add self key)) rest
  end.

Fixpoint dynamic_add_all (self : DynamicBloomFilter.t)
         (keys : list (list byte)) : DynamicBloomFilter.t :=
  match keys with
  | [] => self
  | key :: rest =>
    dynamic_add_all (snd (DynamicBloomFilter.add self key)) rest
  end.

(** Sub-filters none of which holds more keys than its capacity. *)
Definition within_capacity (filters : list BloomFilter.t) : Prop :=
  Forall (fun f => 0 <= BloomFilter.count f <= BloomFilter.capacity f)
         filters.

(** One call of [add] on a growing filter, seen from its list of
    sub-filters: with the outcome [r] the list [fs] becomes [fs'].  The key
    tests as a member and nothing changes; or the membership test or a
    constructor raises, and nothing changes; or the key goes into a
    sub-filter that ends the list, the last one when it has room and a
    fresh one otherwise. *)
Definition grows (fs : list BloomFilter.t) (key : list byte)
           (r : result bool) (fs' : list BloomFilter.t) : Prop :=
  (r = Ok true /\ fs' = fs /\ any_contains (rev fs) key = Ok true) \/
  (exists e, r = Raise e /\ fs' = fs /\ e <> BloomFilter.at_capacity) \/
  (exists front filter,
     r = (_ <- fst (BloomFilter.add filter key true) ;; Ok false) /\
     fs' = front ++ [snd (BloomFilter.add filter key true)] /\
     ((fs = front ++ [filter] /\
       BloomFilter.count filter < BloomFilter.capacity filter) \/
      (fs = front /\
       exists c e, BloomFilter.__init__ c e = Ok filter))).

End Vocabulary.

(** ** Stand-ins to run the model

    A digest with the output length of each algorithm and a small software
    [log], [exp] and square.  They are not the C functions; concrete runs
    that use them say so. *)

Module Demo.

(** A multiplicative checksum of [data]. *)
Definition mix (data : list byte) : Z :=
  fold_left (fun s b => (s * 1103515245 + Z_of_byte b + 12345) mod 2 ^ 61)
            data 1469598103.

Definition demo_digest (h : hashfn) (data : list byte) : list byte :=
  map (fun k => byte_of_Z ((mix data + 1) * (2 * Z.of_nat k + 3) / 2 ^ 7))
      (seq 0 (digest_size h)).

Definition hashlib : Hashlib.
Proof.
  refine {| digest := demo_digest |}.
  intros h data. unfold demo_digest. now rewrite length_map, length_seq.
Defined.

Definition ln2 : float := 0x1.62e42fefa39efp-1%float.

(** [n] terms of [z + z^3 / 3 + z^5 / 5 + ...], from the term [zpow / k]
    on. *)
Fixpoint atanh_series (n : nat) (z zpow k : float) : float :=
  match n with
  | O => 0%float
  | S j => (zpow / k + atanh_series j z (zpow * z * z) (k + 2))%float
  end.

(** [log x] as [e * ln 2 + log m] for [x = m * 2 ^ e], [m] in [[1/2, 1)]. *)
Definition demo_log (x : float) : float :=
  let '(m, e) := Z.frexp x in
  let z := ((m - 1) / (m + 1))%float in
  let ef := match float_of_int e with Ok k => k | Raise _ => 0%float end in
  (ef * ln2 + 2 * atanh_series 24 z z 1)%float.

(** [n] terms of [1 + x + x^2 / 2 + ...], from the term [term] of rank [k]
    on. *)
Fixpoint exp_series (n : nat) (x term k : float) : float :=
  match n with
  | O => 0%float
  | S j => (term + exp_series j x (term * x / k) (k + 1))%float
  end.

Definition demo_exp (x : float) : float := exp_series 40 x 1 1.

Definition libm : Libm :=
  {| libm_log := demo_log;
     libm_exp := demo_exp;
     libm_pow := fun x _ => (x * x)%float |}.

(** *** Sample objects *)

Definition unwrap {A : Type} (default : A) (r : result A) : A :=
  match r with
  | Ok a => a
  | Raise _ => default
  end.

Definition blank : BloomFilter.t :=
  {| BloomFilter.error_rate := 0;
     BloomFilter.num_slices := 0;
     BloomFilter.bits_per_slice := 0;
     BloomFilter.capacity := 0;
     BloomFilter.count := 0;
     BloomFilter.num_bits := 0;
     BloomFilter.make_hashes :=
       {| hf_chunk_size := 2; hf_hashfn := md5; hf_fmt_len := 8;
          hf_salts := []; hf_num_slices := 0; hf_num_bits := 0 |};
     BloomFilter.bitarray := [] |}.

(** The keys [hello] and [world], as their UTF-8 bytes. *)
Definition hello : list byte := [x68; x65; x6c; x6c; x6f].
Definition world : list byte := [x77; x6f; x72; x6c; x64].

(** The error rate [0.1]. *)
Definition rate : float := 0x1.999999999999ap-4%float.

(** [BloomFilter(1, 0.1)]: four slices of two bits. *)
Definition filter8 : BloomFilter.t :=
  Eval vm_compute in
    unwrap blank (BloomFilter.__init__ (hashlib := hashlib) (libm := libm) 1 rate).

(** [BloomFilter(2, 0.1)]: four slices of three bits. *)
Definition filter12 : BloomFilter.t :=
  Eval vm_compute in
    unwrap blank (BloomFilter.__init__ (hashlib := hashlib) (libm := libm) 2 rate).

(** [ScalableBloomFilter(2, 0.5)] *)
Definition scalable : ScalableBloomFilter.t :=
  {| ScalableBloomFilter.scale := ScalableBloomFilter.SMALL_SET_GROWTH;
     ScalableBloomFilter.ratio := ScalableBloomFilter.default_ratio;
     ScalableBloomFilter.initial_capacity := 2;
     ScalableBloomFilter.error_rate := 0.5;
     ScalableBloomFilter.filters := [] |}.

Definition blank_dynamic : DynamicBloomFilter.t :=
  {| DynamicBloomFilter.individual_error_rate := 0;
     DynamicBloomFilter.max_error_rate := 0;
     DynamicBloomFilter.max_capacity := 0;
     DynamicBloomFilter.base_capacity := 0;
     DynamicBloomFilter.filters := [] |}.

(** [DynamicBloomFilter(4, 40, 0.1)] and [DynamicBloomFilter(4, 39, 0.1)],
    and a sub-filter of theirs. *)
Definition dynamic40 : DynamicBloomFilter.t :=
  Eval vm_compute in
    unwrap blank_dynamic
           (DynamicBloomFilter.__init__ (libm := libm) 4 40 rate).

Definition dynamic39 : DynamicBloomFilter.t :=
  Eval vm_compute in
    unwrap blank_dynamic
           (DynamicBloomFilter.__init__ (libm := libm) 4 39 rate).

Definition sub_filter0 : BloomFilter.t :=
  Eval vm_compute in
    unwrap blank
           (BloomFilter.__init__ (hashlib := hashlib) (libm := libm) 4
              (DynamicBloomFilter.individual_error_rate dynamic40)).

(** The sub-filter after adding [hello] and after adding [world], and the
    two dynamic filters that hold them. *)
Definition filter_hello : BloomFilter.t :=
  Eval vm_compute in inserted (hashlib := hashlib) sub_filter0 hello.

Definition filter_world : BloomFilter.t :=
  Eval vm_compute in inserted (hashlib := hashlib) sub_filter0 world.

Definition with_hello : DynamicBloomFilter.t :=
  Eval vm_compute in DynamicBloomFilter.set_filters [filter_hello] dynamic40.

Definition with_world : DynamicBloomFilter.t :=
  Eval vm_compute in DynamicBloomFilter.set_filters [filter_world] dynamic39.

(** The first sub-filter [scalable] creates:
    [BloomFilter(2, 0.5 * (1 - 0.9))]. *)
Definition first_filter : BloomFilter.t :=
  Eval vm_compute in
    unwrap blank
           (BloomFilter.__init__ (hashlib := hashlib) (libm := libm) 2
              (0.5 * (1 - ScalableBloomFilter.default_ratio))%float).

(** The header of [filter8] as [tofile] writes it. *)
Definition header8 : list byte :=
  Eval vm_compute in unwrap [] (pack_dQQQQ rate 4 2 1 0).

(** [filter8] with every bit set. *)
Definition full8 : BloomFilter.t :=
  Eval vm_compute in BloomFilter.set_bitarray (repeat true 8) filter8.

(** [scalable] after [add("hello")]. *)
Definition scalable_hello : ScalableBloomFilter.t :=
  Eval vm_compute in
    snd (ScalableBloomFilter.add (hashlib := hashlib) (libm := libm)
                                 scalable hello).

End Demo.

(** * Properties *)

(** Closes a goal about concrete values by evaluation. *)
Ltac by_evaluation :=
  vm_compute;
  first [ reflexivity | exact I | discriminate
        | let H := fresh in intro H; discriminate H ].

Ltac well_formed_by_evaluation :=
  constructor; by_evaluation.

Ltac constructed_by_evaluation fresh :=
  exists fresh; split; [by_evaluation | split; by_evaluation].

(** ** Lists and the error monad *)

Lemma len_nil {A} : len (@nil A) = 0.
Proof. reflexivity. Qed.

Lemma len_cons {A} (a : A) l : len (a :: l) = len l + 1.
Proof. unfold len. simpl length. lia. Qed.

Lemma len_app {A} (l1 l2 : list A) : len (l1 ++ l2) = len l1 + len l2.
Proof. unfold len. rewrite length_app. lia. Qed.

Lemma len_nonneg {A} (l : list A) : 0 <= len l.
Proof. unfold len. lia. Qed.

Lemma mapM_length {A B} (f : A -> result B) l l' :
  mapM f l = Ok l' -> length l' = length l.
Proof.
  revert l'. induction l as [|a l IH]; simpl; intros l' H.
  - now inversion H.
  - destruct (f a) as [b|e]; simpl in H; [|discriminate].
    destruct (mapM f l) as [bs|e]; simpl in H; [|discriminate].
    inversion H; subst. simpl. f_equal. now apply IH.
Qed.

Lemma mapM_total {A B} (f : A -> result B) l :
  Forall (fun a => exists b, f a = Ok b) l -> exists l', mapM f l = Ok l'.
Proof.
  induction 1 as [|a l [b Hb] _ [l' IH]]; simpl.
  - now exists [].
  - rewrite Hb, IH. simpl. now eexists.
Qed.

Lemma range_fn_length n : length (range_fn n) = Z.to_nat n.
Proof. unfold range_fn. now rewrite length_map, length_seq. Qed.

Lemma range_fn_bounds n : Forall (fun i => 0 <= i < n) (range_fn n).
Proof.
  unfold range_fn. apply Forall_forall. intros i Hi.
  apply in_map_iff in Hi. destruct Hi as [k [<- Hk]].
  apply in_seq in Hk. lia.
Qed.

(** ** The hash sequence generator *)

Lemma chunks_length w c bs : length (chunks w c bs) = c.
Proof. revert bs. induction c; simpl; intros; [reflexivity | now rewrite IHc]. Qed.

Lemma unpack_uints_exact w c bs :
  length bs = (c * w)%nat ->
  exists us, unpack_uints w c bs = Ok us /\ length us = c.
Proof.
  intros H. unfold unpack_uints. rewrite H, Nat.eqb_refl.
  eexists. split; [reflexivity|]. now rewrite length_map, chunks_length.
Qed.

Lemma unpack_uints_raises w c bs e :
  unpack_uints w c bs = Raise e -> e = StructError.
Proof.
  unfold unpack_uints. destruct (Nat.eqb _ _); intros H; now inversion H.
Qed.

Lemma emit_continues ns nb us i :
  nb <> 0 -> i + len us < ns ->
  emit ns nb us i = (map (fun u => u mod nb) us, Continue (i + len us)).
Proof.
  intros Hnb. revert i. induction us as [|u us IH]; intros i Hi; cbn [emit map].
  - rewrite len_nil. now rewrite Z.add_0_r.
  - rewrite len_cons in *.
    destruct (Z.eqb_spec nb 0) as [|_]; [contradiction|].
    destruct (Z.geb_spec (i + 1) ns) as [Hge|_]; [pose proof (len_nonneg us); lia|].
    rewrite IH by lia. do 2 f_equal. lia.
Qed.

Lemma emit_returns ns nb us i :
  0 < nb -> i < ns <= i + len us ->
  exists ys, emit ns nb us i = (ys, Returned) /\ len ys = ns - i /\
             Forall (fun p => 0 <= p < nb) ys.
Proof.
  intros Hnb. revert i. induction us as [|u us IH]; intros i Hi; cbn [emit].
  - rewrite len_nil in Hi. lia.
  - rewrite len_cons in Hi.
    destruct (Z.eqb_spec nb 0) as [|_]; [lia|].
    destruct (Z.geb_spec (i + 1) ns) as [Hge|Hlt].
    + exists [u mod nb]. repeat split.
      * rewrite len_cons, len_nil. lia.
      * constructor; [|constructor]. now apply Z.mod_pos_bound.
    + destruct (IH (i + 1)) as [ys [E [L F]]]; [lia|].
      rewrite E. exists (u mod nb :: ys). repeat split.
      * rewrite len_cons. lia.
      * constructor; [now apply Z.mod_pos_bound | assumption].
Qed.

Section HashingFacts.

Context {hashlib : Hashlib}.

Lemma run_salts_spec hf key salts i :
  aligned hf -> 0 < hf_num_bits hf ->
  0 <= i < hf_num_slices hf ->
  hf_num_slices hf <= i + len salts * Z.of_nat (hf_fmt_len hf) ->
  exists ks, run_salts hf key salts i = (ks, None) /\
             len ks = hf_num_slices hf - i /\
             Forall (fun p => 0 <= p < hf_num_bits hf) ks.
Proof.
  intros Hal Hnb. revert i.
  induction salts as [|salt rest IH]; intros i Hi Hcover.
  - unfold len in Hcover. cbn [length Z.of_nat] in Hcover. lia.
  - rewrite len_cons in Hcover. cbn [run_salts].
    destruct (unpack_uints_exact (hf_chunk_size hf) (hf_fmt_len hf)
                (digest (hf_hashfn hf) (salt ++ key))) as [us [E L]].
    { rewrite digest_length. symmetry. exact Hal. }
    rewrite E.
    assert (Hlen : len us = Z.of_nat (hf_fmt_len hf)) by (unfold len; now rewrite L).
    destruct (Z_lt_le_dec (i + len us) (hf_num_slices hf)) as [Hshort|Hlast].
    + rewrite emit_continues by lia.
      destruct (IH (i + len us)) as [zs [Ez [Lz Fz]]]; [lia | lia |].
      rewrite Ez. eexists. split; [reflexivity|]. split.
      * rewrite len_app. unfold len at 1. rewrite length_map. fold (len us). lia.
      * apply Forall_app. split; [|assumption].
        apply Forall_forall. intros p Hp. apply in_map_iff in Hp.
        destruct Hp as [u [<- _]]. now apply Z.mod_pos_bound.
    + destruct (emit_returns (hf_num_slices hf) (hf_num_bits hf) us i)
        as [ys [Ey [Ly Fy]]]; [assumption | lia |].
      rewrite Ey. now exists ys.
Qed.

(** The choices of [make_hashfuncs]: the digest is a whole number of
    chunks, and the salts cover the slices. *)
Lemma format_choice ns nb :
  0 < ns ->
  let chunk_size :=
    if nb >=? 2 ^ 31 then 8%nat
    else if nb >=? 2 ^ 15 then 4%nat
    else 2%nat in
  let total_hash_bits := 8 * ns * Z.of_nat chunk_size in
  let hashfn :=
    if total_hash_bits >? 384 then sha512
    else if total_hash_bits >? 256 then sha384
    else if total_hash_bits >? 160 then sha256
    else if total_hash_bits >? 128 then sha1
    else md5 in
  let fmt_len := (digest_size hashfn / chunk_size)%nat in
  let num_salts := ns / Z.of_nat fmt_len in
  let extra := ns mod Z.of_nat fmt_len in
  let num_salts := if extra =? 0 then num_salts else num_salts + 1 in
  (fmt_len * chunk_size = digest_size hashfn)%nat /\
  0 <= num_salts <= ns /\ ns <= num_salts * Z.of_nat fmt_len.
Proof.
  intros Hns chunk_size total_hash_bits hashfn fmt_len.
  assert (Hc : (chunk_size = 2 \/ chunk_size = 4 \/ chunk_size = 8)%nat).
  { unfold chunk_size. destruct (nb >=? 2 ^ 31); [|destruct (nb >=? 2 ^ 15)]; auto. }
  assert (Hh : (hashfn = sha512 /\ 384 < total_hash_bits) \/
               (hashfn = sha384 /\ 256 < total_hash_bits <= 384) \/
               (hashfn = sha256 /\ 160 < total_hash_bits <= 256) \/
               (hashfn = sha1 /\ 128 < total_hash_bits <= 160) \/
               (hashfn = md5 /\ total_hash_bits <= 128)).
  { unfold hashfn.
    repeat match goal with
           | |- context [?a >? ?b] => destruct (Z.gtb_spec a b)
           end; intuition lia. }
  assert (Hf : (fmt_len * chunk_size = digest_size hashfn)%nat /\
               (2 <= fmt_len)%nat).
  { unfold fmt_len, total_hash_bits in *. clearbody hashfn chunk_size.
    destruct Hh as [ [-> Hb] | [ [-> Hb] | [ [-> Hb] | [ [-> Hb] | [-> Hb] ] ] ] ];
      destruct Hc as [-> | [-> | ->] ];
      (split; [first [reflexivity | exfalso; lia] | cbv; lia]). }
  destruct Hf as [Hal Hlen]. clearbody fmt_len. clear Hh Hc.
  intros num_salts extra num_salts'. subst num_salts extra num_salts'.
  split; [exact Hal|].
  pose proof (Z.div_mod ns (Z.of_nat fmt_len) ltac:(lia)) as Hdm.
  pose proof (Z.mod_pos_bound ns (Z.of_nat fmt_len) ltac:(lia)) as Hmb.
  assert (0 <= ns / Z.of_nat fmt_len) by (apply Z.div_pos; lia).
  destruct (Z.eqb_spec (ns mod Z.of_nat fmt_len) 0); nia.
Qed.

(** What [make_hashfuncs] fixes when it returns. *)
Lemma make_hashfuncs_inv ns nb hf :
  0 < ns -> make_hashfuncs ns nb = Ok hf ->
  hf_num_slices hf = ns /\ hf_num_bits hf = nb /\ aligned hf /\
  ns <= len (hf_salts hf) * Z.of_nat (hf_fmt_len hf).
Proof.
  intros Hns H. pose proof (format_choice ns nb Hns) as F.
  unfold make_hashfuncs in H. cbv zeta in F, H.
  destruct F as [Hal [Hn Hc]].
  match type of H with
  | bind (mapM ?f (range_fn ?n)) _ = _ =>
    destruct (mapM f (range_fn n)) as [salts|e] eqn:Hs; cbn [bind] in H; [|discriminate];
    apply mapM_length in Hs; rewrite range_fn_length in Hs
  end.
  inversion H; subst hf; clear H. unfold aligned, len. cbn [hf_num_slices hf_num_bits hf_fmt_len hf_chunk_size hf_hashfn hf_salts].
  rewrite Hs. split; [reflexivity|]. split; [reflexivity|].
  split; [exact Hal|]. rewrite Z2Nat.id by lia. exact Hc.
Qed.

Lemma make_hashfuncs_total ns nb :
  0 < ns <= 2 ^ 32 -> exists hf, make_hashfuncs ns nb = Ok hf.
Proof.
  intros Hns. pose proof (format_choice ns nb ltac:(lia)) as F.
  unfold make_hashfuncs. cbv zeta in F |- *.
  destruct F as [_ [Hn _]].
  match goal with
  | |- context [mapM ?f (range_fn ?n)] =>
    destruct (mapM_total f (range_fn n)) as [salts Hs]
  end.
  - eapply Forall_impl; [|apply range_fn_bounds].
    intros i Hi. cbv beta in Hi |- *. unfold pack_uint.
    destruct (Z.leb_spec 0 i); [|lia].
    destruct (Z.ltb_spec i (2 ^ (8 * Z.of_nat 4))) as [|Hge];
      [|change (2 ^ (8 * Z.of_nat 4)) with (2 ^ 32) in Hge; lia].
    cbn [andb bind]. now eexists.
  - rewrite Hs. cbn [bind]. now eexists.
Qed.

(** Every generator [make_hashfuncs] returns yields exactly [num_slices]
    positions, each inside one slice. *)
Lemma hashes_spec ns nb hf key :
  0 < ns -> 0 < nb -> make_hashfuncs ns nb = Ok hf ->
  exists ks, hashes hf key = (ks, None) /\ len ks = ns /\
             Forall (fun p => 0 <= p < nb) ks.
Proof.
  intros Hns Hnb H.
  destruct (make_hashfuncs_inv ns nb hf Hns H) as [E1 [E2 [Hal Hc]]].
  destruct (run_salts_spec hf key (hf_salts hf) 0) as [ks [E [L F]]];
    rewrite ?E1, ?E2; try assumption; try lia.
  exists ks. unfold hashes. rewrite E. rewrite E1, E2 in *.
  repeat split; [lia | assumption].
Qed.

End HashingFacts.

(** ** Bit vectors *)

Lemma index_in_range n k : 0 <= k < n -> bitarray.index n k = Ok (Z.to_nat k).
Proof.
  intros H. unfold bitarray.index.
  destruct (Z.leb_spec 0 k); [|lia]. destruct (Z.ltb_spec k n); [|lia].
  reflexivity.
Qed.

Lemma index_raises n k e : bitarray.index n k = Raise e -> e = bitarray.index_error.
Proof.
  unfold bitarray.index.
  destruct (_ && _); [discriminate|]. destruct (_ && _); [discriminate|].
  now inversion 1.
Qed.

Lemma getitem_in_range a k :
  0 <= k < len a -> bitarray.getitem a k = Ok (testbit a k).
Proof. intros H. unfold bitarray.getitem. now rewrite index_in_range. Qed.

Lemma setitem_in_range a k v :
  0 <= k < len a ->
  bitarray.setitem a k v = Ok (bitarray.update (Z.to_nat k) v a).
Proof. intros H. unfold bitarray.setitem. now rewrite index_in_range. Qed.

Lemma getitem_raises a k e :
  bitarray.getitem a k = Raise e -> e = bitarray.index_error.
Proof.
  unfold bitarray.getitem. destruct (bitarray.index _ _) eqn:E; [discriminate|].
  cbn [bind]. inversion 1; subst. eapply index_raises; eauto.
Qed.

Lemma setitem_raises a k v e :
  bitarray.setitem a k v = Raise e -> e = bitarray.assignment_index_error.
Proof.
  unfold bitarray.setitem. destruct (bitarray.index _ _) eqn:E; [discriminate|].
  now inversion 1.
Qed.

Lemma update_length i v a : length (bitarray.update i v a) = length a.
Proof.
  revert i. induction a as [|b a IH]; intros [|i]; simpl; auto.
Qed.

Lemma len_update i v a : len (bitarray.update i v a) = len a.
Proof. unfold len. now rewrite update_length. Qed.

Lemma nth_update i j v a :
  nth j (bitarray.update i v a) false =
  if (Nat.eqb i j && Nat.ltb i (length a))%bool then v else nth j a false.
Proof.
  revert i j. induction a as [|b a IH]; intros i j.
  - simpl. destruct i, j; simpl; rewrite ?andb_false_r; reflexivity.
  - destruct i as [|i], j as [|j]; simpl; try reflexivity.
    rewrite IH. reflexivity.
Qed.

Lemma update_set_bit i a :
  nth i a false = true -> bitarray.update i true a = a.
Proof.
  revert i. induction a as [|b a IH]; intros [|i] H; simpl in *;
    try reflexivity; try congruence.
  f_equal. now apply IH.
Qed.

Lemma testbit_update i j a :
  0 <= i < len a -> 0 <= j ->
  testbit (bitarray.update (Z.to_nat i) true a) j = (i =? j) || testbit a j.
Proof.
  intros Hi Hj. unfold testbit. rewrite nth_update.
  destruct (Z.eqb_spec i j) as [->|Hne].
  - rewrite Nat.eqb_refl. destruct (Nat.ltb_spec (Z.to_nat j) (length a)); [reflexivity|].
    unfold len in Hi. lia.
  - destruct (Nat.eqb_spec (Z.to_nat i) (Z.to_nat j)); [lia|]. reflexivity.
Qed.

Lemma set_bits_length a indices : len (set_bits a indices) = len a.
Proof.
  revert a. induction indices as [|i l IH]; intros a; simpl; [reflexivity|].
  unfold set_bits in *. simpl. rewrite IH. apply len_update.
Qed.

Lemma testbit_set_bits a indices j :
  Forall (fun i => 0 <= i < len a) indices -> 0 <= j ->
  testbit (set_bits a indices) j = existsb (Z.eqb j) indices || testbit a j.
Proof.
  intros H Hj. revert a H. induction indices as [|i l IH]; intros a H.
  - reflexivity.
  - inversion H as [|? ? Hi Hl]; subst. unfold set_bits in *. cbn [fold_left existsb].
    rewrite IH.
    + rewrite testbit_update by assumption. rewrite (Z.eqb_sym j i).
      destruct (i =? j), (existsb (Z.eqb j) l); reflexivity.
    + rewrite len_update. assumption.
Qed.

Lemma set_bits_present a indices :
  forallb (testbit a) indices = true -> set_bits a indices = a.
Proof.
  induction indices as [|i l IH]; intros H; [reflexivity|].
  simpl in H. apply andb_true_iff in H. destruct H as [Hi Hl].
  unfold set_bits in *. simpl. rewrite update_set_bit by exact Hi. now apply IH.
Qed.

(** ** Slices *)

Lemma absolute_length bps ks off : len (absolute bps ks off) = len ks.
Proof.
  revert off. induction ks as [|k ks IH]; intros off; cbn [absolute];
    [reflexivity|].
  rewrite !len_cons. now rewrite IH.
Qed.

(** Each index falls in the slice of its rank. *)
Lemma absolute_bounds bps ks off :
  0 < bps -> Forall (fun p => 0 <= p < bps) ks ->
  Forall (fun i => off <= i < off + len ks * bps) (absolute bps ks off).
Proof.
  intros Hb H. revert off.
  induction H as [|k ks Hk _ IH]; intros off; cbn [absolute].
  - constructor.
  - rewrite len_cons. pose proof (len_nonneg ks). constructor; [nia|].
    eapply Forall_impl; [|apply IH]. cbv beta. intros i Hi. nia.
Qed.

Lemma forallb_ext_in {A} (f g : A -> bool) l :
  Forall (fun x => f x = g x) l -> forallb f l = forallb g l.
Proof. induction 1; simpl; congruence. Qed.

(** ** The loops of [__contains__] and [add] *)

Section Loops.

Context {hashlib : Hashlib}.

Lemma contains_loop_spec bits bps ks off :
  Forall (fun i => 0 <= i < len bits) (absolute bps ks off) ->
  BloomFilter.contains_loop bits bps ks None off
  = Ok (forallb (testbit bits) (absolute bps ks off)).
Proof.
  revert off. induction ks as [|k ks IH]; intros off H; simpl.
  - reflexivity.
  - inversion H as [|? ? Hk Hks]; subst.
    rewrite getitem_in_range by assumption. cbn [bind].
    destruct (testbit bits (off + k)); cbn [negb andb]; [|reflexivity].
    now apply IH.
Qed.

(** The loop of [add] sets every index, and reports whether all of them
    were set on entry: the indices of later slices lie above the bit just
    written. *)
Lemma add_loop_spec skip_check bits bps ks off found :
  0 < bps -> Forall (fun p => 0 <= p < bps) ks ->
  0 <= off -> off + len ks * bps <= len bits ->
  BloomFilter.add_loop skip_check bps ks None off found bits
  = (Ok (if skip_check then found
         else found && forallb (testbit bits) (absolute bps ks off)),
     set_bits bits (absolute bps ks off)).
Proof.
  intros Hb H. revert off found bits.
  induction H as [|k ks Hk Hks IH]; intros off found bits Hoff Hlen.
  - simpl. destruct skip_check; [reflexivity|]. now rewrite andb_true_r.
  - rewrite len_cons in Hlen. pose proof (len_nonneg ks) as Hks0.
    assert (Hin : 0 <= off + k < len bits) by nia.
    cbn [BloomFilter.add_loop absolute forallb].
    rewrite setitem_in_range by assumption.
    assert (Hrest : forallb (testbit (bitarray.update (Z.to_nat (off + k)) true bits))
                            (absolute bps ks (off + bps))
                    = forallb (testbit bits) (absolute bps ks (off + bps))).
    { apply forallb_ext_in.
      eapply Forall_impl; [|apply (absolute_bounds bps ks (off + bps) Hb Hks)].
      cbv beta. intros i Hi. rewrite testbit_update by lia.
      destruct (Z.eqb_spec (off + k) i); [lia|reflexivity]. }
    destruct skip_check; cbn [negb andb].
    + rewrite IH by (rewrite ?len_update; lia). reflexivity.
    + destruct found; cbn [andb].
      * rewrite getitem_in_range by assumption. cbn [bind].
        rewrite IH by (rewrite ?len_update; lia).
        rewrite Hrest. unfold set_bits. cbn [fold_left].
        destruct (testbit bits (off + k)); reflexivity.
      * rewrite IH by (rewrite ?len_update; lia). reflexivity.
Qed.

Lemma emit_raises ns nb us i ys e :
  emit ns nb us i = (ys, Raised e) -> e = ZeroDivisionError.
Proof.
  revert i ys. induction us as [|u us IH]; intros i ys; cbn [emit].
  - discriminate.
  - destruct (nb =? 0); [now inversion 1|].
    destruct (i + 1 >=? ns); [discriminate|].
    destruct (emit ns nb us (i + 1)) as [zs st] eqn:E.
    inversion 1; subst. eapply IH; eauto.
Qed.

(** The generator ends normally or with one of two exceptions. *)
Lemma run_salts_raises hf key salts i ks e :
  run_salts hf key salts i = (ks, Some e) ->
  e = StructError \/ e = ZeroDivisionError.
Proof.
  revert i ks. induction salts as [|salt rest IH]; intros i ks; cbn [run_salts].
  - discriminate.
  - destruct (unpack_uints _ _ _) as [us|e'] eqn:U.
    + destruct (emit _ _ us i) as [ys [i'| |e']] eqn:E.
      * destruct (run_salts hf key rest i') as [zs r] eqn:R.
        inversion 1; subst. eapply IH; eauto.
      * discriminate.
      * inversion 1; subst. right. eapply emit_raises; eauto.
    + inversion 1; subst. left. eapply unpack_uints_raises; eauto.
Qed.

Lemma add_loop_raises skip_check bps ks stop off found bits e :
  fst (BloomFilter.add_loop skip_check bps ks stop off found bits) = Raise e ->
  e = bitarray.index_error \/ e = bitarray.assignment_index_error \/
  stop = Some e.
Proof.
  revert off found bits. induction ks as [|k ks IH]; intros off found bits;
    cbn [BloomFilter.add_loop].
  - destruct stop; cbn [fst]; [|discriminate]. inversion 1. now right; right.
  - destruct (negb skip_check && found).
    + destruct (bitarray.getitem bits (off + k)) as [b|e'] eqn:G; cbn [bind].
      * destruct (bitarray.setitem bits (off + k) true) as [bits'|e'] eqn:S.
        -- apply IH.
        -- cbn [fst]. inversion 1; subst. right. left.
           eapply setitem_raises; eauto.
      * cbn [fst]. inversion 1; subst. left. eapply getitem_raises; eauto.
    + destruct (bitarray.setitem bits (off + k) true) as [bits'|e'] eqn:S.
      * apply IH.
      * cbn [fst]. inversion 1; subst. right. left.
        eapply setitem_raises; eauto.
Qed.

End Loops.

(** ** [BloomFilter.add] *)

Section BloomFilterFacts.

Context {hashlib : Hashlib}.

Import BloomFilter.

Lemma set_bitarray_same self : set_bitarray (bitarray self) self = self.
Proof. now destruct self. Qed.

(** In a well-formed filter every key hashes to one bit per slice, all of
    them inside the bit vector. *)
Lemma well_formed_hashes self key :
  well_formed self ->
  exists ks,
    hashes (make_hashes self) key = (ks, None) /\
    len ks = num_slices self /\
    Forall (fun p => 0 <= p < bits_per_slice self) ks /\
    Forall (fun i => 0 <= i < len (bitarray self))
           (absolute (bits_per_slice self) ks 0).
Proof.
  intros [Hns Hbps Hmh Hlen].
  destruct (hashes_spec _ _ _ key Hns Hbps Hmh) as [ks [E [L F]]].
  exists ks. repeat split; try assumption.
  eapply Forall_impl; [|apply (absolute_bounds _ ks 0 Hbps F)].
  cbv beta. intros i Hi. rewrite L in Hi. lia.
Qed.

Lemma contains_spec self key :
  well_formed self -> __contains__ self key = Ok (all_bits_set self key).
Proof.
  intros Hwf. destruct (well_formed_hashes self key Hwf) as [ks [E [L [F B]]]].
  unfold __contains__, all_bits_set, bit_indices. rewrite E. cbn [fst].
  now apply contains_loop_spec.
Qed.

Lemma add_spec self key skip_check :
  well_formed self -> count self <= capacity self ->
  add self key skip_check =
  if negb skip_check && all_bits_set self key then (Ok true, self)
  else (Ok false,
        set_count (count self + 1)
          (set_bitarray (set_bits (bitarray self) (bit_indices self key)) self)).
Proof.
  intros Hwf Hc. destruct (well_formed_hashes self key Hwf) as [ks [E [L [F B]]]].
  unfold add, all_bits_set, bit_indices.
  destruct (Z.gtb_spec (count self) (capacity self)); [lia|].
  rewrite E. cbn [fst].
  rewrite add_loop_spec;
    [| apply Hwf | exact F | lia | rewrite L; destruct Hwf; lia].
  destruct skip_check; cbn [negb andb]; [reflexivity|].
  destruct (forallb _ _) eqn:P; cbn [negb]; [|reflexivity].
  rewrite set_bits_present by exact P. now rewrite set_bitarray_same.
Qed.

Lemma add_well_formed self key skip_check :
  well_formed self -> count self <= capacity self ->
  well_formed (snd (add self key skip_check)).
Proof.
  intros Hwf Hc. rewrite add_spec by assumption.
  destruct (negb skip_check && all_bits_set self key); cbn [snd]; [assumption|].
  destruct Hwf as [H1 H2 H3 H4].
  constructor; cbn [num_slices bits_per_slice make_hashes bitarray set_count set_bitarray];
    try assumption.
  now rewrite set_bits_length.
Qed.

Lemma add_never_at_capacity self key skip_check :
  count self <= capacity self ->
  fst (add self key skip_check) <> Raise at_capacity.
Proof.
  intros Hc. unfold add.
  destruct (Z.gtb_spec (count self) (capacity self)); [lia|].
  destruct (hashes (make_hashes self) key) as [ks stop] eqn:E.
  destruct (add_loop skip_check (bits_per_slice self) ks stop 0 true (bitarray self))
    as [[found|e] bits] eqn:A.
  - destruct skip_check; [discriminate|]. destruct (negb found); discriminate.
  - cbn [fst]. intros He. inversion He; subst e.
    pose proof (add_loop_raises skip_check (bits_per_slice self) ks stop 0 true
                                (bitarray self) at_capacity) as R.
    rewrite A in R. destruct (R eq_refl) as [R'|[R'|R']]; try discriminate.
    subst stop. unfold hashes in E.
    destruct (run_salts_raises _ _ _ _ _ _ E); discriminate.
Qed.

End BloomFilterFacts.

Section BloomFilterClaims.

Context {hashlib : Hashlib}.

Import BloomFilter.

(** C1. [add] without [skip_check] returns [True] exactly when all
    [num_slices] bits the key hashes to were set before the call, and then
    leaves the filter as it was; otherwise it sets these bits and no other,
    adds one to [count] and returns [False].  With [skip_check] it always
    sets the bits, adds one to [count] and returns [False].  The filter is
    well formed and not above its capacity, so that the call returns. *)
Theorem add_reports_presence (self : t) (key : list byte) :
  well_formed self -> count self <= capacity self ->
  let indices := bit_indices self key in
  let present := forallb (testbit (bitarray self)) indices in
  len indices = num_slices self /\
  add self key false = (if present then (Ok true, self)
                        else (Ok false, inserted self key)) /\
  add self key true = (Ok false, inserted self key) /\
  count (inserted self key) = count self + 1 /\
  len (bitarray (inserted self key)) = len (bitarray self) /\
  forall j, 0 <= j ->
    testbit (bitarray (inserted self key)) j
    = existsb (Z.eqb j) indices || testbit (bitarray self) j.
Proof.
  intros Hwf Hc indices present.
  destruct (well_formed_hashes self key Hwf) as [ks [E [L [F B]]]].
  assert (Hidx : indices = absolute (bits_per_slice self) ks 0).
  { unfold indices, bit_indices. now rewrite E. }
  split.
  { rewrite Hidx, absolute_length. exact L. }
  split.
  { rewrite add_spec by assumption. reflexivity. }
  split.
  { rewrite add_spec by assumption. reflexivity. }
  split; [reflexivity|].
  split.
  { unfold inserted. cbn [bitarray set_count set_bitarray]. apply set_bits_length. }
  intros j Hj. unfold inserted. cbn [bitarray set_count set_bitarray].
  apply testbit_set_bits; [|exact Hj]. fold indices. rewrite Hidx. exact B.
Qed.

(** C4. [add] raises the capacity error exactly when [count > capacity],
    and then leaves the filter untouched; a well-formed filter that holds
    exactly [capacity] keys takes one more, and every call after that
    raises. *)
Theorem add_capacity_check (self : t) (key : list byte) (skip_check : bool) :
  (fst (add self key skip_check) = Raise at_capacity
   <-> count self > capacity self) /\
  (count self > capacity self ->
   add self key skip_check = (Raise at_capacity, self)) /\
  (well_formed self -> count self = capacity self ->
   add self key true = (Ok false, inserted self key) /\
   count (inserted self key) = capacity self + 1 /\
   forall key' skip_check',
     add (inserted self key) key' skip_check'
     = (Raise at_capacity, inserted self key)).
Proof.
  assert (Hraise : forall s k sc, count s > capacity s ->
                                  add s k sc = (Raise at_capacity, s)).
  { intros s k sc H. unfold add.
    destruct (Z.gtb_spec (count s) (capacity s)); [reflexivity|lia]. }
  split; [split|split].
  - intros H. destruct (Z_gt_le_dec (count self) (capacity self)) as [|Hle];
      [assumption|].
    now apply add_never_at_capacity in H.
  - intros H. now rewrite Hraise.
  - apply Hraise.
  - intros Hwf Hc. split; [|split].
    + rewrite add_spec by (assumption || lia). reflexivity.
    + unfold inserted. cbn [count set_count]. lia.
    + intros key' sc'. apply Hraise. unfold inserted.
      cbn [count capacity set_count set_bitarray]. lia.
Qed.

(** C5. For positive [num_slices] and [num_bits], the generator that
    [make_hashfuncs] returns yields for every key exactly [num_slices]
    positions, each in [[0, num_bits)]; the absolute indices
    [offset + position] then lie below [num_slices * num_bits], and neither
    [__contains__] nor [add] indexes the bit vector out of bounds.
    [make_hashfuncs] returns for up to [2 ^ 32] slices, the range of the
    salt index format. *)
Theorem hash_positions_in_bounds (num_slices num_bits : Z) :
  0 < num_slices -> 0 < num_bits ->
  (num_slices <= 2 ^ 32 ->
   exists hf, make_hashfuncs num_slices num_bits = Ok hf) /\
  forall hf, make_hashfuncs num_slices num_bits = Ok hf ->
  forall key, exists ks,
    hashes hf key = (ks, None) /\
    len ks = num_slices /\
    Forall (fun p => 0 <= p < num_bits) ks /\
    Forall (fun i => 0 <= i < num_slices * num_bits) (absolute num_bits ks 0) /\
    forall self,
      make_hashes self = hf -> bits_per_slice self = num_bits ->
      num_slices * num_bits <= len (bitarray self) ->
      (exists b, __contains__ self key = Ok b) /\
      forall skip_check e,
        fst (add self key skip_check) = Raise e -> e = at_capacity.
Proof.
  intros Hns Hnb. split.
  { intros Hle. apply make_hashfuncs_total. lia. }
  intros hf Hhf key.
  destruct (hashes_spec _ _ _ key Hns Hnb Hhf) as [ks [E [L F]]].
  pose proof (absolute_bounds _ ks 0 Hnb F) as B. rewrite L in B.
  assert (B' : Forall (fun i => 0 <= i < num_slices * num_bits)
                      (absolute num_bits ks 0)).
  { eapply Forall_impl; [|exact B]. cbv beta. intros; lia. }
  exists ks. split; [exact E|]. split; [exact L|]. split; [exact F|].
  split; [exact B'|].
  intros self Hmh Hbps Hlen.
  assert (B'' : Forall (fun i => 0 <= i < len (bitarray self))
                       (absolute num_bits ks 0)).
  { eapply Forall_impl; [|exact B']. cbv beta. intros; lia. }
  split.
  - unfold __contains__. rewrite Hmh, Hbps, E. rewrite contains_loop_spec by exact B''.
    now eexists.
  - intros skip_check e. unfold add.
    destruct (count self >? capacity self); cbn [fst]; [now inversion 1|].
    rewrite Hmh, Hbps, E. rewrite add_loop_spec; try assumption; try lia.
    destruct skip_check; [discriminate|].
    destruct (negb _); discriminate.
Qed.

End BloomFilterClaims.

(** The scenario of the documentation on [BloomFilter(1, 0.1)]: the first
    [add] of a key returns [False]. *)
Lemma add_reports_presence_witness :
  well_formed (hashlib := Demo.hashlib) Demo.filter8 /\
  BloomFilter.count Demo.filter8 <= BloomFilter.capacity Demo.filter8 /\
  BloomFilter.add (hashlib := Demo.hashlib) Demo.filter8 Demo.hello false
  = (Ok false, inserted (hashlib := Demo.hashlib) Demo.filter8 Demo.hello) /\
  BloomFilter.add (hashlib := Demo.hashlib) Demo.filter8 Demo.hello true
  = (Ok false, inserted (hashlib := Demo.hashlib) Demo.filter8 Demo.hello).
Proof.
  assert (Hwf : well_formed (hashlib := Demo.hashlib) Demo.filter8)
    by well_formed_by_evaluation.
  assert (Hc : BloomFilter.count Demo.filter8 <= BloomFilter.capacity Demo.filter8)
    by by_evaluation.
  split; [exact Hwf|]. split; [exact Hc|].
  destruct (@add_reports_presence Demo.hashlib Demo.filter8 Demo.hello Hwf Hc)
    as [_ [Hadd [Hskip _]]].
  split; [|exact Hskip].
  rewrite Hadd. by_evaluation.
Defined.

(** Four slices of two bits: four positions, each zero or one. *)
Lemma hash_positions_in_bounds_witness :
  0 < 4 /\ 0 < 2 /\
  exists ks,
    hashes (hashlib := Demo.hashlib) (BloomFilter.make_hashes Demo.filter8)
           Demo.hello = (ks, None) /\
    len ks = 4 /\ Forall (fun p => 0 <= p < 2) ks.
Proof.
  assert (H4 : 0 < 4) by lia. assert (H2 : 0 < 2) by lia.
  split; [exact H4|]. split; [exact H2|].
  destruct (@hash_positions_in_bounds Demo.hashlib 4 2 H4 H2) as [_ H].
  destruct (H (BloomFilter.make_hashes Demo.filter8) ltac:(by_evaluation) Demo.hello)
    as [ks [E [L [F _]]]].
  exists ks. auto.
Defined.

(** ** Floats *)

Lemma Prim2SF_zero : Prim2SF 0%float = S754_zero false.
Proof. reflexivity. Qed.

(** A float above zero is neither zero nor below zero. *)
Lemma float_positive e :
  (0 <? e)%float = true -> (e =? 0)%float = false /\ (e <? 0)%float = false.
Proof.
  rewrite !ltb_spec, eqb_spec, Prim2SF_zero.
  destruct (Prim2SF e) as [s|s| |s m ex]; try destruct s; cbn; auto; discriminate.
Qed.

(** A float above zero is a number: it equals itself. *)
Lemma float_positive_eqb e : (0 <? e)%float = true -> (e =? e)%float = true.
Proof.
  rewrite ltb_spec, eqb_spec, Prim2SF_zero.
  destruct (Prim2SF e) as [s|s| |s m ex]; try destruct s; cbn; try discriminate; auto;
    intros _; unfold SFeqb, SFcompare; now rewrite Z.compare_refl, Pos.compare_refl.
Qed.

Lemma digits2_pos_size m : digits2_pos m = Pos.size m.
Proof. induction m; simpl; congruence. Qed.

Lemma pos_size_bounds m :
  2 ^ (Zpos (Pos.size m) - 1) <= Zpos m < 2 ^ Zpos (Pos.size m).
Proof.
  induction m as [m IH|m IH|]; cbn [Pos.size].
  - rewrite Pos2Z.inj_succ.
    replace (Z.succ (Zpos (Pos.size m)) - 1) with (1 + (Zpos (Pos.size m) - 1)) by lia.
    rewrite (Z.pow_succ_r _ (Zpos (Pos.size m))) by lia.
    rewrite Z.pow_add_r by lia. change (2 ^ 1) with 2. lia.
  - rewrite Pos2Z.inj_succ.
    replace (Z.succ (Zpos (Pos.size m)) - 1) with (1 + (Zpos (Pos.size m) - 1)) by lia.
    rewrite (Z.pow_succ_r _ (Zpos (Pos.size m))) by lia.
    rewrite Z.pow_add_r by lia. change (2 ^ 1) with 2. lia.
  - simpl. lia.
Qed.

(** A valid finite binary64 value is normal, with a 53-bit significand, or
    subnormal, with the least exponent. *)
Lemma bounded_cases m e :
  bounded prec emax m e = true ->
  (2 ^ 52 <= Zpos m < 2 ^ 53 /\ -1074 <= e <= 971) \/
  (Zpos m < 2 ^ 52 /\ e = -1074).
Proof.
  unfold bounded, canonical_mantissa, fexp, SpecFloat.emin, prec, emax.
  rewrite digits2_pos_size. intros H. apply andb_true_iff in H.
  destruct H as [Hc He]. apply Z.eqb_eq in Hc. apply Z.leb_le in He.
  pose proof (pos_size_bounds m) as Hs.
  destruct (Z.max_spec (Zpos (Pos.size m) + e - 53) (3 - 1024 - 53)) as [[Hlt Hmax]|[Hge Hmax]];
    rewrite Hmax in Hc.
  - right. split; [|lia].
    assert (Zpos (Pos.size m) <= 52) by lia.
    eapply Z.lt_le_trans; [apply Hs|]. apply Z.pow_le_mono_r; lia.
  - left. assert (Hsz : Zpos (Pos.size m) = 53) by lia.
    rewrite Hsz in Hs. change (53 - 1) with 52 in Hs. lia.
Qed.

Lemma iter_pos_invariant {A} (P : A -> Prop) (f : A -> A) :
  (forall x, P x -> P (f x)) -> forall n x, P x -> P (iter_pos f n x).
Proof.
  intros Hf. induction n as [n IH|n IH|]; intros x Hx; cbn [iter_pos]; auto.
Qed.

Lemma shr_1_nonneg mrs : 0 <= shr_m mrs -> 0 <= shr_m (shr_1 mrs).
Proof.
  destruct mrs as [m r s]. cbn [shr_m]. intros H.
  destruct m as [|p|p]; [| |lia]; cbn [shr_1 shr_m]; [lia|].
  destruct p; cbn [shr_m]; lia.
Qed.

Lemma shr_fexp_nonneg m e l :
  0 <= m -> 0 <= shr_m (fst (shr_fexp prec emax m e l)).
Proof.
  intros H. unfold shr_fexp, shr.
  assert (H0 : 0 <= shr_m (shr_record_of_loc m l)).
  { destruct l as [|[ | | ]]; exact H. }
  destruct (_ - e); cbn [fst]; try exact H0.
  apply iter_pos_invariant; [apply shr_1_nonneg | exact H0].
Qed.

Lemma round_nearest_even_nonneg m l : 0 <= m -> 0 <= round_nearest_even m l.
Proof.
  intros H. unfold round_nearest_even.
  destruct l as [|[ | | ]]; try lia. destruct (Z.even m); lia.
Qed.

(** Rounding a magnitude under a minus sign gives a nonpositive float. *)
Lemma binary_round_aux_negative m e l :
  0 <= m -> nonpositive (binary_round_aux prec emax true m e l).
Proof.
  intros H. unfold binary_round_aux.
  pose proof (shr_fexp_nonneg m e l H) as H1.
  destruct (shr_fexp prec emax m e l) as [mrs' e'].
  cbn [fst] in H1.
  pose proof (shr_fexp_nonneg _ e' loc_Exact
                (round_nearest_even_nonneg _ (loc_of_shr_record mrs') H1)) as H2.
  destruct (shr_fexp prec emax _ e' loc_Exact) as [mrs'' e''].
  cbn [fst] in H2.
  destruct (shr_m mrs'') as [|p|p]; [exact I | | lia].
  destruct (e'' <=? emax - prec); reflexivity.
Qed.

Lemma binary_normalize_nonpositive m e :
  m <= 0 -> nonpositive (binary_normalize prec emax m e false).
Proof.
  intros H. destruct m as [|p|p]; [exact I | lia |].
  cbn [binary_normalize]. unfold binary_round.
  destruct (shl_align p e _) as [mz ez]. apply binary_round_aux_negative. lia.
Qed.

Lemma shl_align_grows m e e' : Zpos m <= Zpos (fst (shl_align m e e')).
Proof.
  unfold shl_align. destruct (e' - e) as [|d|d]; cbn [fst]; try lia.
  apply Pos.iter_invariant with (Inv := fun p => Zpos m <= Zpos p); [|lia].
  intros p Hp. lia.
Qed.

Lemma Prim2SF_one : Prim2SF 1%float = S754_finite false 4503599627370496 (-52).
Proof. reflexivity. Qed.

(** [1 - e] is nonpositive when [1 <= e]. *)
Lemma one_minus_nonpositive e :
  (1 <=? e)%float = true -> nonpositive (Prim2SF (1 - e)%float).
Proof.
  rewrite leb_spec, sub_spec, Prim2SF_one. pose proof (Prim2SF_valid e) as Hv.
  destruct (Prim2SF e) as [s|s| |s m ex]; try destruct s; try discriminate.
  - intros _. reflexivity.
  - unfold SFleb, SFcompare. intros Hle.
    cbn [valid_binary] in Hv. apply bounded_cases in Hv.
    unfold SF64sub, SFsub. cbv zeta. apply binary_normalize_nonpositive.
    cbn [cond_Zopp].
    destruct (Z.compare_spec (-52) ex) as [Heq|Hlt|Hgt]; [| |discriminate].
    + subst ex. rewrite Z.min_id. unfold shl_align.
      change (-52 - -52) with 0. cbn [fst].
      rewrite Pos.compare_cont_spec in Hle. cbn [Pos.switch_Eq] in Hle.
      destruct (Pos.compare_spec 4503599627370496 m); try discriminate; lia.
    + rewrite Z.min_l by lia.
      pose proof (shl_align_grows m ex (-52)) as Hg.
      assert (H1 : fst (shl_align 4503599627370496 (-52) (-52)) = 4503599627370496%positive)
        by reflexivity.
      rewrite H1. destruct Hv as [[Hm _]|[_ He]]; [|lia].
      change (2 ^ 52) with 4503599627370496 in Hm. lia.
Qed.

(** A float of one or more is neither zero nor below zero. *)
Lemma float_at_least_one e :
  (1 <=? e)%float = true -> (e =? 0)%float = false /\ (e <? 0)%float = false.
Proof.
  rewrite leb_spec, eqb_spec, ltb_spec, Prim2SF_one, Prim2SF_zero.
  destruct (Prim2SF e) as [s|s| |s m ex]; try destruct s; cbn; auto; discriminate.
Qed.

Section LogDomain.

Context {libm : Libm}.

(** [math.log] raises on every nonpositive float. *)
Lemma math_log_nonpositive x :
  nonpositive (Prim2SF x) -> math_log x = Raise math_domain_error.
Proof.
  intros H. unfold math_log, math_1, m_log, is_finite, is_infinity, is_nan.
  rewrite !eqb_spec, ltb_spec, abs_spec.
  destruct (Prim2SF x) as [s|s| |s m e] eqn:E; cbn [nonpositive] in H.
  - destruct s; reflexivity.
  - subst s. reflexivity.
  - contradiction.
  - subst s. unfold SFeqb, SFltb, SFcompare, SFabs.
    rewrite Z.compare_refl, Pos.compare_cont_refl. reflexivity.
Qed.

End LogDomain.

(** ** What a constructor returns *)

Section Constructors.

Context {hashlib : Hashlib} {libm : Libm}.

(** What a filter is when the constructor returns it. *)
Lemma BloomFilter_init_inv capacity error_rate self :
  BloomFilter.__init__ capacity error_rate = Ok self ->
  (0 <? error_rate)%float = true /\ (error_rate <? 1)%float = true /\
  0 < capacity /\
  BloomFilter.error_rate self = error_rate /\
  BloomFilter.capacity self = capacity /\
  BloomFilter.count self = 0 /\
  BloomFilter.num_bits self
  = BloomFilter.num_slices self * BloomFilter.bits_per_slice self /\
  make_hashfuncs (BloomFilter.num_slices self) (BloomFilter.bits_per_slice self)
  = Ok (BloomFilter.make_hashes self) /\
  BloomFilter.bitarray self
  = repeat false (Z.to_nat (BloomFilter.num_bits self)) /\
  len (BloomFilter.bitarray self) = BloomFilter.num_bits self.
Proof.
  unfold BloomFilter.__init__.
  destruct (0 <? error_rate)%float; [|discriminate].
  destruct (error_rate <? 1)%float; [|discriminate]. cbn [andb negb].
  destruct (Z.gtb_spec capacity 0); [|discriminate]. cbn [negb].
  destruct (BloomFilter.solve_num_slices error_rate) as [ns|]; [|discriminate].
  cbn [bind].
  destruct (BloomFilter.solve_bits_per_slice capacity error_rate ns) as [bps|];
    [|discriminate].
  cbn [bind]. unfold BloomFilter._setup.
  destruct (make_hashfuncs ns bps) as [hf|] eqn:Hhf; [|discriminate].
  cbn [bind BloomFilter.num_bits].
  destruct (_ || _); [discriminate|].
  destruct (Z.ltb_spec (ns * bps) 0); [discriminate|].
  inversion 1; subst self; clear H1.
  cbn. repeat split; try lia; try assumption.
  unfold len. rewrite repeat_length. lia.
Qed.

End Constructors.

(** ** [ScalableBloomFilter.add] *)

Section Growing.

Context {hashlib : Hashlib} {libm : Libm}.

Lemma any_contains_spec fs key :
  Forall well_formed fs ->
  any_contains fs key = Ok (existsb (fun f => all_bits_set f key) fs).
Proof.
  induction 1 as [|f fs Hf _ IH]; cbn [any_contains existsb]; [reflexivity|].
  rewrite contains_spec by assumption. cbn [bind].
  destruct (all_bits_set f key); [reflexivity|exact IH].
Qed.

Lemma add_to_last_spec front filter key :
  well_formed filter ->
  BloomFilter.count filter <= BloomFilter.capacity filter ->
  add_to_last front filter key = (Ok false, front ++ [inserted filter key]).
Proof.
  intros Hwf Hc. unfold add_to_last.
  rewrite add_spec by assumption. reflexivity.
Qed.

Import ScalableBloomFilter.

(** C8. On [ScalableBloomFilter.add]: membership scans the filters from
    the most recent one; a key that tests as a member makes the call
    return [True] with nothing changed.  Otherwise an empty list gets its
    first filter, of capacity [initial_capacity] and error rate
    [error_rate * (1 - 0.9)]; a full last filter gets a successor of
    capacity [capacity * scale] and error rate [error_rate * 0.9]; the key
    goes into the filter that is last after that, by skip-check insertion,
    and the call returns [False]. *)
Theorem scalable_add_transitions (self : t) (key : list byte) :
  Forall well_formed (filters self) ->
  ratio self = default_ratio ->
  let member :=
    existsb (fun f => all_bits_set f key) (rev (filters self)) in
  __contains__ self key = Ok member /\
  (member = true -> add self key = (Ok true, self)) /\
  (member = false ->
   (filters self = [] ->
    forall filter,
      BloomFilter.__init__ (initial_capacity self)
        (error_rate self * (1 - default_ratio))%float = Ok filter ->
      well_formed filter ->
      add self key = (Ok false, set_filters [inserted filter key] self)) /\
   (forall front last,
      filters self = front ++ [last] ->
      BloomFilter.count last >= BloomFilter.capacity last ->
      forall filter,
        BloomFilter.__init__ (BloomFilter.capacity last * scale self)
          (BloomFilter.error_rate last * default_ratio)%float = Ok filter ->
        well_formed filter ->
        add self key
        = (Ok false,
           set_filters (front ++ [last; inserted filter key]) self)) /\
   (forall front last,
      filters self = front ++ [last] ->
      BloomFilter.count last < BloomFilter.capacity last ->
      add self key
      = (Ok false, set_filters (front ++ [inserted last key]) self))).
Proof.
  intros Hwf Hratio member.
  assert (Hc : __contains__ self key = Ok member).
  { unfold __contains__. apply any_contains_spec. now apply Forall_rev. }
  split; [exact Hc|]. split.
  { intros Hm. unfold add. now rewrite Hc, Hm. }
  intros Hm. unfold add. rewrite Hc, Hm, Hratio.
  split; [|split].
  - intros Hnil filter Hinit Hf. rewrite Hnil. cbn [rev].
    rewrite Hinit. rewrite add_to_last_spec; [reflexivity | exact Hf |].
    destruct (BloomFilter_init_inv _ _ _ Hinit) as (_ & _ & ? & _ & -> & -> & _).
    lia.
  - intros front last Hfs Hfull filter Hinit Hf.
    rewrite Hfs, rev_app_distr. cbn [rev app].
    destruct (Z.geb_spec (BloomFilter.count last) (BloomFilter.capacity last));
      [|lia].
    rewrite Hinit. rewrite add_to_last_spec; [| exact Hf |].
    + now rewrite <- app_assoc.
    + destruct (BloomFilter_init_inv _ _ _ Hinit) as (_ & _ & ? & _ & -> & -> & _).
      lia.
  - intros front last Hfs Hroom.
    rewrite Hfs, rev_app_distr. cbn [rev app].
    destruct (Z.geb_spec (BloomFilter.count last) (BloomFilter.capacity last));
      [lia|].
    rewrite add_to_last_spec; [now rewrite rev_involutive | | lia].
    rewrite Hfs in Hwf. apply Forall_app in Hwf. destruct Hwf as [_ Hl].
    now inversion Hl.
Qed.

End Growing.

(** The first [add] of [ScalableBloomFilter(2, 0.5)] creates
    [BloomFilter(2, 0.5 * (1 - 0.9))] and inserts the key there. *)
Lemma scalable_add_transitions_witness :
  Forall (well_formed (hashlib := Demo.hashlib))
         (ScalableBloomFilter.filters Demo.scalable) /\
  ScalableBloomFilter.ratio Demo.scalable = ScalableBloomFilter.default_ratio /\
  ScalableBloomFilter.add (hashlib := Demo.hashlib) (libm := Demo.libm)
                          Demo.scalable Demo.hello
  = (Ok false,
     ScalableBloomFilter.set_filters
       [inserted (hashlib := Demo.hashlib) Demo.first_filter Demo.hello]
       Demo.scalable).
Proof.
  assert (Hwf : Forall (well_formed (hashlib := Demo.hashlib))
                       (ScalableBloomFilter.filters Demo.scalable))
    by constructor.
  split; [exact Hwf|]. split; [reflexivity|].
  destruct (@scalable_add_transitions Demo.hashlib Demo.libm Demo.scalable
                                      Demo.hello Hwf eq_refl) as [_ [_ T]].
  destruct (T eq_refl) as [T1 _].
  apply (T1 eq_refl Demo.first_filter).
  - by_evaluation.
  - well_formed_by_evaluation.
Defined.

(** ** The exceptions of the constructors *)

Lemma float_truediv_raises x y e :
  float_truediv x y = Raise e -> arithmetic_error e.
Proof.
  unfold float_truediv, arithmetic_error.
  destruct (y =? 0)%float; inversion 1; auto.
Qed.

Lemma float_of_int_raises z e :
  float_of_int z = Raise e -> arithmetic_error e.
Proof.
  unfold float_of_int, arithmetic_error.
  destruct (binary_normalize _ _ _ _ _); inversion 1; auto.
Qed.

Lemma math_ceil_raises x e : math_ceil x = Raise e -> arithmetic_error e.
Proof.
  unfold math_ceil, arithmetic_error. destruct (Prim2SF x); inversion 1; auto.
Qed.

Lemma int_of_float_raises x e : int_of_float x = Raise e -> arithmetic_error e.
Proof.
  unfold int_of_float, arithmetic_error. destruct (Prim2SF x); inversion 1; auto.
Qed.

Lemma int_truediv_raises a b e : int_truediv a b = Raise e -> arithmetic_error e.
Proof.
  unfold int_truediv, arithmetic_error.
  destruct (b =? 0); [inversion 1; auto|].
  destruct (a =? 0); [discriminate|].
  destruct (SFdiv_core_binary _ _ _ _ _ _) as [[q ex] l].
  destruct (binary_round_aux _ _ _ _ _ _); inversion 1; auto.
Qed.

Section MathErrors.

Context {libm : Libm}.

Lemma math_1_raises func can_overflow x e :
  math_1 func can_overflow x = Raise e -> arithmetic_error e.
Proof.
  unfold math_1, arithmetic_error.
  destruct (_ && _); [inversion 1; auto|].
  destruct (_ && _); [|discriminate].
  destruct can_overflow; inversion 1; auto.
Qed.

Lemma float_sqr_raises x e : float_sqr x = Raise e -> arithmetic_error e.
Proof.
  unfold float_sqr, arithmetic_error.
  repeat match goal with
         | |- context [if ?b then _ else _] => destruct b
         end; inversion 1; auto.
Qed.

End MathErrors.

Create HintDb py_errors.

#[local] Hint Resolve float_truediv_raises float_of_int_raises math_ceil_raises
  int_of_float_raises int_truediv_raises math_1_raises float_sqr_raises
  : py_errors.

(** Splits [bind c k = Raise e] into the failure of [c] or of [k]. *)
Lemma bind_raises {A B} (c : result A) (k : A -> result B) e :
  bind c k = Raise e ->
  c = Raise e \/ exists a, c = Ok a /\ k a = Raise e.
Proof.
  destruct c as [a|e']; cbn [bind]; intros H; [right; eauto|].
  left. now inversion H.
Qed.

Lemma mapM_raises {A B} (f : A -> result B) l e :
  mapM f l = Raise e -> exists a, In a l /\ f a = Raise e.
Proof.
  induction l as [|a l IH]; cbn [mapM]; intros H; [discriminate|].
  apply bind_raises in H. destruct H as [H|[b [Hb H]]].
  - exists a. split; [now left | exact H].
  - apply bind_raises in H. destruct H as [H|[bs [_ H]]]; [|discriminate].
    destruct (IH H) as [a' [Hin Ha']]. exists a'. split; [now right | exact Ha'].
Qed.

Ltac split_bind H :=
  let a := fresh "a" in
  let Ha := fresh "Ha" in
  apply bind_raises in H; destruct H as [H|[a [Ha H]]].

Section ConstructorClaims.

Context {hashlib : Hashlib} {libm : Libm}.

Lemma solve_num_slices_raises error_rate e :
  BloomFilter.solve_num_slices error_rate = Raise e -> arithmetic_error e.
Proof.
  unfold BloomFilter.solve_num_slices, math_log_base_2, math_log. intros H.
  split_bind H; [eauto with py_errors|].
  split_bind H; [|eauto with py_errors].
  split_bind H; eauto with py_errors.
Qed.

Lemma solve_bits_per_slice_raises capacity error_rate ns e :
  BloomFilter.solve_bits_per_slice capacity error_rate ns = Raise e ->
  arithmetic_error e.
Proof.
  unfold BloomFilter.solve_bits_per_slice, math_log. intros H.
  repeat (split_bind H; [eauto with py_errors|]). eauto with py_errors.
Qed.

Lemma make_hashfuncs_raises ns nb e :
  make_hashfuncs ns nb = Raise e -> e = StructError.
Proof.
  unfold make_hashfuncs. cbv zeta. intros H.
  split_bind H; [|discriminate].
  apply mapM_raises in H. destruct H as [i [_ H]].
  unfold pack_uint in H. destruct (_ && _); cbn [bind] in H; now inversion H.
Qed.

(** The arithmetic of a constructor never raises one of its two
    validation errors. *)
Lemma BloomFilter_init_raises capacity error_rate e :
  BloomFilter.__init__ capacity error_rate = Raise e ->
  ((0 <? error_rate)%float && (error_rate <? 1)%float = false /\
   e = BloomFilter.error_rate_error) \/
  ((0 <? error_rate)%float && (error_rate <? 1)%float = true /\
   capacity <= 0 /\ e = BloomFilter.capacity_error) \/
  ((0 <? error_rate)%float && (error_rate <? 1)%float = true /\
   0 < capacity /\
   (arithmetic_error e \/ e = StructError \/ e = BloomFilter.negative_length)).
Proof.
  unfold BloomFilter.__init__.
  destruct ((0 <? error_rate)%float && (error_rate <? 1)%float); cbn [negb].
  2:{ inversion 1. left. auto. }
  destruct (Z.gtb_spec capacity 0) as [Hc|Hc]; cbn [negb].
  2:{ inversion 1. right. left. auto. }
  intros H. right. right. split; [reflexivity|]. split; [assumption|].
  split_bind H; [left; eapply solve_num_slices_raises; eauto|].
  split_bind H; [left; eapply solve_bits_per_slice_raises; eauto|].
  split_bind H.
  - unfold BloomFilter._setup in H. split_bind H; [|discriminate].
    right. left. eapply make_hashfuncs_raises; eauto.
  - destruct (_ || _); [inversion H; left; unfold arithmetic_error; auto|].
    destruct (_ <? 0); inversion H. auto.
Qed.

(** The bit vector of the constructor: a length that is no [Py_ssize_t]
    raises [OverflowError], whatever the two sizes are. *)
Lemma BloomFilter_init_overflow capacity error_rate ns bps hf :
  (0 <? error_rate)%float && (error_rate <? 1)%float = true ->
  0 < capacity ->
  BloomFilter.solve_num_slices error_rate = Ok ns ->
  BloomFilter.solve_bits_per_slice capacity error_rate ns = Ok bps ->
  make_hashfuncs ns bps = Ok hf ->
  bitarray.maxsize < ns * bps ->
  BloomFilter.__init__ capacity error_rate = Raise OverflowError.
Proof.
  intros Hv Hc Hns Hbps Hhf Hbig. unfold BloomFilter.__init__.
  rewrite Hv. cbn [negb].
  destruct (Z.gtb_spec capacity 0); [|lia]. cbn [negb].
  rewrite Hns. cbn [bind]. rewrite Hbps. cbn [bind].
  unfold BloomFilter._setup. rewrite Hhf. cbn [bind BloomFilter.num_bits].
  destruct (Z.gtb_spec (ns * bps) bitarray.maxsize); [|lia].
  now rewrite orb_true_r.
Qed.

(** C9, as the code has it.  [BloomFilter] rejects an error rate outside
    [(0, 1)] and then a capacity that is not positive.  A rate and a
    capacity that pass are never rejected as a parameter, but the
    constructor need not return: it returns the fresh filter exactly when
    the two sizes derive, the hash functions are made for them and the
    number of bits is a length between zero and [sys.maxsize]; with sizes
    that derive, a number of slices between 1 and [2 ** 32] and more bits
    than [sys.maxsize], it raises [OverflowError].  [ScalableBloomFilter]
    and [DynamicBloomFilter] reject only an error rate that is zero or
    negative: they look at no capacity, the scalable one accepts every
    positive rate, and a rate of one or more passes the test of the
    dynamic one and stops it inside [math.log]. *)
Theorem constructor_validation :
  (forall capacity error_rate,
     let valid_rate := (0 <? error_rate)%float && (error_rate <? 1)%float in
     (valid_rate = false ->
      BloomFilter.__init__ capacity error_rate
      = Raise BloomFilter.error_rate_error) /\
     (valid_rate = true -> capacity <= 0 ->
      BloomFilter.__init__ capacity error_rate
      = Raise BloomFilter.capacity_error) /\
     (valid_rate = true -> 0 < capacity ->
      BloomFilter.__init__ capacity error_rate
      <> Raise BloomFilter.error_rate_error /\
      BloomFilter.__init__ capacity error_rate
      <> Raise BloomFilter.capacity_error /\
      (forall self,
         BloomFilter.__init__ capacity error_rate = Ok self <->
         exists num_slices bits_per_slice hf,
           BloomFilter.solve_num_slices error_rate = Ok num_slices /\
           BloomFilter.solve_bits_per_slice capacity error_rate num_slices
           = Ok bits_per_slice /\
           make_hashfuncs num_slices bits_per_slice = Ok hf /\
           0 <= num_slices * bits_per_slice <= bitarray.maxsize /\
           self
           = {| BloomFilter.error_rate := error_rate;
                BloomFilter.num_slices := num_slices;
                BloomFilter.bits_per_slice := bits_per_slice;
                BloomFilter.capacity := capacity;
                BloomFilter.count := 0;
                BloomFilter.num_bits := num_slices * bits_per_slice;
                BloomFilter.make_hashes := hf;
                BloomFilter.bitarray :=
                  repeat false (Z.to_nat (num_slices * bits_per_slice)) |}) /\
      (forall num_slices bits_per_slice,
         BloomFilter.solve_num_slices error_rate = Ok num_slices ->
         BloomFilter.solve_bits_per_slice capacity error_rate num_slices
         = Ok bits_per_slice ->
         0 < num_slices <= 2 ^ 32 ->
         (0 <= num_slices * bits_per_slice <= bitarray.maxsize ->
          exists self,
            BloomFilter.__init__ capacity error_rate = Ok self /\
            BloomFilter.num_slices self = num_slices /\
            BloomFilter.bits_per_slice self = bits_per_slice /\
            len (BloomFilter.bitarray self) = num_slices * bits_per_slice) /\
         (bitarray.maxsize < num_slices * bits_per_slice ->
          BloomFilter.__init__ capacity error_rate = Raise OverflowError)))) /\
  (forall initial_capacity error_rate mode,
     let fresh :=
       {| ScalableBloomFilter.scale := mode;
          ScalableBloomFilter.ratio := ScalableBloomFilter.default_ratio;
          ScalableBloomFilter.initial_capacity := initial_capacity;
          ScalableBloomFilter.error_rate := error_rate;
          ScalableBloomFilter.filters := [] |} in
     ((error_rate =? 0)%float || (error_rate <? 0)%float = true ->
      ScalableBloomFilter.__init__ initial_capacity error_rate mode
      = Raise ScalableBloomFilter.error_rate_error) /\
     ((error_rate =? 0)%float || (error_rate <? 0)%float = false ->
      ScalableBloomFilter.__init__ initial_capacity error_rate mode
      = Ok fresh) /\
     ((0 <? error_rate)%float = true ->
      ScalableBloomFilter.__init__ initial_capacity error_rate mode
      = Ok fresh)) /\
  (forall base_capacity max_capacity error_rate,
     ((error_rate =? 0)%float || (error_rate <? 0)%float = true ->
      DynamicBloomFilter.__init__ base_capacity max_capacity error_rate
      = Raise DynamicBloomFilter.error_rate_error) /\
     ((0 <? error_rate)%float = true ->
      DynamicBloomFilter.__init__ base_capacity max_capacity error_rate
      <> Raise DynamicBloomFilter.error_rate_error /\
      forall rate,
        DynamicBloomFilter.derive_individual_error_rate
          base_capacity max_capacity error_rate = Ok rate ->
        DynamicBloomFilter.__init__ base_capacity max_capacity error_rate
        = Ok {| DynamicBloomFilter.individual_error_rate := rate;
                DynamicBloomFilter.max_error_rate := error_rate;
                DynamicBloomFilter.max_capacity := max_capacity;
                DynamicBloomFilter.base_capacity := base_capacity;
                DynamicBloomFilter.filters := [] |})) /\
  (forall base_capacity max_capacity error_rate,
     (1 <=? error_rate)%float = true ->
     DynamicBloomFilter.__init__ base_capacity max_capacity error_rate
     = Raise math_domain_error).
Proof.
  assert (Hok : forall capacity error_rate ns bps hf,
             (0 <? error_rate)%float && (error_rate <? 1)%float = true ->
             0 < capacity ->
             BloomFilter.solve_num_slices error_rate = Ok ns ->
             BloomFilter.solve_bits_per_slice capacity error_rate ns
             = Ok bps ->
             make_hashfuncs ns bps = Ok hf ->
             0 <= ns * bps <= bitarray.maxsize ->
             BloomFilter.__init__ capacity error_rate
             = Ok {| BloomFilter.error_rate := error_rate;
                     BloomFilter.num_slices := ns;
                     BloomFilter.bits_per_slice := bps;
                     BloomFilter.capacity := capacity;
                     BloomFilter.count := 0;
                     BloomFilter.num_bits := ns * bps;
                     BloomFilter.make_hashes := hf;
                     BloomFilter.bitarray :=
                       repeat false (Z.to_nat (ns * bps)) |}).
  { intros capacity error_rate ns bps hf Hv Hc Hns Hbps Hhf Hnb.
    unfold BloomFilter.__init__. rewrite Hv. cbn [negb].
    destruct (Z.gtb_spec capacity 0); [|lia]. cbn [negb].
    rewrite Hns. cbn [bind]. rewrite Hbps. cbn [bind].
    unfold BloomFilter._setup. rewrite Hhf. cbn [bind BloomFilter.num_bits].
    unfold bitarray.maxsize in *.
    destruct (Z.ltb_spec (ns * bps) (- (2 ^ 63 - 1) - 1)); [lia|].
    destruct (Z.gtb_spec (ns * bps) (2 ^ 63 - 1)); [lia|]. cbn [orb].
    destruct (Z.ltb_spec (ns * bps) 0); [lia|]. reflexivity. }
  split; [|split; [|split]].
  - intros capacity error_rate valid_rate. split; [|split].
    + intros Hv. unfold BloomFilter.__init__. fold valid_rate. now rewrite Hv.
    + intros Hv Hc. unfold BloomFilter.__init__. fold valid_rate. rewrite Hv.
      cbn [negb]. destruct (Z.gtb_spec capacity 0); [lia|reflexivity].
    + intros Hv Hc. split; [|split; [|split]].
      * intros H. apply BloomFilter_init_raises in H. fold valid_rate in H.
        destruct H as [[H _]|[[_ [H _]]|[_ [_ H]]]]; [congruence | lia |].
        unfold arithmetic_error in H. intuition discriminate.
      * intros H. apply BloomFilter_init_raises in H. fold valid_rate in H.
        destruct H as [[H _]|[[_ [H _]]|[_ [_ H]]]]; [congruence | lia |].
        unfold arithmetic_error in H. intuition discriminate.
      * intros self. split.
        -- intros H. revert H. unfold BloomFilter.__init__.
           fold valid_rate. rewrite Hv. cbn [negb].
           destruct (Z.gtb_spec capacity 0); [|lia]. cbn [negb].
           destruct (BloomFilter.solve_num_slices error_rate) as [ns|]
             eqn:Hns; [|discriminate].
           cbn [bind].
           destruct (BloomFilter.solve_bits_per_slice capacity error_rate ns)
             as [bps|] eqn:Hbps; [|discriminate].
           cbn [bind]. unfold BloomFilter._setup.
           destruct (make_hashfuncs ns bps) as [hf|] eqn:Hhf; [|discriminate].
           cbn [bind BloomFilter.num_bits]. unfold bitarray.maxsize.
           destruct (Z.ltb_spec (ns * bps) (- (2 ^ 63 - 1) - 1));
             [discriminate|].
           destruct (Z.gtb_spec (ns * bps) (2 ^ 63 - 1)); [discriminate|].
           cbn [orb].
           destruct (Z.ltb_spec (ns * bps) 0); [discriminate|].
           intros Hinit. exists ns, bps, hf.
           unfold bitarray.maxsize.
           repeat split; try assumption; try lia. now inversion Hinit.
        -- intros [ns [bps [hf [Hns [Hbps [Hhf [Hnb ->]]]]]]].
           now apply Hok.
      * intros ns bps Hns Hbps Hrange.
        destruct (make_hashfuncs_total ns bps Hrange) as [hf Hhf]. split.
        -- intros Hnb. eexists. split; [now apply (Hok _ _ ns bps hf)|].
           cbn [BloomFilter.num_slices BloomFilter.bits_per_slice
                BloomFilter.bitarray].
           repeat split. unfold len. rewrite repeat_length. lia.
        -- intros Hbig.
           now apply (BloomFilter_init_overflow _ _ ns bps hf).
  - intros ic e mode fresh. unfold ScalableBloomFilter.__init__.
    split; [|split].
    + now intros ->.
    + now intros ->.
    + intros Hp. destruct (float_positive e Hp) as [-> ->]. reflexivity.
  - intros bc mc e. unfold DynamicBloomFilter.__init__. split.
    + now intros ->.
    + intros Hp. destruct (float_positive e Hp) as [-> ->]. cbn [orb].
      unfold DynamicBloomFilter._setup. split.
      * intros H. split_bind H; [|discriminate].
        unfold DynamicBloomFilter.derive_individual_error_rate, math_log, math_exp in H.
        assert (arithmetic_error (ValueError "error_rate must be a decimal greater than 0.")).
        { repeat (split_bind H; [eauto with py_errors|]). discriminate. }
        unfold arithmetic_error in *. intuition discriminate.
      * intros rate ->. reflexivity.
  - intros bc mc e He. unfold DynamicBloomFilter.__init__.
    destruct (float_at_least_one e He) as [-> ->]. cbn [orb].
    unfold DynamicBloomFilter._setup,
      DynamicBloomFilter.derive_individual_error_rate.
    rewrite math_log_nonpositive by (now apply one_minus_nonpositive).
    reflexivity.
Qed.

End ConstructorClaims.

(** C9 as stated fails on both sides.  A scalable filter is built with a
    negative capacity and an error rate of two; and [BloomFilter(2 ** 63,
    0.5)], whose capacity is positive and whose rate lies in [(0, 1)], is
    not built: its one slice has more bits than [sys.maxsize]. *)
Lemma constructors_against_the_rule :
  ScalableBloomFilter.__init__ (-5) 2 ScalableBloomFilter.SMALL_SET_GROWTH
  = Ok {| ScalableBloomFilter.scale := 2;
          ScalableBloomFilter.ratio := ScalableBloomFilter.default_ratio;
          ScalableBloomFilter.initial_capacity := -5;
          ScalableBloomFilter.error_rate := 2;
          ScalableBloomFilter.filters := [] |} /\
  BloomFilter.solve_num_slices (libm := Demo.libm) 0.5 = Ok 1 /\
  (exists bits_per_slice,
     BloomFilter.solve_bits_per_slice (libm := Demo.libm) (2 ^ 63) 0.5 1
     = Ok bits_per_slice /\ bitarray.maxsize < bits_per_slice) /\
  BloomFilter.__init__ (hashlib := Demo.hashlib) (libm := Demo.libm)
                       (2 ^ 63) 0.5
  = Raise OverflowError.
Proof.
  split; [reflexivity|]. split; [by_evaluation|]. split.
  - eexists. split; by_evaluation.
  - by_evaluation.
Qed.

(** [BloomFilter(1, 0.1)] is built, with four slices of two bits. *)
Lemma constructor_validation_witness :
  exists self,
    BloomFilter.__init__ (hashlib := Demo.hashlib) (libm := Demo.libm)
                         1 Demo.rate = Ok self /\
    BloomFilter.num_slices self = 4 /\
    BloomFilter.bits_per_slice self = 2 /\
    len (BloomFilter.bitarray self) = 4 * 2.
Proof.
  destruct (@constructor_validation Demo.hashlib Demo.libm) as [H _].
  destruct (H 1 Demo.rate) as [_ [_ Hvalid]].
  destruct Hvalid as [_ [_ [_ Hsizes]]]; [by_evaluation | lia |].
  apply (Hsizes 4 2); [by_evaluation | by_evaluation | lia |].
  unfold bitarray.maxsize. lia.
Defined.

(** ** [BloomFilter.union] and [BloomFilter.intersection] *)

Lemma zip_bits_length op a b :
  length a = length b -> length (zip_bits op a b) = length a.
Proof.
  intros H. unfold zip_bits. rewrite length_map, length_combine, <- H.
  apply Nat.min_id.
Qed.

Lemma zip_bits_nth op a b i :
  length a = length b -> op false false = false ->
  nth i (zip_bits op a b) false = op (nth i a false) (nth i b false).
Proof.
  intros H Hop. unfold zip_bits.
  revert b i H. induction a as [|x a IH]; intros [|y b] i H; try discriminate.
  - destruct i; simpl; now rewrite Hop.
  - destruct i as [|i]; simpl; [reflexivity|]. apply IH. now inversion H.
Qed.

Section SetOperations.

Context {hashlib : Hashlib} {libm : Libm}.

Import BloomFilter.

Lemma constructed_copy self : constructed self -> copy self = Ok self.
Proof.
  intros [fresh [Hi [Hs _]]]. unfold copy. rewrite Hi. cbn [bind].
  now rewrite <- Hs.
Qed.

Lemma constructed_same_length self other :
  constructed self -> constructed other ->
  capacity self = capacity other -> error_rate self = error_rate other ->
  length (bitarray self) = length (bitarray other).
Proof.
  intros [f1 [Hi1 [Hs1 Hl1]]] [f2 [Hi2 [Hs2 Hl2]]] Hc He.
  rewrite Hc, He, Hi2 in Hi1. inversion Hi1; subst f1.
  assert (num_bits self = num_bits other) by (rewrite Hs1, Hs2; reflexivity).
  unfold len in *. lia.
Qed.

Lemma constructed_rate_eqb self :
  constructed self -> (error_rate self =? error_rate self)%float = true.
Proof.
  intros [fresh [Hi _]]. apply BloomFilter_init_inv in Hi.
  apply float_positive_eqb. apply Hi.
Qed.

Lemma merge_check self other :
  constructed self ->
  capacity self = capacity other -> error_rate self = error_rate other ->
  negb (capacity self =? capacity other)
  || negb (error_rate self =? error_rate other)%float = false.
Proof.
  intros Hs Hc He.
  rewrite <- Hc, <- He, Z.eqb_refl, constructed_rate_eqb by assumption.
  reflexivity.
Qed.

Lemma merged_bits_length op self other :
  constructed self -> constructed other ->
  capacity self = capacity other -> error_rate self = error_rate other ->
  len (zip_bits op (bitarray self) (bitarray other)) = num_bits self.
Proof.
  intros Hs Ho Hc He.
  pose proof (constructed_same_length self other Hs Ho Hc He) as Hlen.
  destruct Hs as [_ [_ [_ <-]]]. unfold len. now rewrite zip_bits_length.
Qed.

Lemma bitwise_spec op self other :
  constructed self -> constructed other ->
  capacity self = capacity other -> error_rate self = error_rate other ->
  bitarray.bitwise op (bitarray self) (bitarray other)
  = Ok (zip_bits op (bitarray self) (bitarray other)).
Proof.
  intros Hs Ho Hc He. unfold bitarray.bitwise, len.
  rewrite (constructed_same_length self other Hs Ho Hc He), Z.eqb_refl.
  reflexivity.
Qed.

Lemma union_spec self other :
  constructed self -> constructed other ->
  capacity self = capacity other -> error_rate self = error_rate other ->
  union self other = Ok (merged orb self other).
Proof.
  intros Hs Ho Hc He. unfold union.
  rewrite merge_check, constructed_copy by assumption. cbn [bind].
  unfold bitarray.or. rewrite bitwise_spec by assumption. cbn [bind].
  unfold estimated_count, merged. cbv zeta.
  now rewrite merged_bits_length by assumption.
Qed.

Lemma intersection_spec self other :
  constructed self -> constructed other ->
  capacity self = capacity other -> error_rate self = error_rate other ->
  intersection self other = Ok (merged andb self other).
Proof.
  intros Hs Ho Hc He. unfold intersection.
  rewrite merge_check, constructed_copy by assumption. cbn [bind].
  unfold bitarray.and. rewrite bitwise_spec by assumption. cbn [bind].
  unfold estimated_count, merged. cbv zeta.
  now rewrite merged_bits_length by assumption.
Qed.

Lemma merged_constructed op self other :
  constructed self -> constructed other ->
  capacity self = capacity other -> error_rate self = error_rate other ->
  constructed (merged op self other) /\
  capacity (merged op self other) = capacity self /\
  error_rate (merged op self other) = error_rate self.
Proof.
  intros Hs Ho Hc He.
  pose proof (merged_bits_length op self other Hs Ho Hc He) as Hl.
  split; [|split; reflexivity].
  destruct Hs as [fresh [Hi [Hself _]]]. exists fresh.
  assert (Hsame : forall n bits,
             set_count n (set_bitarray bits self)
             = set_count n (set_bitarray bits fresh)).
  { intros n bits. rewrite Hself. reflexivity. }
  unfold merged. cbv zeta. cbn [capacity error_rate count bitarray num_bits
                                 set_count set_bitarray].
  split; [exact Hi|]. split; [apply Hsame | exact Hl].
Qed.

(** [math.log] gives the logarithm [ln], and raises where there is
    none. *)
Lemma math_log_ln x :
  math_log x
  = match ln x with Some y => Ok y | None => Raise math_domain_error end.
Proof.
  unfold math_log, math_1, m_log, ln. cbv zeta.
  destruct (is_finite x) eqn:F.
  - assert (N : is_nan x = false).
    { unfold is_finite in F. destruct (is_nan x); [discriminate|reflexivity]. }
    rewrite N. cbn [negb]. rewrite !andb_true_r.
    destruct (0 <? x)%float; cbn [andb].
    + unfold is_finite.
      destruct (is_nan (libm_log x)), (is_infinity (libm_log x)); reflexivity.
    + destruct (x =? 0)%float; reflexivity.
  - rewrite !andb_false_r.
    destruct (is_nan x) eqn:N; cbn [orb negb].
    + rewrite N. reflexivity.
    + destruct (0 <? x)%float.
      * rewrite N. reflexivity.
      * reflexivity.
Qed.

Lemma int_of_float_integer_value q :
  match int_of_float q with Ok n => Some n | Raise _ => None end
  = integer_value q.
Proof. unfold int_of_float, integer_value. now destruct (Prim2SF q). Qed.

(** The count lines 266-270 and 287-291 compute, with the bare [except],
    is the count of the specification. *)
Lemma estimated_count_spec bits k :
  estimated_count bits k
  = estimated_cardinality (bitarray.count bits) (len bits) k.
Proof.
  unfold estimated_count, estimate, estimated_cardinality,
    cardinality_estimate, as_float, float_truediv.
  destruct (float_of_int (bitarray.count bits)) as [x|]; cbn [bind];
    [|reflexivity].
  destruct (float_of_int (len bits)) as [m|]; cbn [bind]; [|reflexivity].
  destruct (m =? 0)%float; cbn [bind].
  { now destruct (float_of_int k). }
  rewrite !math_log_ln.
  destruct (ln (1 - x / m)) as [a|]; cbn [bind].
  2:{ now destruct (float_of_int k). }
  destruct (ln (1 - 1 / m)) as [b|]; cbn [bind].
  2:{ now destruct (float_of_int k). }
  destruct (float_of_int k) as [kf|]; cbn [bind]; [|reflexivity].
  destruct (kf * b =? 0)%float; cbn [bind]; [reflexivity|].
  rewrite <- int_of_float_integer_value.
  now destruct (int_of_float (a / (kf * b))).
Qed.

(** [a | b] and [a & b] on bit vectors of one length: a bit vector of
    that length, the operation bit by bit. *)
Lemma bitwise_outcome op (a b : bitarray.t) :
  op false false = false ->
  len a = len b ->
  exists bits,
    bitarray.bitwise op a b = Ok bits /\
    len bits = len a /\
    (forall j, testbit bits j = op (testbit a j) (testbit b j)).
Proof.
  intros Hop Hl. exists (zip_bits op a b).
  assert (Hlen : length a = length b) by (unfold len in Hl; lia).
  split; [|split].
  - unfold bitarray.bitwise. rewrite Hl, Z.eqb_refl. reflexivity.
  - unfold len. now rewrite zip_bits_length.
  - intros j. unfold testbit. now apply zip_bits_nth.
Qed.

(** C2, as the code has it.  When capacity or error rate differ, the
    mismatch error of the operation is raised.  When they are identical,
    [copy] runs the constructor on them and what the constructor raises is
    raised; when it returns, bit vectors of different lengths make [|] and
    [&] raise the [ValueError] of [bitarray]; and with bit vectors of one
    length, [union] returns the fresh filter of the constructor with the
    bitwise OR of the two bit vectors, [intersection] with their bitwise
    AND, the count being the integer value of
    [ln(1 - set_bits/total_bits) / (slice_count * ln(1 - 1/total_bits))]
    on the new bit vector, or its number of bits where that is undefined.
    Two filters as the constructor and [add] make them, of identical
    capacity and error rate, are in the last case. *)
Theorem union_intersection_spec (self other : t) :
  (capacity self <> capacity other \/
   (error_rate self =? error_rate other)%float = false ->
   union self other = Raise union_mismatch /\
   intersection self other = Raise intersection_mismatch) /\
  (capacity self = capacity other ->
   (error_rate self =? error_rate other)%float = true ->
   (forall e,
      __init__ (capacity self) (error_rate self) = Raise e ->
      union self other = Raise e /\ intersection self other = Raise e) /\
   (forall fresh,
      __init__ (capacity self) (error_rate self) = Ok fresh ->
      (len (bitarray self) <> len (bitarray other) ->
       union self other = Raise bitarray.length_error /\
       intersection self other = Raise bitarray.length_error) /\
      (len (bitarray self) = len (bitarray other) ->
       exists u i,
         union self other = Ok u /\
         intersection self other = Ok i /\
         len (bitarray u) = len (bitarray self) /\
         len (bitarray i) = len (bitarray self) /\
         (forall j,
            testbit (bitarray u) j
            = testbit (bitarray self) j || testbit (bitarray other) j) /\
         (forall j,
            testbit (bitarray i) j
            = testbit (bitarray self) j && testbit (bitarray other) j) /\
         count u
         = estimated_cardinality (bitarray.count (bitarray u))
                                 (len (bitarray u)) (num_slices u) /\
         count i
         = estimated_cardinality (bitarray.count (bitarray i))
                                 (len (bitarray i)) (num_slices i) /\
         u = set_count (count u) (set_bitarray (bitarray u) fresh) /\
         i = set_count (count i) (set_bitarray (bitarray i) fresh) /\
         capacity fresh = capacity self /\
         error_rate fresh = error_rate self))) /\
  (constructed self -> constructed other ->
   capacity self = capacity other -> error_rate self = error_rate other ->
   (error_rate self =? error_rate other)%float = true /\
   len (bitarray self) = len (bitarray other) /\
   exists fresh, __init__ (capacity self) (error_rate self) = Ok fresh).
Proof.
  split; [|split].
  - intros Hdiff.
    assert (Hcheck : negb (capacity self =? capacity other)
                     || negb (error_rate self =? error_rate other)%float = true).
    { destruct Hdiff as [Hc|He].
      - destruct (Z.eqb_spec (capacity self) (capacity other)); [contradiction|].
        reflexivity.
      - rewrite He. apply orb_true_r. }
    unfold union, intersection. now rewrite Hcheck.
  - intros Hc He.
    assert (Hcheck : negb (capacity self =? capacity other)
                     || negb (error_rate self =? error_rate other)%float
                     = false).
    { rewrite He, Hc, Z.eqb_refl. reflexivity. }
    split.
    + intros e Hi. unfold union, intersection, copy.
      rewrite Hcheck, Hi. split; reflexivity.
    + intros fresh Hi. split.
      * intros Hl. unfold union, intersection, copy.
        rewrite Hcheck, Hi. cbn [bind bitarray set_count set_bitarray].
        unfold bitarray.or, bitarray.and, bitarray.bitwise.
        destruct (Z.eqb_spec (len (bitarray self)) (len (bitarray other)));
          [contradiction|].
        split; reflexivity.
      * intros Hl.
        destruct (bitwise_outcome orb (bitarray self) (bitarray other)
                                  eq_refl Hl) as [ubits [Hu [Hul Hub]]].
        destruct (bitwise_outcome andb (bitarray self) (bitarray other)
                                  eq_refl Hl) as [ibits [Hn [Hil Hib]]].
        exists (set_count (estimated_count ubits (num_slices fresh))
                          (set_bitarray ubits fresh)),
               (set_count (estimated_count ibits (num_slices fresh))
                          (set_bitarray ibits fresh)).
        apply BloomFilter_init_inv in Hi as Hinv.
        destruct Hinv as [_ [_ [_ [Hrate [Hcap _]]]]].
        cbn [bitarray count num_slices set_count set_bitarray].
        repeat split; try assumption;
          try apply estimated_count_spec.
        -- unfold union, copy. rewrite Hcheck, Hi.
           cbn [bind bitarray set_count set_bitarray]. unfold bitarray.or.
           rewrite Hu. reflexivity.
        -- unfold intersection, copy. rewrite Hcheck, Hi.
           cbn [bind bitarray set_count set_bitarray]. unfold bitarray.and.
           rewrite Hn. reflexivity.
  - intros Hs Ho Hc He.
    pose proof (constructed_same_length self other Hs Ho Hc He) as Hlen.
    split; [|split].
    + rewrite <- He. now apply constructed_rate_eqb.
    + unfold len. now rewrite Hlen.
    + destruct Hs as [fresh [Hi _]]. now exists fresh.
Qed.

End SetOperations.

(** C2 as stated fails: [BloomFilter(2, 0.1)] and the filter read back from
    its file have the same capacity and error rate, and bit vectors of 12
    and of 16 bits; neither their union nor their intersection is
    returned. *)
Lemma union_of_unequal_lengths :
  exists bytes read_back,
    BloomFilter.tofile Demo.filter12 [] = Ok bytes /\
    BloomFilter.fromfile (hashlib := Demo.hashlib) (libm := Demo.libm)
                         true bytes (-1) = Ok (read_back, []) /\
    BloomFilter.capacity read_back = BloomFilter.capacity Demo.filter12 /\
    BloomFilter.error_rate read_back = BloomFilter.error_rate Demo.filter12 /\
    len (BloomFilter.bitarray Demo.filter12) = 12 /\
    len (BloomFilter.bitarray read_back) = 16 /\
    BloomFilter.union (hashlib := Demo.hashlib) (libm := Demo.libm)
                      Demo.filter12 read_back
    = Raise bitarray.length_error /\
    BloomFilter.intersection (hashlib := Demo.hashlib) (libm := Demo.libm)
                             Demo.filter12 read_back
    = Raise bitarray.length_error.
Proof.
  do 2 eexists. split; [vm_compute; reflexivity|].
  split; [vm_compute; reflexivity|].
  repeat split; by_evaluation.
Qed.

(** Two filters of capacity 4 and one error rate, holding one key each:
    the union has 12 of 42 bits set in 7 slices and counts one key, the
    integer value of the estimate; the intersection has no bit set and
    counts none. *)
Lemma union_intersection_spec_witness :
  exists u i,
    BloomFilter.union (hashlib := Demo.hashlib) (libm := Demo.libm)
                      Demo.filter_hello Demo.filter_world = Ok u /\
    BloomFilter.intersection (hashlib := Demo.hashlib) (libm := Demo.libm)
                             Demo.filter_hello Demo.filter_world = Ok i /\
    BloomFilter.count u
    = estimated_cardinality (libm := Demo.libm)
        (bitarray.count (BloomFilter.bitarray u))
        (len (BloomFilter.bitarray u)) (BloomFilter.num_slices u) /\
    BloomFilter.count i
    = estimated_cardinality (libm := Demo.libm)
        (bitarray.count (BloomFilter.bitarray i))
        (len (BloomFilter.bitarray i)) (BloomFilter.num_slices i) /\
    cardinality_estimate (libm := Demo.libm) 12 42 7 = Some 1 /\
    BloomFilter.count u = 1 /\
    BloomFilter.count i = 0.
Proof.
  destruct (@union_intersection_spec Demo.hashlib Demo.libm
              Demo.filter_hello Demo.filter_world) as [_ [T _]].
  destruct (T eq_refl eq_refl) as [_ F].
  destruct (F Demo.sub_filter0) as [_ R]; [by_evaluation|].
  destruct R as [u [i [Hu [Hi [_ [_ [_ [_ [Hcu [Hci _]]]]]]]]]];
    [by_evaluation|].
  exists u, i.
  split; [exact Hu|]. split; [exact Hi|].
  split; [exact Hcu|]. split; [exact Hci|].
  split; [by_evaluation|].
  vm_compute in Hu, Hi. injection Hu as <-. injection Hi as <-.
  split; reflexivity.
Defined.

(** ** Bytes and fixed-width integers *)

Lemma Z_of_byte_of_Z z : Z_of_byte (byte_of_Z z) = z mod 256.
Proof.
  unfold Z_of_byte, byte_of_Z.
  pose proof (Z.mod_pos_bound z 256 ltac:(lia)) as Hm.
  destruct (Byte.of_N (Z.to_N (z mod 256))) as [b|] eqn:E.
  - apply Byte.to_of_N in E. rewrite E. lia.
  - apply Byte.of_N_None_iff in E. lia.
Qed.

Lemma le_bytes_length w z : length (le_bytes w z) = w.
Proof. revert z. induction w; intros z; simpl; [reflexivity | now rewrite IHw]. Qed.

Lemma le_value_bytes w z :
  0 <= z < 2 ^ (8 * Z.of_nat w) -> le_value (le_bytes w z) = z.
Proof.
  revert z. induction w as [|w IH]; intros z Hz.
  - simpl in *. lia.
  - cbn [le_bytes le_value]. rewrite Z_of_byte_of_Z.
    replace (8 * Z.of_nat (S w)) with (8 + 8 * Z.of_nat w) in Hz by lia.
    rewrite Z.pow_add_r in Hz by lia. change (2 ^ 8) with 256 in Hz.
    rewrite IH.
    + pose proof (Z.div_mod z 256 ltac:(lia)). lia.
    + split; [apply Z.div_pos; lia|].
      apply Z.div_lt_upper_bound; lia.
Qed.

Lemma pack_uint_inv w z bs :
  pack_uint w z = Ok bs ->
  length bs = w /\ le_value bs = z.
Proof.
  unfold pack_uint.
  destruct (Z.leb_spec 0 z); cbn [andb]; [|discriminate].
  destruct (Z.ltb_spec z (2 ^ (8 * Z.of_nat w))); [|discriminate].
  inversion 1; subst. split; [apply le_bytes_length | now apply le_value_bytes].
Qed.

Lemma pack_uint_range w z :
  0 <= z < 2 ^ (8 * Z.of_nat w) -> pack_uint w z = Ok (le_bytes w z).
Proof.
  intros H. unfold pack_uint.
  destruct (Z.leb_spec 0 z); [|lia].
  destruct (Z.ltb_spec z (2 ^ (8 * Z.of_nat w))); [|lia]. reflexivity.
Qed.

Lemma chunks_app w c a rest :
  length a = w -> chunks w (S c) (a ++ rest) = a :: chunks w c rest.
Proof.
  intros H. cbn [chunks]. f_equal.
  - rewrite firstn_app, H, Nat.sub_diag. cbn [firstn].
    rewrite app_nil_r. rewrite <- H. apply firstn_all.
  - rewrite skipn_app, H, Nat.sub_diag. cbn [skipn].
    rewrite <- H, skipn_all. reflexivity.
Qed.

(** ** The binary64 format *)

Lemma float_bits_range x : 0 <= float_bits x < 2 ^ 64.
Proof.
  unfold float_bits. pose proof (Prim2SF_valid x) as Hv.
  destruct (Prim2SF x) as [s|s| |s m e].
  - destruct s; lia.
  - destruct s; lia.
  - lia.
  - cbn [valid_binary] in Hv. apply bounded_cases in Hv.
    destruct (Z.ltb_spec (Zpos m) (2 ^ 52)); destruct s; lia.
Qed.

Lemma float_of_bits_bits x : float_of_bits (float_bits x) = x.
Proof.
  rewrite <- (SF2Prim_Prim2SF x) at 2.
  unfold float_of_bits, float_bits. pose proof (Prim2SF_valid x) as Hv.
  f_equal.
  destruct (Prim2SF x) as [s|s| |s m e].
  - destruct s; reflexivity.
  - destruct s; reflexivity.
  - reflexivity.
  - cbn [valid_binary] in Hv. apply bounded_cases in Hv.
    set (sign := if s then 2 ^ 63 else 0).
    assert (Hsign : sign = 2 ^ 63 * (if s then 1 else 0)) by (destruct s; reflexivity).
    destruct (Z.ltb_spec (Zpos m) (2 ^ 52)) as [Hsub|Hnorm].
    + assert (He : e = -1074) by lia. subst e.
      assert (Hs : (2 ^ 63 <=? sign + Zpos m) = s).
      { destruct s; unfold sign; [apply Z.leb_le | apply Z.leb_gt]; lia. }
      assert (Hb : ((sign + Zpos m) / 2 ^ 52) mod 2 ^ 11 = 0).
      { rewrite Hsign. change (2 ^ 63) with (2 ^ 11 * 2 ^ 52).
        rewrite <- Z.mul_assoc, (Z.mul_comm (2 ^ 52)), Z.mul_assoc, Z.add_comm.
        rewrite Z.div_add by lia. rewrite Z.div_small by lia.
        rewrite Z.add_0_l, Z.mul_comm, Z.mod_mul by lia. reflexivity. }
      assert (Hf : (sign + Zpos m) mod 2 ^ 52 = Zpos m).
      { rewrite Hsign. change (2 ^ 63) with (2 ^ 52 * 2 ^ 11).
        rewrite <- Z.mul_assoc, Z.add_comm, Z.mul_comm, Z.mod_add by lia.
        apply Z.mod_small. lia. }
      rewrite Hs, Hb, Hf. reflexivity.
    + destruct Hv as [[Hm He]|[Hm _]]; [|lia].
      set (bits := sign + ((e + 1075) * 2 ^ 52 + (Zpos m - 2 ^ 52))).
      assert (Hs : (2 ^ 63 <=? bits) = s).
      { destruct s; unfold bits, sign; [apply Z.leb_le | apply Z.leb_gt]; nia. }
      assert (Hb : (bits / 2 ^ 52) mod 2 ^ 11 = e + 1075).
      { unfold bits. rewrite Hsign. change (2 ^ 63) with (2 ^ 11 * 2 ^ 52).
        replace (2 ^ 11 * 2 ^ 52 * (if s then 1 else 0)
                 + ((e + 1075) * 2 ^ 52 + (Zpos m - 2 ^ 52)))
          with ((Zpos m - 2 ^ 52)
                + ((e + 1075) + (if s then 1 else 0) * 2 ^ 11) * 2 ^ 52) by ring.
        rewrite Z.div_add by lia. rewrite Z.div_small by lia.
        rewrite Z.add_0_l, Z.mod_add by lia. apply Z.mod_small. lia. }
      assert (Hf : bits mod 2 ^ 52 = Zpos m - 2 ^ 52).
      { unfold bits. rewrite Hsign. change (2 ^ 63) with (2 ^ 11 * 2 ^ 52).
        replace (2 ^ 11 * 2 ^ 52 * (if s then 1 else 0)
                 + ((e + 1075) * 2 ^ 52 + (Zpos m - 2 ^ 52)))
          with ((Zpos m - 2 ^ 52)
                + ((e + 1075) + (if s then 1 else 0) * 2 ^ 11) * 2 ^ 52) by ring.
        rewrite Z.mod_add by lia. apply Z.mod_small. lia. }
      fold bits. rewrite Hs, Hb, Hf.
      destruct (Z.eqb_spec (e + 1075) 2047); [lia|].
      destruct (Z.eqb_spec (e + 1075) 0); [lia|].
      replace (Zpos m - 2 ^ 52 + 2 ^ 52) with (Zpos m) by lia.
      f_equal. lia.
Qed.

Lemma unpack_pack_double x : unpack_double (pack_double x) = x.
Proof.
  unfold unpack_double, pack_double.
  rewrite le_value_bytes by (apply float_bits_range). apply float_of_bits_bits.
Qed.

Lemma unpack_pack_dQQQQ d a b c e header :
  pack_dQQQQ d a b c e = Ok header ->
  length header = 40%nat /\ unpack_dQQQQ header = Ok (d, a, b, c, e).
Proof.
  unfold pack_dQQQQ. intros H.
  destruct (pack_uint 8 a) as [pa|] eqn:Ea; [|discriminate].
  destruct (pack_uint 8 b) as [pb|] eqn:Eb; [|discriminate].
  destruct (pack_uint 8 c) as [pc|] eqn:Ec; [|discriminate].
  destruct (pack_uint 8 e) as [pe|] eqn:Ee; [|discriminate].
  cbn [bind] in H.
  assert (Ld : length (pack_double d) = 8%nat) by apply le_bytes_length.
  pose proof (unpack_pack_double d) as Vd.
  remember (pack_double d) as pd eqn:Epd. clear Epd.
  inversion H; subst header; clear H.
  apply pack_uint_inv in Ea, Eb, Ec, Ee.
  destruct Ea as [La Va], Eb as [Lb Vb], Ec as [Lc Vc], Ee as [Le Ve].
  split.
  { rewrite !length_app. lia. }
  unfold unpack_dQQQQ. rewrite !length_app, Ld, La, Lb, Lc, Le.
  cbn [Nat.eqb Nat.add].
  rewrite chunks_app by exact Ld. rewrite chunks_app by exact La.
  rewrite chunks_app by exact Lb. rewrite chunks_app by exact Lc.
  rewrite <- (app_nil_r pe). rewrite chunks_app by exact Le.
  cbn [chunks]. rewrite Vd, Va, Vb, Vc, Ve. reflexivity.
Qed.

(** ** Bit vectors as bytes *)

Lemma bits_of_byte_of_bits a :
  bitarray.bits_of_byte (bitarray.byte_of_bits a)
  = [nth 0 a false; nth 1 a false; nth 2 a false; nth 3 a false;
     nth 4 a false; nth 5 a false; nth 6 a false; nth 7 a false]%nat.
Proof.
  unfold bitarray.bits_of_byte, bitarray.byte_of_bits.
  now rewrite Byte.to_bits_of_bits.
Qed.

Lemma bits_of_byte_length b : length (bitarray.bits_of_byte b) = 8%nat.
Proof.
  unfold bitarray.bits_of_byte.
  destruct (Byte.to_bits b) as [b0 [b1 [b2 [b3 [b4 [b5 [b6 b7]]]]]]]. reflexivity.
Qed.

Lemma frombytes_length bs : len (bitarray.frombytes bs) = 8 * len bs.
Proof.
  unfold bitarray.frombytes.
  induction bs as [|b bs IH]; [reflexivity|].
  cbn [flat_map]. rewrite len_app, len_cons, IH.
  unfold len at 1. rewrite bits_of_byte_length. lia.
Qed.

(** The first eight bits of a vector, zero past its end. *)
Lemma first_byte_bits a :
  [nth 0 a false; nth 1 a false; nth 2 a false; nth 3 a false;
   nth 4 a false; nth 5 a false; nth 6 a false; nth 7 a false]%nat
  = firstn 8 a ++ repeat false (8 - length a).
Proof.
  do 8 (destruct a as [|? a]; [reflexivity|]). reflexivity.
Qed.

Lemma frombytes_pack_bits n a :
  (length a <= 8 * n)%nat ->
  bitarray.frombytes (bitarray.pack_bits n a)
  = a ++ repeat false (8 * n - length a).
Proof.
  unfold bitarray.frombytes. revert a.
  induction n as [|n IH]; intros a Hl.
  - destruct a; [reflexivity | simpl in Hl; lia].
  - cbn [bitarray.pack_bits flat_map].
    rewrite bits_of_byte_of_bits, first_byte_bits.
    rewrite IH by (rewrite length_skipn; lia).
    rewrite length_skipn.
    destruct (Nat.le_gt_cases (length a) 8) as [Hs|Hg].
    + rewrite firstn_all2 by exact Hs. rewrite skipn_all2 by exact Hs.
      cbn [app]. rewrite <- app_assoc, <- repeat_app. do 2 f_equal. lia.
    + replace (8 - length a)%nat with 0%nat by lia. cbn [repeat].
      rewrite app_nil_r, app_assoc, firstn_skipn. f_equal. f_equal. lia.
Qed.

(** Writing a bit vector and reading it back pads it with zero bits to a
    whole number of bytes. *)
Lemma frombytes_tobytes a :
  bitarray.frombytes (bitarray.tobytes a)
  = a ++ repeat false (Z.to_nat ((- len a) mod 8)).
Proof.
  unfold bitarray.tobytes.
  pose proof (Nat.div_mod_eq (length a + 7) 8) as Hd.
  pose proof (Nat.mod_upper_bound (length a + 7) 8 ltac:(lia)) as Hm.
  rewrite frombytes_pack_bits by lia. do 2 f_equal.
  unfold len.
  assert (Hz : (- Z.of_nat (length a)) mod 8
               = Z.of_nat (8 * ((length a + 7) / 8) - length a)).
  { symmetry. apply Z.mod_unique_pos with (q := - Z.of_nat ((length a + 7) / 8)); lia. }
  rewrite Hz. now rewrite Nat2Z.id.
Qed.

(** ** [BloomFilter.tofile] and [BloomFilter.fromfile] *)

Section Files.

Context {hashlib : Hashlib} {libm : Libm}.

Import BloomFilter.

Lemma read_bits_all is_string_io data n :
  n <= 0 \/ n = headerlen + len data ->
  read_bits is_string_io data n = Ok (bitarray.frombytes data, []).
Proof.
  intros Hn. unfold read_bits, headerlen in *.
  destruct (Z.gtb_spec n 0) as [Hpos|]; [|reflexivity].
  destruct Hn as [Hn | Hn]; [lia | subst n].
  replace (Z.to_nat (40 + len data - 40)) with (length data) by (unfold len; lia).
  rewrite Nat.ltb_irrefl, andb_false_r, firstn_all, skipn_all. reflexivity.
Qed.

(** [fromfile] on a well-formed header followed by [data], read to the
    end: it returns the filter of the header with the bits of [data], or
    raises the length mismatch. *)
Lemma fromfile_spec is_string_io error_rate num_slices bits_per_slice
      capacity count header hf data n :
  (exists bogus, __init__ 1 default_error_rate = Ok bogus) ->
  pack_dQQQQ error_rate num_slices bits_per_slice capacity count = Ok header ->
  make_hashfuncs num_slices bits_per_slice = Ok hf ->
  n <= 0 \/ n = headerlen + len data ->
  fromfile is_string_io (header ++ data) n
  = if length_accepted (num_slices * bits_per_slice) (len data)
    then Ok (restored hf (bitarray.frombytes data) error_rate num_slices
                      bits_per_slice capacity count, [])
    else Raise bit_length_mismatch.
Proof.
  intros [bogus Hb] Hh Hhf Hn.
  destruct (unpack_pack_dQQQQ _ _ _ _ _ _ Hh) as [Hl Hu].
  unfold fromfile.
  assert (Hsmall : (0 <? n) && (n <? headerlen) = false).
  { unfold headerlen in *. pose proof (len_nonneg data).
    destruct (Z.ltb_spec 0 n); [|reflexivity].
    destruct (Z.ltb_spec n 40); [lia|reflexivity]. }
  rewrite Hsmall, Hb. cbn [bind].
  change (Z.to_nat headerlen) with 40%nat. rewrite <- Hl.
  rewrite firstn_app, Nat.sub_diag, firstn_all. cbn [firstn]. rewrite app_nil_r.
  rewrite skipn_app, Nat.sub_diag, skipn_all. cbn [skipn app].
  rewrite Hu. cbn [bind]. unfold _setup. rewrite Hhf. cbn [bind].
  rewrite read_bits_all by exact Hn. cbn [bind].
  cbn [num_bits bitarray set_bitarray]. rewrite frombytes_length.
  unfold length_accepted, restored.
  destruct (_ =? _); [reflexivity|]. destruct (_ =? _); reflexivity.
Qed.

(** Every bit vector [fromfile] returns holds a whole number of bytes. *)
Lemma fromfile_whole_bytes is_string_io f n filter rest :
  fromfile is_string_io f n = Ok (filter, rest) ->
  len (bitarray filter) mod 8 = 0.
Proof.
  unfold fromfile. destruct (_ && _); [discriminate|].
  destruct (__init__ 1 default_error_rate) as [bogus|]; [|discriminate].
  cbn [bind].
  destruct (unpack_dQQQQ _) as [[[[[e ns] bps] c] cnt]|]; [|discriminate].
  cbn [bind].
  destruct (_setup _ _ _ _ _ _) as [filter'|]; [|discriminate]. cbn [bind].
  destruct (read_bits _ _ _) as [[bits rest']|] eqn:R; [|discriminate].
  cbn [bind]. destruct (_ && _); [discriminate|].
  inversion 1; subst. cbn [bitarray set_bitarray].
  unfold read_bits in R. destruct (n >? 0).
  - destruct (_ && _); [discriminate|]. inversion R; subst.
    rewrite frombytes_length, Z.mul_comm. apply Z.mod_mul. lia.
  - inversion R; subst. rewrite frombytes_length, Z.mul_comm.
    apply Z.mod_mul. lia.
Qed.

(** C6, as the code has it.  Writing a filter with [tofile] and reading
    it back with [fromfile] gives a filter with the same error rate,
    number of slices, bits per slice, capacity and count, whose bit vector
    is the one written followed by the zero bits that fill its last byte.
    The filter is one whose bit vector has [num_bits] bits and whose four
    integers fit the unsigned 64-bit fields of the format. *)
Theorem file_round_trip (self : t) (is_string_io : bool) (n : Z) :
  (exists bogus, __init__ 1 default_error_rate = Ok bogus) ->
  num_bits self = num_slices self * bits_per_slice self ->
  len (bitarray self) = num_bits self ->
  make_hashfuncs (num_slices self) (bits_per_slice self)
  = Ok (make_hashes self) ->
  0 <= num_slices self < 2 ^ 64 -> 0 <= bits_per_slice self < 2 ^ 64 ->
  0 <= capacity self < 2 ^ 64 -> 0 <= count self < 2 ^ 64 ->
  exists bytes,
    tofile self [] = Ok bytes /\
    (n <= 0 \/ n = len bytes ->
     fromfile is_string_io bytes n
     = Ok (set_bitarray
             (bitarray self
              ++ repeat false (Z.to_nat ((- num_bits self) mod 8)))
             self, [])).
Proof.
  intros Hb Hnb Hlen Hhf Hns Hbps Hc Hcnt.
  unfold tofile, pack_dQQQQ.
  rewrite !pack_uint_range by assumption. cbn [bind app].
  eexists. split; [reflexivity|]. intros Hn.
  match goal with
  | |- fromfile _ (?h ++ _) _ = _ =>
    assert (Hh : pack_dQQQQ (error_rate self) (num_slices self)
                            (bits_per_slice self) (capacity self) (count self)
                 = Ok h)
  end.
  { unfold pack_dQQQQ. rewrite !pack_uint_range by assumption. reflexivity. }
  pose proof (unpack_pack_dQQQQ _ _ _ _ _ _ Hh) as [Hl _].
  rewrite (fromfile_spec _ _ _ _ _ _ _ _ _ _ Hb Hh Hhf).
  2:{ destruct Hn as [|Hn]; [now left|]. right. rewrite Hn, len_app.
      unfold headerlen, len at 1. rewrite Hl. reflexivity. }
  assert (Hpad : 8 * len (bitarray.tobytes (bitarray self))
                 = num_bits self + (- num_bits self) mod 8).
  { rewrite <- frombytes_length, frombytes_tobytes, len_app, Hlen.
    unfold len. rewrite repeat_length. rewrite Z2Nat.id; [reflexivity|].
    apply Z.mod_pos_bound. lia. }
  unfold length_accepted. rewrite <- Hnb, Hpad.
  assert (Hacc : (num_bits self =? num_bits self + (- num_bits self) mod 8)
                 || (num_bits self + (8 - num_bits self mod 8)
                     =? num_bits self + (- num_bits self) mod 8) = true).
  { pose proof (Z.mod_pos_bound (num_bits self) 8 ltac:(lia)) as Hm.
    destruct (Z.eq_dec (num_bits self mod 8) 0) as [Hz|Hnz].
    - assert ((- num_bits self) mod 8 = 0) by (apply Z.mod_opp_l_z; lia).
      apply orb_true_iff. left. apply Z.eqb_eq. lia.
    - assert ((- num_bits self) mod 8 = 8 - num_bits self mod 8)
        by (apply Z.mod_opp_l_nz; lia).
      apply orb_true_iff. right. apply Z.eqb_eq. lia. }
  rewrite Hacc, frombytes_tobytes, Hlen.
  destruct self. unfold restored, set_bitarray. cbn in *. subst. reflexivity.
Qed.

(** C7, where the code departs from it: when the number of bits is a
    multiple of eight, a bit vector one byte longer than
    [num_bits / 8] passes the length test. *)
Theorem fromfile_accepts_extra_byte (is_string_io : bool)
        (error_rate : float) (num_slices bits_per_slice capacity count : Z)
        (header data : list byte) :
  (exists bogus, __init__ 1 default_error_rate = Ok bogus) ->
  (exists hf, make_hashfuncs num_slices bits_per_slice = Ok hf) ->
  pack_dQQQQ error_rate num_slices bits_per_slice capacity count = Ok header ->
  (num_slices * bits_per_slice) mod 8 = 0 ->
  len data = num_slices * bits_per_slice / 8 + 1 ->
  exists filter,
    fromfile is_string_io (header ++ data) (-1) = Ok (filter, []) /\
    num_bits filter = num_slices * bits_per_slice /\
    len (bitarray filter) = num_bits filter + 8.
Proof.
  intros Hb [hf Hhf] Hh Hm Hd.
  rewrite (fromfile_spec _ _ _ _ _ _ _ _ _ _ Hb Hh Hhf) by (left; lia).
  pose proof (Z.div_mod (num_slices * bits_per_slice) 8 ltac:(lia)) as Hdm.
  unfold length_accepted. rewrite Hd, Hm.
  destruct (Z.eqb_spec (num_slices * bits_per_slice)
                       (8 * (num_slices * bits_per_slice / 8 + 1))); [lia|].
  destruct (Z.eqb_spec (num_slices * bits_per_slice + (8 - 0))
                       (8 * (num_slices * bits_per_slice / 8 + 1))); [|lia].
  cbn [orb]. eexists. split; [reflexivity|].
  unfold restored. cbn [num_bits bitarray]. split; [reflexivity|].
  rewrite frombytes_length, Hd. lia.
Qed.

(** The length test, for every header and every [data]: [fromfile] raises
    the mismatch exactly when [data] has neither [num_bits / 8] bytes nor
    [(num_bits + (8 - num_bits % 8)) / 8]. *)
Lemma fromfile_length_test is_string_io error_rate num_slices bits_per_slice
      capacity count header hf data :
  (exists bogus, __init__ 1 default_error_rate = Ok bogus) ->
  pack_dQQQQ error_rate num_slices bits_per_slice capacity count = Ok header ->
  make_hashfuncs num_slices bits_per_slice = Ok hf ->
  (fromfile is_string_io (header ++ data) (-1) = Raise bit_length_mismatch
   <-> length_accepted (num_slices * bits_per_slice) (len data) = false).
Proof.
  intros Hb Hh Hhf.
  rewrite (fromfile_spec _ _ _ _ _ _ _ _ _ _ Hb Hh Hhf) by (left; lia).
  destruct (length_accepted _ _); split; intros H; try discriminate; reflexivity.
Qed.

End Files.

(** [BloomFilter(2, 0.1)], twelve bits, comes back with four more. *)
Lemma file_round_trip_witness :
  exists bytes,
    BloomFilter.tofile Demo.filter12 [] = Ok bytes /\
    BloomFilter.fromfile (hashlib := Demo.hashlib) (libm := Demo.libm)
                         true bytes (-1)
    = Ok (BloomFilter.set_bitarray
            (BloomFilter.bitarray Demo.filter12 ++ repeat false 4)
            Demo.filter12, []).
Proof.
  destruct (@file_round_trip Demo.hashlib Demo.libm Demo.filter12 true (-1))
    as [bytes [Hto Hfrom]].
  - eexists. by_evaluation.
  - by_evaluation.
  - by_evaluation.
  - by_evaluation.
  - split; by_evaluation.
  - split; by_evaluation.
  - split; by_evaluation.
  - split; by_evaluation.
  - exists bytes. split; [exact Hto|]. apply Hfrom. left. lia.
Defined.

(** C6 as stated fails: [BloomFilter(2, 0.1)] has a bit vector of twelve
    bits, and the filter read back from its file has one of sixteen.  No
    filter whose bit vector is not a whole number of bytes comes back with
    the same bit vector, whatever the digest and the C library. *)
Lemma round_trip_pads_bit_vector :
  (exists bytes restored,
     BloomFilter.tofile Demo.filter12 [] = Ok bytes /\
     BloomFilter.fromfile (hashlib := Demo.hashlib) (libm := Demo.libm)
                          true bytes (-1) = Ok (restored, []) /\
     len (BloomFilter.bitarray Demo.filter12) = 12 /\
     len (BloomFilter.bitarray restored) = 16) /\
  (forall (hashlib : Hashlib) (libm : Libm) (self restored : BloomFilter.t)
          (is_string_io : bool) (f rest : list byte) (n : Z),
     len (BloomFilter.bitarray self) mod 8 <> 0 ->
     BloomFilter.fromfile is_string_io f n = Ok (restored, rest) ->
     BloomFilter.bitarray restored <> BloomFilter.bitarray self).
Proof.
  split.
  - eexists. eexists. split; [by_evaluation|]. split; [by_evaluation|].
    split; by_evaluation.
  - intros hashlib libm self restored is_string_io f rest n Hself Hfrom Heq.
    apply fromfile_whole_bytes in Hfrom. rewrite Heq in Hfrom. contradiction.
Qed.

(** The header of [BloomFilter(1, 0.1)], eight bits, followed by two bytes:
    accepted, with a bit vector of sixteen bits. *)
Lemma fromfile_accepts_extra_byte_witness :
  exists filter,
    BloomFilter.fromfile (hashlib := Demo.hashlib) (libm := Demo.libm)
                         true (Demo.header8 ++ [x00; x00]) (-1)
    = Ok (filter, []) /\
    BloomFilter.num_bits filter = 4 * 2 /\
    len (BloomFilter.bitarray filter) = BloomFilter.num_bits filter + 8.
Proof.
  apply (@fromfile_accepts_extra_byte Demo.hashlib Demo.libm true Demo.rate
                                      4 2 1 0 Demo.header8 [x00; x00]).
  - eexists. by_evaluation.
  - eexists. by_evaluation.
  - by_evaluation.
  - by_evaluation.
  - by_evaluation.
Defined.

(** ** [DynamicBloomFilter.union] and [DynamicBloomFilter.intersection] *)

Section Dynamic.

Context {hashlib : Hashlib} {libm : Libm}.

Import DynamicBloomFilter.

Lemma init_inv bc mc e fresh :
  __init__ bc mc e = Ok fresh ->
  base_capacity fresh = bc /\ max_capacity fresh = mc /\
  max_error_rate fresh = e /\ filters fresh = [].
Proof.
  unfold __init__, _setup. destruct (_ || _); [discriminate|].
  destruct (derive_individual_error_rate bc mc e); [|discriminate].
  cbn [bind]. inversion 1; subst. cbn. auto.
Qed.

Lemma mapM_copy fs :
  Forall constructed fs -> mapM BloomFilter.copy fs = Ok fs.
Proof.
  induction 1 as [|f fs Hf _ IH]; cbn [mapM]; [reflexivity|].
  rewrite constructed_copy by assumption. cbn [bind]. now rewrite IH.
Qed.





Lemma truth_spec f :
  0 <= BloomFilter.count f < 2 ^ 63 ->
  truth f = Ok (negb (BloomFilter.count f =? 0)).
Proof.
  intros H. unfold truth, BloomFilter.__len__.
  destruct (Z.ltb_spec (BloomFilter.count f) 0); [lia|].
  destruct (Z.gtb_spec (BloomFilter.count f) (2 ^ 63 - 1)); [lia|]. reflexivity.
Qed.


(** With non-empty operands the fold returns the first sub-filter of
    [other]. *)
Lemma intersection_fold_first bloom bloom_filter other_filter rest :
  BloomFilter.count bloom = 0 ->
  0 < BloomFilter.count bloom_filter < 2 ^ 63 ->
  0 < BloomFilter.count other_filter < 2 ^ 63 ->
  intersection_fold bloom bloom_filter (other_filter :: rest) = Ok other_filter.
Proof.
  intros Hb Hbf Ho. cbn [intersection_fold]. unfold py_or at 1, py_and.
  rewrite (truth_spec bloom) by lia. rewrite Hb. cbn [Z.eqb negb bind].
  rewrite (truth_spec bloom_filter) by lia.
  destruct (Z.eqb_spec (BloomFilter.count bloom_filter) 0); [lia|].
  cbn [negb bind].
  induction rest as [|o rest IH]; cbn [intersection_fold]; [reflexivity|].
  unfold py_or. rewrite (truth_spec other_filter) by lia.
  destruct (Z.eqb_spec (BloomFilter.count other_filter) 0); [lia|].
  cbn [negb bind]. exact IH.
Qed.

Lemma mapM_ext_in {A B} (f g : A -> result B) l :
  Forall (fun a => f a = g a) l -> mapM f l = mapM g l.
Proof.
  induction 1 as [|a l Ha _ IH]; cbn [mapM]; [reflexivity|].
  now rewrite Ha, IH.
Qed.

Lemma mapM_pure {A B} (f : A -> B) l : mapM (fun a => Ok (f a)) l = Ok (map f l).
Proof.
  induction l as [|a l IH]; cbn [mapM map bind]; [reflexivity|].
  now rewrite IH.
Qed.


(** C3, where the code departs from it: the fold uses the operators [or]
    and [and] on the filter objects, so with non-empty sub-filters on both
    sides every accumulator is the first sub-filter of [other], unchanged,
    and no bit of the sub-filters of [self] takes part. *)
Theorem dynamic_intersection_returns_operand (self other : t)
        (fresh : t) (bloom other_filter : BloomFilter.t)
        (rest : list BloomFilter.t) :
  base_capacity self = base_capacity other ->
  (individual_error_rate self =? individual_error_rate other)%float = true ->
  __init__ (base_capacity self) (max_capacity self) (max_error_rate self)
  = Ok fresh ->
  BloomFilter.__init__ (base_capacity self) (individual_error_rate self)
  = Ok bloom ->
  Forall (fun f => 0 < BloomFilter.count f < 2 ^ 63) (filters self) ->
  filters other = other_filter :: rest ->
  0 < BloomFilter.count other_filter < 2 ^ 63 ->
  intersection self other
  = Ok (set_filters (map (fun _ => other_filter) (filters self)) fresh).
Proof.
  intros Hbc Her Hfresh Hbloom Hself Hother Hcount.
  destruct (init_inv _ _ _ _ Hfresh) as [_ [_ [_ F4]]].
  unfold intersection. rewrite Hbc, Z.eqb_refl, Her. cbn [negb orb].
  rewrite <- Hbc, Hfresh. cbn [bind].
  rewrite (mapM_ext_in _ (fun _ => Ok other_filter)).
  - rewrite mapM_pure. cbn [bind]. now rewrite F4.
  - eapply Forall_impl; [|exact Hself]. intros f Hf. cbv beta.
    rewrite Hbloom, Hother. cbn [bind].
    apply intersection_fold_first; try assumption.
    apply BloomFilter_init_inv in Hbloom. apply Hbloom.
Qed.

End Dynamic.


(** The intersection of a filter holding [hello] with one holding [world]
    is the sub-filter holding [world]; the union of intersections the
    specification words has another bit vector. *)
Lemma dynamic_intersection_returns_operand_witness :
  DynamicBloomFilter.intersection (hashlib := Demo.hashlib) (libm := Demo.libm)
                                  Demo.with_hello Demo.with_world
  = Ok (DynamicBloomFilter.set_filters [Demo.filter_world] Demo.dynamic40) /\
  exists common,
    union_of_intersections (hashlib := Demo.hashlib) (libm := Demo.libm)
                           Demo.sub_filter0 Demo.filter_hello [Demo.filter_world]
    = Ok common /\
    BloomFilter.bitarray common <> BloomFilter.bitarray Demo.filter_world.
Proof.
  split.
  - apply (@dynamic_intersection_returns_operand Demo.hashlib Demo.libm
             Demo.with_hello Demo.with_world Demo.dynamic40 Demo.sub_filter0
             Demo.filter_world []).
    + by_evaluation.
    + by_evaluation.
    + by_evaluation.
    + by_evaluation.
    + constructor; [|constructor]. split; by_evaluation.
    + by_evaluation.
    + split; by_evaluation.
  - eexists. split; [by_evaluation|]. by_evaluation.
Defined.


(** ** Bits are set and never cleared *)

Lemma index_lt n k i : bitarray.index n k = Ok i -> (i < Z.to_nat n)%nat.
Proof.
  unfold bitarray.index.
  destruct (Z.leb_spec 0 k), (Z.ltb_spec k n); cbn [andb];
    try (inversion 1; subst; lia);
    destruct (Z.leb_spec (- n) k), (Z.ltb_spec k 0); cbn [andb];
    inversion 1; subst; lia.
Qed.

Lemma included_refl a : included a a.
Proof. intros i H. exact H. Qed.

Lemma included_trans a b c : included a b -> included b c -> included a c.
Proof. intros H1 H2 i H. auto. Qed.

Lemma update_included i a : included a (bitarray.update i true a).
Proof. intros j H. rewrite nth_update. destruct (_ && _); auto. Qed.

Lemma nth_update_same i a :
  (i < length a)%nat -> nth i (bitarray.update i true a) false = true.
Proof.
  intros H. rewrite nth_update, Nat.eqb_refl.
  destruct (Nat.ltb_spec i (length a)); [reflexivity | lia].
Qed.

(** A membership test that succeeds on a bit vector succeeds on every
    vector of the same length that has these bits. *)
Lemma contains_loop_mono bits bits' bps ks stop off :
  len bits' = len bits -> included bits bits' ->
  BloomFilter.contains_loop bits bps ks stop off = Ok true ->
  BloomFilter.contains_loop bits' bps ks stop off = Ok true.
Proof.
  intros Hl Hi. revert off.
  induction ks as [|k ks IH]; intros off; cbn [BloomFilter.contains_loop];
    [auto|].
  unfold bitarray.getitem. rewrite Hl.
  destruct (bitarray.index (len bits) (off + k)) as [i|e]; cbn [bind];
    [|discriminate].
  destruct (nth i bits false) eqn:E; cbn [negb]; [|discriminate].
  rewrite (Hi i E). cbn [negb]. apply IH.
Qed.

(** Whatever the loop of [add] does and however it ends, the bit vector
    keeps its length and its set bits. *)
Lemma add_loop_grows skip_check bps ks stop off found bits :
  len (snd (BloomFilter.add_loop skip_check bps ks stop off found bits))
  = len bits /\
  included bits
    (snd (BloomFilter.add_loop skip_check bps ks stop off found bits)).
Proof.
  revert off found bits.
  induction ks as [|k ks IH]; intros off found bits;
    cbn [BloomFilter.add_loop]; cbv zeta.
  - cbn [snd]. split; [reflexivity | apply included_refl].
  - destruct (if negb skip_check && found then _ else _) as [found'|e];
      [|cbn [snd]; split; [reflexivity | apply included_refl]].
    unfold bitarray.setitem.
    destruct (bitarray.index (len bits) (off + k)) as [i|e]; cbn [bind];
      [|cbn [snd]; split; [reflexivity | apply included_refl]].
    destruct (IH (off + bps) found' (bitarray.update i true bits)) as [Hl Hi].
    split.
    + rewrite Hl. apply len_update.
    + eapply included_trans; [apply update_included | exact Hi].
Qed.

(** When the loop of [add] ends without an exception, the membership test
    finds every bit it looks at. *)
Lemma add_loop_sets skip_check bps ks stop off found bits r bits' :
  BloomFilter.add_loop skip_check bps ks stop off found bits = (Ok r, bits') ->
  BloomFilter.contains_loop bits' bps ks stop off = Ok true.
Proof.
  revert off found bits.
  induction ks as [|k ks IH]; intros off found bits;
    cbn [BloomFilter.add_loop BloomFilter.contains_loop]; cbv zeta.
  - destruct stop; [discriminate|reflexivity].
  - destruct (if negb skip_check && found then _ else _) as [found'|e];
      [|discriminate].
    unfold bitarray.setitem, bitarray.getitem.
    destruct (bitarray.index (len bits) (off + k)) as [i|e] eqn:E; cbn [bind];
      [|discriminate].
    intros H.
    pose proof (add_loop_grows skip_check bps ks stop (off + bps) found'
                               (bitarray.update i true bits)) as [Hl Hi].
    rewrite H in Hl, Hi. cbn [snd] in Hl, Hi.
    rewrite Hl, len_update, E. cbn [bind].
    rewrite (Hi i).
    + cbn [negb]. eapply IH. exact H.
    + apply nth_update_same. apply index_lt in E. unfold len in E. lia.
Qed.

(** A key whose bits are all set is reported as present by the loop of
    [add], which leaves the bit vector as it was. *)
Lemma add_loop_present bps ks stop off bits :
  BloomFilter.contains_loop bits bps ks stop off = Ok true ->
  BloomFilter.add_loop false bps ks stop off true bits = (Ok true, bits).
Proof.
  revert off.
  induction ks as [|k ks IH]; intros off;
    cbn [BloomFilter.add_loop BloomFilter.contains_loop]; cbv zeta.
  - destruct stop; [discriminate|reflexivity].
  - cbn [negb andb]. unfold bitarray.setitem, bitarray.getitem.
    destruct (bitarray.index (len bits) (off + k)) as [i|e]; cbn [bind];
      [|discriminate].
    destruct (nth i bits false) eqn:E; cbn [negb]; [|discriminate].
    rewrite update_set_bit by exact E. apply IH.
Qed.

Section Membership.

Context {hashlib : Hashlib}.

Import BloomFilter.

(** What [add] leaves of a filter: the bit vector and the count may change,
    nothing else does. *)
Lemma add_grows self key skip_check :
  let self' := snd (add self key skip_check) in
  len (bitarray self') = len (bitarray self) /\
  included (bitarray self) (bitarray self') /\
  self' = set_count (count self') (set_bitarray (bitarray self') self).
Proof.
  cbv zeta. unfold add.
  destruct (count self >? capacity self).
  { cbn [snd]. split; [reflexivity|]. split; [apply included_refl|].
    now destruct self. }
  destruct (hashes (make_hashes self) key) as [ks stop].
  pose proof (add_loop_grows skip_check (bits_per_slice self) ks stop 0 true
                             (bitarray self)) as [Hl Hi].
  destruct (add_loop skip_check (bits_per_slice self) ks stop 0 true
                     (bitarray self)) as [[found|e] bits]; cbn [snd] in Hl, Hi.
  - destruct skip_check; [|destruct (negb found)]; cbn [snd];
      (split; [exact Hl|]; split; [exact Hi|]; now destruct self).
  - cbn [snd]. split; [exact Hl|]. split; [exact Hi|]. now destruct self.
Qed.

(** What is known when [add] returns: the filter keeps its hash functions
    and its slices, and the loop of the membership test finds every bit
    of the key. *)
Lemma add_returns_inv self key skip_check r self' :
  add self key skip_check = (Ok r, self') ->
  make_hashes self' = make_hashes self /\
  bits_per_slice self' = bits_per_slice self /\
  exists ks stop,
    hashes (make_hashes self) key = (ks, stop) /\
    contains_loop (bitarray self') (bits_per_slice self) ks stop 0 = Ok true.
Proof.
  unfold add.
  destruct (count self >? capacity self); [discriminate|].
  destruct (hashes (make_hashes self) key) as [ks stop] eqn:E.
  destruct (add_loop skip_check (bits_per_slice self) ks stop 0 true
                     (bitarray self)) as [[found|e] bits] eqn:A;
    [|discriminate].
  apply add_loop_sets in A.
  destruct skip_check; [|destruct (negb found)]; inversion 1; subst self';
    cbn [make_hashes bits_per_slice bitarray set_count set_bitarray count];
    (split; [reflexivity|]; split; [reflexivity|]; eauto).
Qed.

(** X1. A key that [add] has taken is a member: when [add] returns, with
    or without [skip_check] and whatever it returns, the membership test of
    the filter it leaves answers [True] for the key.  No assumption on the
    filter is needed. *)
Theorem added_key_is_member (self : t) (key : list byte)
        (skip_check r : bool) (self' : t) :
  add self key skip_check = (Ok r, self') ->
  __contains__ self' key = Ok true.
Proof.
  intros H. apply add_returns_inv in H.
  destruct H as [Hh [Hb [ks [stop [E C]]]]].
  unfold __contains__. now rewrite Hh, Hb, E.
Qed.

(** X2. Members stay members: a key that tests as a member still does
    after any call of [add], whether the call returns or raises. *)
Theorem members_stay_members (self : t) (key key' : list byte)
        (skip_check : bool) :
  __contains__ self key' = Ok true ->
  __contains__ (snd (add self key skip_check)) key' = Ok true.
Proof.
  intros H. destruct (add_grows self key skip_check) as [Hl [Hi Hs]].
  rewrite Hs. unfold __contains__ in *.
  cbn [make_hashes bits_per_slice bitarray set_count set_bitarray].
  destruct (hashes (make_hashes self) key') as [ks stop].
  eapply contains_loop_mono; eauto.
Qed.

(** X3. Adding a key again: after an [add] that returned, a second [add]
    of the same key to a filter that is not above its capacity returns
    [True] and changes nothing, the count included. *)
Theorem second_add_reports_presence (self : t) (key : list byte)
        (skip_check r : bool) (self' : t) :
  add self key skip_check = (Ok r, self') ->
  count self' <= capacity self' ->
  add self' key false = (Ok true, self').
Proof.
  intros H Hc. apply add_returns_inv in H.
  destruct H as [Hh [Hb [ks [stop [E C]]]]].
  unfold add. destruct (Z.gtb_spec (count self') (capacity self')); [lia|].
  rewrite Hh, Hb, E. rewrite add_loop_present by exact C.
  cbn [negb]. now rewrite set_bitarray_same.
Qed.

End Membership.

(** The first [add] of a key to [BloomFilter(1, 0.1)] makes it a member. *)
Lemma added_key_is_member_witness :
  BloomFilter.add (hashlib := Demo.hashlib) Demo.filter8 Demo.hello false
  = (Ok false, inserted (hashlib := Demo.hashlib) Demo.filter8 Demo.hello) /\
  BloomFilter.__contains__ (hashlib := Demo.hashlib)
    (inserted (hashlib := Demo.hashlib) Demo.filter8 Demo.hello) Demo.hello
  = Ok true.
Proof.
  assert (H : BloomFilter.add (hashlib := Demo.hashlib) Demo.filter8
                              Demo.hello false
              = (Ok false,
                 inserted (hashlib := Demo.hashlib) Demo.filter8 Demo.hello))
    by by_evaluation.
  split; [exact H|].
  exact (@added_key_is_member Demo.hashlib _ _ _ _ _ H).
Defined.

(** [hello] is still a member after [world] is added. *)
Lemma members_stay_members_witness :
  BloomFilter.__contains__ (hashlib := Demo.hashlib)
    Demo.filter_hello Demo.hello = Ok true /\
  BloomFilter.__contains__ (hashlib := Demo.hashlib)
    (snd (BloomFilter.add (hashlib := Demo.hashlib)
                          Demo.filter_hello Demo.world false))
    Demo.hello = Ok true.
Proof.
  assert (H : BloomFilter.__contains__ (hashlib := Demo.hashlib)
                Demo.filter_hello Demo.hello = Ok true) by by_evaluation.
  split; [exact H|].
  exact (@members_stay_members Demo.hashlib _ Demo.world _ false H).
Defined.

(** The scenario of the documentation: [add("hello")] twice, the second
    call returns [True]. *)
Lemma second_add_reports_presence_witness :
  BloomFilter.add (hashlib := Demo.hashlib) Demo.filter8 Demo.hello false
  = (Ok false, inserted (hashlib := Demo.hashlib) Demo.filter8 Demo.hello) /\
  BloomFilter.add (hashlib := Demo.hashlib)
    (inserted (hashlib := Demo.hashlib) Demo.filter8 Demo.hello)
    Demo.hello false
  = (Ok true, inserted (hashlib := Demo.hashlib) Demo.filter8 Demo.hello).
Proof.
  assert (H : BloomFilter.add (hashlib := Demo.hashlib) Demo.filter8
                              Demo.hello false
              = (Ok false,
                 inserted (hashlib := Demo.hashlib) Demo.filter8 Demo.hello))
    by by_evaluation.
  split; [exact H|].
  apply (@second_add_reports_presence Demo.hashlib _ _ _ _ _ H).
  by_evaluation.
Defined.

(** ** A fresh filter, and copies *)

Lemma testbit_repeat_false n i : testbit (repeat false n) i = false.
Proof.
  unfold testbit. generalize (Z.to_nat i).
  induction n as [|n IH]; intros [|j]; simpl; auto.
Qed.

Section FreshFilter.

Context {hashlib : Hashlib} {libm : Libm}.

Import BloomFilter.

Lemma init_well_formed c e self :
  __init__ c e = Ok self ->
  0 < num_slices self -> 0 < bits_per_slice self -> well_formed self.
Proof.
  intros H Hn Hb. apply BloomFilter_init_inv in H.
  destruct H as (_ & _ & _ & _ & _ & _ & Hnb & Hh & _ & Hl).
  constructor; try assumption. rewrite Hl, Hnb. lia.
Qed.

Lemma init_constructed c e self : __init__ c e = Ok self -> constructed self.
Proof.
  intros H. exists self.
  pose proof (BloomFilter_init_inv _ _ _ H)
    as (_ & _ & _ & He & Hc & _ & _ & _ & _ & Hl).
  rewrite Hc, He. split; [exact H|]. split; [now destruct self | exact Hl].
Qed.

Lemma add_constructed self key skip_check :
  constructed self -> constructed (snd (add self key skip_check)).
Proof.
  intros [fresh [Hi [Hs Hl]]].
  destruct (add_grows self key skip_check) as [Hl' [_ Hs']].
  remember (snd (add self key skip_check)) as self' eqn:E. clear E.
  exists fresh.
  assert (Hc : capacity self' = capacity self) by (rewrite Hs'; reflexivity).
  assert (He : error_rate self' = error_rate self) by (rewrite Hs'; reflexivity).
  assert (Hn : num_bits self' = num_bits self) by (rewrite Hs'; reflexivity).
  rewrite Hc, He. split; [exact Hi|]. split.
  - rewrite Hs' at 1. rewrite Hs. reflexivity.
  - rewrite Hl', Hn. exact Hl.
Qed.

Lemma add_all_constructed self calls :
  constructed self -> constructed (add_all self calls).
Proof.
  revert self. induction calls as [|[key skip_check] calls IH]; intros self H;
    cbn [add_all]; [exact H|].
  apply IH. now apply add_constructed.
Qed.

(** X4. A fresh filter has no member: on the filter the constructor
    returns, with one slice and one bit per slice at least, the membership
    test answers [False] for every key, and the first [add] of a key
    returns [False] and counts one key. *)
Theorem fresh_filter_is_empty (c : Z) (e : float) (self : t)
        (key : list byte) :
  __init__ c e = Ok self ->
  0 < num_slices self -> 0 < bits_per_slice self ->
  __contains__ self key = Ok false /\
  add self key false = (Ok false, inserted self key) /\
  count (inserted self key) = 1.
Proof.
  intros H Hn Hb. pose proof (init_well_formed _ _ _ H Hn Hb) as Hwf.
  pose proof (BloomFilter_init_inv _ _ _ H)
    as (_ & _ & Hc & _ & Hcap & Hcount & _ & _ & Hbits & _).
  assert (Hempty : all_bits_set self key = false).
  { destruct (well_formed_hashes self key Hwf) as [ks [E [L _]]].
    unfold all_bits_set, bit_indices. rewrite E. cbn [fst].
    destruct ks as [|k ks]; [unfold len in L; cbn [length Z.of_nat] in L; lia|].
    cbn [absolute forallb]. rewrite Hbits, testbit_repeat_false. reflexivity. }
  split; [|split].
  - rewrite contains_spec by exact Hwf. now rewrite Hempty.
  - rewrite add_spec by (assumption || lia). now rewrite Hempty.
  - unfold inserted. cbn [count set_count]. lia.
Qed.

(** X5. A filter can always be copied after it was built by the
    constructor and any sequence of calls of [add], whatever they returned
    or raised: [copy] returns a filter equal to it in every attribute, the
    bit vector included. *)
Theorem copy_after_adds (c : Z) (e : float) (fresh : t)
        (calls : list (list byte * bool)) :
  __init__ c e = Ok fresh ->
  copy (add_all fresh calls) = Ok (add_all fresh calls).
Proof.
  intros H. apply constructed_copy. apply add_all_constructed.
  eapply init_constructed; eauto.
Qed.

End FreshFilter.

Lemma fresh_filter_is_empty_witness :
  BloomFilter.__init__ (hashlib := Demo.hashlib) (libm := Demo.libm)
                       1 Demo.rate = Ok Demo.filter8 /\
  BloomFilter.__contains__ (hashlib := Demo.hashlib) Demo.filter8 Demo.hello
  = Ok false.
Proof.
  assert (H : BloomFilter.__init__ (hashlib := Demo.hashlib)
                (libm := Demo.libm) 1 Demo.rate = Ok Demo.filter8)
    by by_evaluation.
  split; [exact H|].
  apply (@fresh_filter_is_empty Demo.hashlib Demo.libm _ _ _ Demo.hello H);
    by_evaluation.
Defined.

(** [BloomFilter(1, 0.1)] after [add("hello")] and [add("world", True)]. *)
Lemma copy_after_adds_witness :
  BloomFilter.__init__ (hashlib := Demo.hashlib) (libm := Demo.libm)
                       1 Demo.rate = Ok Demo.filter8 /\
  BloomFilter.copy (hashlib := Demo.hashlib) (libm := Demo.libm)
    (add_all (hashlib := Demo.hashlib) Demo.filter8
             [(Demo.hello, false); (Demo.world, true)])
  = Ok (add_all (hashlib := Demo.hashlib) Demo.filter8
                [(Demo.hello, false); (Demo.world, true)]).
Proof.
  assert (H : BloomFilter.__init__ (hashlib := Demo.hashlib)
                (libm := Demo.libm) 1 Demo.rate = Ok Demo.filter8)
    by by_evaluation.
  split; [exact H|].
  exact (@copy_after_adds Demo.hashlib Demo.libm _ _ _ _ H).
Defined.

(** ** Members of a union and of an intersection *)

Lemma zip_bits_comm op a b :
  (forall x y, op x y = op y x) -> zip_bits op a b = zip_bits op b a.
Proof.
  intros Hop. unfold zip_bits. revert b.
  induction a as [|x a IH]; intros [|y b]; cbn [combine map fst snd];
    try reflexivity.
  now rewrite Hop, IH.
Qed.

Lemma included_zip_or_l a b :
  length a = length b -> included a (zip_bits orb a b).
Proof.
  intros Hl i H. rewrite zip_bits_nth by (exact Hl || reflexivity).
  now rewrite H.
Qed.

Lemma included_zip_or_r a b :
  length a = length b -> included b (zip_bits orb a b).
Proof.
  intros Hl i H. rewrite zip_bits_nth by (exact Hl || reflexivity).
  rewrite H. apply orb_true_r.
Qed.

Lemma included_zip_and_l a b :
  length a = length b -> included (zip_bits andb a b) a.
Proof.
  intros Hl i. rewrite zip_bits_nth by (exact Hl || reflexivity).
  intros H. now apply andb_true_iff in H.
Qed.

Lemma included_zip_and_r a b :
  length a = length b -> included (zip_bits andb a b) b.
Proof.
  intros Hl i. rewrite zip_bits_nth by (exact Hl || reflexivity).
  intros H. now apply andb_true_iff in H.
Qed.

(** A key found in two bit vectors of one length is found in their
    bitwise AND. *)
Lemma contains_loop_and a b bps ks stop off :
  length a = length b ->
  BloomFilter.contains_loop a bps ks stop off = Ok true ->
  BloomFilter.contains_loop b bps ks stop off = Ok true ->
  BloomFilter.contains_loop (zip_bits andb a b) bps ks stop off = Ok true.
Proof.
  intros Hl. revert off.
  induction ks as [|k ks IH]; intros off; cbn [BloomFilter.contains_loop];
    [auto|].
  unfold bitarray.getitem, len. rewrite zip_bits_length by exact Hl.
  rewrite <- Hl.
  destruct (bitarray.index (Z.of_nat (length a)) (off + k)) as [i|e];
    cbn [bind]; [|discriminate].
  rewrite zip_bits_nth by (exact Hl || reflexivity).
  destruct (nth i a false); cbn [negb andb]; [|discriminate].
  destruct (nth i b false); cbn [negb]; [|discriminate].
  apply IH.
Qed.

Section MergedMembers.

Context {hashlib : Hashlib} {libm : Libm}.

Import BloomFilter.

(** Two filters built with one capacity and one error rate have the same
    sizes and the same hash functions. *)
Lemma constructed_same_fields self other :
  constructed self -> constructed other ->
  capacity self = capacity other -> error_rate self = error_rate other ->
  make_hashes self = make_hashes other /\
  bits_per_slice self = bits_per_slice other /\
  num_slices self = num_slices other /\
  num_bits self = num_bits other.
Proof.
  intros [f1 [Hi1 [Hs1 _]]] [f2 [Hi2 [Hs2 _]]] Hc He.
  rewrite Hc, He, Hi2 in Hi1. inversion Hi1; subst f1.
  rewrite Hs1, Hs2. cbn. auto.
Qed.

(** X6. [union] loses no member: for two filters built with the same
    capacity and error rate, every key that tests as a member of one of
    them tests as a member of their union. *)
Theorem union_keeps_members (self other : t) :
  constructed self -> constructed other ->
  capacity self = capacity other -> error_rate self = error_rate other ->
  exists u,
    union self other = Ok u /\
    forall key,
      __contains__ self key = Ok true \/ __contains__ other key = Ok true ->
      __contains__ u key = Ok true.
Proof.
  intros Hs Ho Hc He. exists (merged orb self other).
  split; [now apply union_spec|]. intros key.
  pose proof (constructed_same_length self other Hs Ho Hc He) as Hlen.
  destruct (constructed_same_fields self other Hs Ho Hc He) as [Hh [Hb _]].
  unfold __contains__, merged. cbv zeta.
  cbn [make_hashes bits_per_slice bitarray set_count set_bitarray].
  rewrite <- Hh, <- Hb.
  destruct (hashes (make_hashes self) key) as [ks stop].
  intros [H|H]; revert H; apply contains_loop_mono.
  - unfold len. now rewrite zip_bits_length.
  - now apply included_zip_or_l.
  - unfold len. rewrite zip_bits_length by exact Hlen. now rewrite Hlen.
  - now apply included_zip_or_r.
Qed.

(** X7. The members of an intersection: for two filters built with the
    same capacity and error rate, a key tests as a member of their
    intersection exactly when it tests as a member of both. *)
Theorem intersection_members (self other : t) :
  constructed self -> constructed other ->
  capacity self = capacity other -> error_rate self = error_rate other ->
  exists i,
    intersection self other = Ok i /\
    forall key,
      __contains__ i key = Ok true
      <-> __contains__ self key = Ok true /\ __contains__ other key = Ok true.
Proof.
  intros Hs Ho Hc He. exists (merged andb self other).
  split; [now apply intersection_spec|]. intros key.
  pose proof (constructed_same_length self other Hs Ho Hc He) as Hlen.
  destruct (constructed_same_fields self other Hs Ho Hc He) as [Hh [Hb _]].
  unfold __contains__, merged. cbv zeta.
  cbn [make_hashes bits_per_slice bitarray set_count set_bitarray].
  rewrite <- Hh, <- Hb.
  destruct (hashes (make_hashes self) key) as [ks stop].
  split.
  - intros H. split; revert H; apply contains_loop_mono.
    + unfold len. now rewrite zip_bits_length.
    + now apply included_zip_and_l.
    + unfold len. rewrite zip_bits_length by exact Hlen. now rewrite Hlen.
    + now apply included_zip_and_r.
  - intros [H1 H2]. now apply contains_loop_and.
Qed.

(** X8. [union] and [intersection] are commutative on filters built with
    the same capacity and error rate: the two orders give the same filter,
    count included, since the count is estimated from the merged bits and
    the counts of the operands play no part. *)
Theorem union_intersection_commute (self other : t) :
  constructed self -> constructed other ->
  capacity self = capacity other -> error_rate self = error_rate other ->
  union self other = union other self /\
  intersection self other = intersection other self.
Proof.
  intros Hs Ho Hc He.
  assert (Hm : forall op, (forall x y, op x y = op y x) ->
                          merged op self other = merged op other self).
  { intros op Hop.
    destruct (constructed_same_fields self other Hs Ho Hc He)
      as [Hh [Hb [Hn Hnb]]].
    unfold merged. cbv zeta.
    rewrite (zip_bits_comm op (bitarray other) (bitarray self)) by exact Hop.
    rewrite <- Hn, <- Hnb.
    unfold set_count, set_bitarray.
    cbn [error_rate num_slices bits_per_slice capacity num_bits make_hashes
         bitarray count].
    now rewrite Hc, He, Hh, Hb, Hn, Hnb. }
  split.
  - rewrite !union_spec by (assumption || congruence).
    f_equal. apply Hm. apply orb_comm.
  - rewrite !intersection_spec by (assumption || congruence).
    f_equal. apply Hm. apply andb_comm.
Qed.

End MergedMembers.

(** [hello] and [world] are members of the union of the two filters that
    hold one of them each. *)
Lemma union_keeps_members_witness :
  constructed (hashlib := Demo.hashlib) (libm := Demo.libm) Demo.filter_hello /\
  constructed (hashlib := Demo.hashlib) (libm := Demo.libm) Demo.filter_world /\
  exists u,
    BloomFilter.union (hashlib := Demo.hashlib) (libm := Demo.libm)
                      Demo.filter_hello Demo.filter_world = Ok u /\
    BloomFilter.__contains__ (hashlib := Demo.hashlib) u Demo.hello = Ok true /\
    BloomFilter.__contains__ (hashlib := Demo.hashlib) u Demo.world = Ok true.
Proof.
  assert (Hh : constructed (hashlib := Demo.hashlib) (libm := Demo.libm)
                           Demo.filter_hello)
    by constructed_by_evaluation Demo.sub_filter0.
  assert (Hw : constructed (hashlib := Demo.hashlib) (libm := Demo.libm)
                           Demo.filter_world)
    by constructed_by_evaluation Demo.sub_filter0.
  split; [exact Hh|]. split; [exact Hw|].
  destruct (@union_keeps_members Demo.hashlib Demo.libm
              Demo.filter_hello Demo.filter_world Hh Hw eq_refl eq_refl)
    as [u [Hu Hm]].
  exists u. split; [exact Hu|].
  split; apply Hm; [left | right]; by_evaluation.
Defined.

(** [hello] is a member of one of the two filters only, and no member of
    their intersection. *)
Lemma intersection_members_witness :
  constructed (hashlib := Demo.hashlib) (libm := Demo.libm) Demo.filter_hello /\
  constructed (hashlib := Demo.hashlib) (libm := Demo.libm) Demo.filter_world /\
  exists i,
    BloomFilter.intersection (hashlib := Demo.hashlib) (libm := Demo.libm)
                             Demo.filter_hello Demo.filter_world = Ok i /\
    BloomFilter.__contains__ (hashlib := Demo.hashlib) i Demo.hello <> Ok true.
Proof.
  assert (Hh : constructed (hashlib := Demo.hashlib) (libm := Demo.libm)
                           Demo.filter_hello)
    by constructed_by_evaluation Demo.sub_filter0.
  assert (Hw : constructed (hashlib := Demo.hashlib) (libm := Demo.libm)
                           Demo.filter_world)
    by constructed_by_evaluation Demo.sub_filter0.
  split; [exact Hh|]. split; [exact Hw|].
  destruct (@intersection_members Demo.hashlib Demo.libm
              Demo.filter_hello Demo.filter_world Hh Hw eq_refl eq_refl)
    as [i [Hi Hm]].
  exists i. split; [exact Hi|].
  intros H. apply Hm in H. destruct H as [_ H]. revert H. by_evaluation.
Defined.

Lemma union_intersection_commute_witness :
  constructed (hashlib := Demo.hashlib) (libm := Demo.libm) Demo.filter_hello /\
  constructed (hashlib := Demo.hashlib) (libm := Demo.libm) Demo.filter_world /\
  BloomFilter.union (hashlib := Demo.hashlib) (libm := Demo.libm)
                    Demo.filter_hello Demo.filter_world
  = BloomFilter.union (hashlib := Demo.hashlib) (libm := Demo.libm)
                      Demo.filter_world Demo.filter_hello.
Proof.
  assert (Hh : constructed (hashlib := Demo.hashlib) (libm := Demo.libm)
                           Demo.filter_hello)
    by constructed_by_evaluation Demo.sub_filter0.
  assert (Hw : constructed (hashlib := Demo.hashlib) (libm := Demo.libm)
                           Demo.filter_world)
    by constructed_by_evaluation Demo.sub_filter0.
  split; [exact Hh|]. split; [exact Hw|].
  apply (@union_intersection_commute Demo.hashlib Demo.libm
           Demo.filter_hello Demo.filter_world Hh Hw eq_refl eq_refl).
Defined.

(** ** The generator on every size *)

(** What the inner loop yields lies inside one slice, and the counter never
    passes the number of slices. *)
Lemma emit_bounds ns nb us i :
  0 <= nb -> i < ns ->
  Forall (fun p => 0 <= p < nb) (fst (emit ns nb us i)) /\
  i + len (fst (emit ns nb us i)) <= ns /\
  forall i', snd (emit ns nb us i) = Continue i' ->
             i' = i + len (fst (emit ns nb us i)) /\ i' < ns.
Proof.
  intros Hnb. revert i.
  induction us as [|u us IH]; intros i Hi; cbn [emit].
  - cbn [fst snd]. rewrite (@len_nil Z). split; [constructor|]. split; [lia|].
    intros i' H. inversion H. lia.
  - destruct (Z.eqb_spec nb 0) as [Hz|Hz].
    { cbn [fst snd]. rewrite (@len_nil Z). split; [constructor|]. split; [lia|].
      discriminate. }
    destruct (Z.geb_spec (i + 1) ns) as [Hge|Hlt].
    { cbn [fst snd]. rewrite len_cons, (@len_nil Z).
      split; [|split; [lia | discriminate]].
      constructor; [|constructor]. apply Z.mod_pos_bound. lia. }
    destruct (IH (i + 1) Hlt) as [F [L C]].
    destruct (emit ns nb us (i + 1)) as [ys st]. cbn [fst snd] in *.
    rewrite len_cons. split; [|split; [lia|]].
    + constructor; [|exact F]. apply Z.mod_pos_bound. lia.
    + intros i' H. destruct (C i' H). lia.
Qed.

Section GeneratorBounds.

Context {hashlib : Hashlib}.

Lemma run_salts_bounds hf key salts i :
  0 <= hf_num_bits hf -> i < hf_num_slices hf ->
  Forall (fun p => 0 <= p < hf_num_bits hf) (fst (run_salts hf key salts i)) /\
  i + len (fst (run_salts hf key salts i)) <= hf_num_slices hf.
Proof.
  intros Hnb. revert i.
  induction salts as [|salt rest IH]; intros i Hi; cbn [run_salts].
  - cbn [fst]. rewrite (@len_nil Z). split; [constructor | lia].
  - destruct (unpack_uints _ _ _) as [us|e].
    2:{ cbn [fst]. rewrite (@len_nil Z). split; [constructor | lia]. }
    destruct (emit_bounds (hf_num_slices hf) (hf_num_bits hf) us i Hnb Hi)
      as [F [L C]].
    destruct (emit (hf_num_slices hf) (hf_num_bits hf) us i) as [ys [i'| |e]];
      cbn [fst snd] in *; try (split; assumption).
    destruct (C i' eq_refl) as [E Hi'].
    destruct (IH i' Hi') as [F' L'].
    destruct (run_salts hf key rest i') as [zs r]. cbn [fst] in *.
    rewrite len_app. split; [|lia]. apply Forall_app. now split.
Qed.

Lemma make_hashfuncs_fields ns nb hf :
  make_hashfuncs ns nb = Ok hf -> hf_num_slices hf = ns /\ hf_num_bits hf = nb.
Proof.
  unfold make_hashfuncs. cbv zeta.
  destruct (mapM _ _); cbn [bind]; [|discriminate].
  inversion 1; subst. cbn. auto.
Qed.

(** Without a slice there is no salt. *)
Lemma make_hashfuncs_no_slices ns nb hf :
  ns <= 0 -> make_hashfuncs ns nb = Ok hf -> hf_salts hf = [].
Proof.
  intros Hns. unfold make_hashfuncs. cbv zeta.
  set (chunk_size := if nb >=? 2 ^ 31 then 8%nat
                     else if nb >=? 2 ^ 15 then 4%nat else 2%nat).
  assert (Hc : (chunk_size = 2 \/ chunk_size = 4 \/ chunk_size = 8)%nat).
  { unfold chunk_size.
    destruct (nb >=? 2 ^ 31); [|destruct (nb >=? 2 ^ 15)]; auto. }
  assert (Hsalts : forall hashfn,
             (if 8 * ns * Z.of_nat chunk_size >? 384 then sha512
              else if 8 * ns * Z.of_nat chunk_size >? 256 then sha384
              else if 8 * ns * Z.of_nat chunk_size >? 160 then sha256
              else if 8 * ns * Z.of_nat chunk_size >? 128 then sha1
              else md5) = hashfn -> hashfn = md5).
  { intros h <-.
    repeat match goal with
           | |- context [?a >? ?b] => destruct (Z.gtb_spec a b); [nia|]
           end.
    reflexivity. }
  rewrite (Hsalts _ eq_refl).
  set (fmt_len := (digest_size md5 / chunk_size)%nat).
  assert (Hf : 0 < Z.of_nat fmt_len).
  { unfold fmt_len. destruct Hc as [-> | [-> | ->]]; cbv; reflexivity. }
  set (num_salts := if ns mod Z.of_nat fmt_len =? 0
                    then ns / Z.of_nat fmt_len
                    else ns / Z.of_nat fmt_len + 1).
  assert (Hn : num_salts <= 0).
  { unfold num_salts.
    pose proof (Z.div_mod ns (Z.of_nat fmt_len) ltac:(lia)) as Hdm.
    pose proof (Z.mod_pos_bound ns (Z.of_nat fmt_len) Hf) as Hmb.
    destruct (Z.eqb_spec (ns mod Z.of_nat fmt_len) 0); nia. }
  assert (Hr : range_fn num_salts = []).
  { unfold range_fn. replace (Z.to_nat num_salts) with 0%nat by lia.
    reflexivity. }
  rewrite Hr. cbn [mapM bind]. inversion 1; subst. reflexivity.
Qed.

(** Every position the generator yields lies inside one slice, and there
    are no more positions than slices: on every size, also when the
    generator ends with an exception. *)
Lemma hashes_bounds ns nb hf key :
  make_hashfuncs ns nb = Ok hf -> 0 <= nb ->
  Forall (fun p => 0 <= p < nb) (fst (hashes hf key)) /\
  len (fst (hashes hf key)) <= Z.max 0 ns.
Proof.
  intros H Hnb. destruct (make_hashfuncs_fields _ _ _ H) as [E1 E2].
  unfold hashes. destruct (Z_lt_le_dec 0 ns) as [Hpos|Hneg].
  - destruct (run_salts_bounds hf key (hf_salts hf) 0) as [F L];
      rewrite ?E1, ?E2 in *; try assumption.
    split; [exact F | lia].
  - rewrite (make_hashfuncs_no_slices _ _ _ Hneg H). cbn [run_salts fst].
    rewrite (@len_nil Z). split; [constructor | lia].
Qed.

(** With slices of no bit, the generator raises before it yields. *)
Lemma hashes_no_bits ns hf key :
  0 < ns -> make_hashfuncs ns 0 = Ok hf ->
  hashes hf key = ([], Some ZeroDivisionError).
Proof.
  intros Hns H.
  destruct (make_hashfuncs_inv ns 0 hf Hns H) as [E1 [E2 [Hal Hc]]].
  unfold hashes. destruct (hf_salts hf) as [|salt rest].
  { unfold len in Hc; cbn [length Z.of_nat] in Hc. lia. }
  cbn [run_salts].
  destruct (unpack_uints_exact (hf_chunk_size hf) (hf_fmt_len hf)
              (digest (hf_hashfn hf) (salt ++ key))) as [us [E L]].
  { rewrite digest_length. symmetry. exact Hal. }
  rewrite E. destruct us as [|u us].
  { cbn [length] in L. rewrite <- L in Hc. pose proof (len_nonneg (salt :: rest)).
    lia. }
  cbn [emit]. rewrite E2. reflexivity.
Qed.

End GeneratorBounds.

(** ** What [tofile] writes and what [fromfile] rejects *)

Lemma pack_bits_length n a : length (bitarray.pack_bits n a) = n.
Proof.
  revert a. induction n as [|n IH]; intros a; cbn [bitarray.pack_bits length];
    [reflexivity | now rewrite IH].
Qed.

Lemma tobytes_length a : len (bitarray.tobytes a) = (len a + 7) / 8.
Proof.
  unfold bitarray.tobytes, len. rewrite pack_bits_length.
  rewrite Nat2Z.inj_div, Nat2Z.inj_add. reflexivity.
Qed.

Lemma pack_uint_raises w z :
  ~ (0 <= z < 2 ^ (8 * Z.of_nat w)) -> pack_uint w z = Raise StructError.
Proof.
  intros H. unfold pack_uint.
  destruct (Z.leb_spec 0 z); [|reflexivity].
  destruct (Z.ltb_spec z (2 ^ (8 * Z.of_nat w))); [lia|reflexivity].
Qed.

Lemma pack_uint_cases w z :
  (0 <= z < 2 ^ (8 * Z.of_nat w) /\ pack_uint w z = Ok (le_bytes w z)) \/
  (~ (0 <= z < 2 ^ (8 * Z.of_nat w)) /\ pack_uint w z = Raise StructError).
Proof.
  destruct (Z_le_gt_dec 0 z); [destruct (Z_lt_le_dec z (2 ^ (8 * Z.of_nat w)))|].
  - left. split; [lia|]. apply pack_uint_range. lia.
  - right. split; [lia|]. apply pack_uint_raises. lia.
  - right. split; [lia|]. apply pack_uint_raises. lia.
Qed.

Section FileFormat.

Context {hashlib : Hashlib} {libm : Libm}.

Import BloomFilter.

(** X9. What [tofile] writes: when the four integer attributes fit an
    unsigned 64-bit field, the file receives a header of 40 bytes that
    unpacks to the error rate and the four integers, followed by the bit
    vector in [(num_bits + 7) // 8] bytes.  When one of them is negative
    or too large, [tofile] raises [struct.error]. *)
Theorem tofile_outcome (self : t) (f : list byte) :
  (u64 (num_slices self) /\ u64 (bits_per_slice self) /\
   u64 (capacity self) /\ u64 (count self) ->
   exists header,
     tofile self f = Ok (f ++ header ++ bitarray.tobytes (bitarray self)) /\
     len header = headerlen /\
     unpack_dQQQQ header
     = Ok (error_rate self, num_slices self, bits_per_slice self,
           capacity self, count self) /\
     len (bitarray.tobytes (bitarray self))
     = (len (bitarray self) + 7) / 8) /\
  (~ (u64 (num_slices self) /\ u64 (bits_per_slice self) /\
      u64 (capacity self) /\ u64 (count self)) ->
   tofile self f = Raise StructError).
Proof.
  unfold u64, tofile, pack_dQQQQ.
  change (2 ^ 64) with (2 ^ (8 * Z.of_nat 8)).
  destruct (pack_uint_cases 8 (num_slices self)) as [[R1 ->]|[R1 ->]];
    [|split; [tauto | reflexivity]].
  destruct (pack_uint_cases 8 (bits_per_slice self)) as [[R2 ->]|[R2 ->]];
    [|split; [tauto | reflexivity]].
  destruct (pack_uint_cases 8 (capacity self)) as [[R3 ->]|[R3 ->]];
    [|split; [tauto | reflexivity]].
  destruct (pack_uint_cases 8 (count self)) as [[R4 ->]|[R4 ->]];
    [|split; [tauto | reflexivity]].
  cbn [bind]. split; [|tauto]. intros _.
  eexists. split; [reflexivity|].
  assert (Hh : pack_dQQQQ (error_rate self) (num_slices self)
                 (bits_per_slice self) (capacity self) (count self)
               = Ok (pack_double (error_rate self)
                     ++ le_bytes 8 (num_slices self)
                     ++ le_bytes 8 (bits_per_slice self)
                     ++ le_bytes 8 (capacity self)
                     ++ le_bytes 8 (count self))).
  { unfold pack_dQQQQ. now rewrite !pack_uint_range by assumption. }
  destruct (unpack_pack_dQQQQ _ _ _ _ _ _ Hh) as [Hl Hu].
  split; [unfold len, headerlen; now rewrite Hl|].
  split; [exact Hu | apply tobytes_length].
Qed.

(** X10. What [fromfile] rejects before it looks at the bits: a size [n]
    between 1 and 39 is too small, whatever the file holds; a file of
    fewer than 40 bytes has no header and [unpack] raises
    [struct.error]; and a file object that is no [StringIO], asked for
    more bytes than follow the header, ends with [EOFError]. *)
Theorem fromfile_truncated (is_string_io : bool) (f : list byte) (n : Z) :
  (0 < n < headerlen -> fromfile is_string_io f n = Raise n_too_small) /\
  ((exists bogus, __init__ 1 default_error_rate = Ok bogus) ->
   n <= 0 \/ headerlen <= n -> len f < headerlen ->
   fromfile is_string_io f n = Raise StructError) /\
  (forall error_rate num_slices bits_per_slice capacity count header hf data,
     (exists bogus, __init__ 1 default_error_rate = Ok bogus) ->
     pack_dQQQQ error_rate num_slices bits_per_slice capacity count
     = Ok header ->
     make_hashfuncs num_slices bits_per_slice = Ok hf ->
     f = header ++ data -> headerlen + len data < n ->
     fromfile false f n = Raise EOFError).
Proof.
  unfold headerlen. split; [|split].
  - intros Hn. unfold fromfile, headerlen.
    destruct (Z.ltb_spec 0 n); [|lia]. destruct (Z.ltb_spec n 40); [|lia].
    reflexivity.
  - intros [bogus Hb] Hn Hf. unfold fromfile, headerlen.
    assert (Hsmall : (0 <? n) && (n <? 40) = false).
    { destruct (Z.ltb_spec 0 n); [|reflexivity].
      destruct (Z.ltb_spec n 40); [lia|reflexivity]. }
    rewrite Hsmall, Hb. cbn [bind]. unfold unpack_dQQQQ.
    rewrite firstn_all2 by (unfold len in Hf; lia).
    destruct (Nat.eqb_spec (length f) 40); [unfold len in Hf; lia|].
    reflexivity.
  - intros e ns bps c cnt header hf data [bogus Hb] Hh Hhf -> Hn.
    destruct (unpack_pack_dQQQQ _ _ _ _ _ _ Hh) as [Hl Hu].
    pose proof (len_nonneg data) as Hd.
    unfold fromfile, headerlen.
    assert (Hsmall : (0 <? n) && (n <? 40) = false).
    { destruct (Z.ltb_spec 0 n); [|reflexivity].
      destruct (Z.ltb_spec n 40); [lia|reflexivity]. }
    rewrite Hsmall, Hb. cbn [bind].
    change (Z.to_nat 40) with 40%nat. rewrite <- Hl.
    rewrite firstn_app, Nat.sub_diag, firstn_all. cbn [firstn].
    rewrite app_nil_r.
    rewrite skipn_app, Nat.sub_diag, skipn_all. cbn [skipn app].
    rewrite Hu. cbn [bind]. unfold _setup. rewrite Hhf. cbn [bind].
    unfold read_bits, headerlen.
    destruct (Z.gtb_spec n 0); [|lia]. cbn [negb andb].
    destruct (Nat.ltb_spec (length data) (Z.to_nat (n - 40)));
      [reflexivity | unfold len in Hn; lia].
Qed.

End FileFormat.

(** ** A filter and the filter read back from its file *)

Lemma contains_loop_app bits pad bps ks stop off :
  Forall (fun i => 0 <= i < len bits) (absolute bps ks off) ->
  BloomFilter.contains_loop (bits ++ pad) bps ks stop off
  = BloomFilter.contains_loop bits bps ks stop off.
Proof.
  revert off. induction ks as [|k ks IH]; intros off H;
    cbn [BloomFilter.contains_loop absolute] in *; [reflexivity|].
  inversion H as [|? ? Hk Hks]; subst.
  rewrite !getitem_in_range by (rewrite ?len_app; pose proof (len_nonneg pad); lia).
  cbn [bind]. unfold testbit.
  rewrite app_nth1 by (unfold len in Hk; lia).
  destruct (nth _ bits false); cbn [negb]; [|reflexivity].
  now apply IH.
Qed.

Section RoundTrip.

Context {hashlib : Hashlib} {libm : Libm}.

Import BloomFilter.

(** [fromfile] with the size of what it is to read, on a header followed
    by [data] and by more bytes: the bytes after [data] are left unread. *)
Lemma fromfile_sized is_string_io error_rate num_slices bits_per_slice
      capacity count header hf data more :
  (exists bogus, __init__ 1 default_error_rate = Ok bogus) ->
  pack_dQQQQ error_rate num_slices bits_per_slice capacity count = Ok header ->
  make_hashfuncs num_slices bits_per_slice = Ok hf ->
  fromfile is_string_io (header ++ data ++ more) (headerlen + len data)
  = if length_accepted (num_slices * bits_per_slice) (len data)
    then Ok (restored hf (bitarray.frombytes data) error_rate num_slices
                      bits_per_slice capacity count, more)
    else Raise bit_length_mismatch.
Proof.
  intros [bogus Hb] Hh Hhf.
  destruct (unpack_pack_dQQQQ _ _ _ _ _ _ Hh) as [Hl Hu].
  pose proof (len_nonneg data) as Hd.
  unfold fromfile.
  assert (Hsmall : (0 <? headerlen + len data)
                   && (headerlen + len data <? headerlen) = false).
  { unfold headerlen. destruct (Z.ltb_spec 0 (40 + len data)); [|reflexivity].
    destruct (Z.ltb_spec (40 + len data) 40); [lia|reflexivity]. }
  rewrite Hsmall, Hb. cbn [bind].
  change (Z.to_nat headerlen) with 40%nat. rewrite <- Hl.
  rewrite firstn_app, Nat.sub_diag, firstn_all. cbn [firstn]. rewrite app_nil_r.
  rewrite skipn_app, Nat.sub_diag, skipn_all. cbn [skipn app].
  rewrite Hu. cbn [bind]. unfold _setup. rewrite Hhf. cbn [bind].
  unfold read_bits, headerlen.
  destruct (Z.gtb_spec (40 + len data) 0); [|lia].
  replace (Z.to_nat (40 + len data - 40)) with (length data)
    by (unfold len; lia).
  rewrite length_app.
  destruct (Nat.ltb_spec (length data + length more) (length data)); [lia|].
  rewrite andb_false_r.
  rewrite firstn_app, Nat.sub_diag, firstn_all. cbn [firstn]. rewrite app_nil_r.
  rewrite skipn_app, Nat.sub_diag, skipn_all. cbn [skipn app bind].
  cbn [num_bits bitarray set_bitarray]. rewrite frombytes_length.
  unfold length_accepted, restored.
  destruct (_ =? _); [reflexivity|]. destruct (_ =? _); reflexivity.
Qed.

(** The length test accepts the bytes [tobytes] gives for a bit vector of
    [num_bits] bits. *)
Lemma tobytes_accepted bits num_bits :
  len bits = num_bits ->
  length_accepted num_bits (len (bitarray.tobytes bits)) = true.
Proof.
  intros Hlen.
  assert (Hpad : 8 * len (bitarray.tobytes bits)
                 = num_bits + (- num_bits) mod 8).
  { rewrite <- frombytes_length, frombytes_tobytes, len_app, Hlen.
    unfold len. rewrite repeat_length. rewrite Z2Nat.id; [reflexivity|].
    apply Z.mod_pos_bound. lia. }
  unfold length_accepted. rewrite Hpad.
  pose proof (Z.mod_pos_bound num_bits 8 ltac:(lia)) as Hm.
  destruct (Z.eq_dec (num_bits mod 8) 0) as [Hz|Hnz].
  - assert ((- num_bits) mod 8 = 0) by (apply Z.mod_opp_l_z; lia).
    apply orb_true_iff. left. apply Z.eqb_eq. lia.
  - assert ((- num_bits) mod 8 = 8 - num_bits mod 8)
      by (apply Z.mod_opp_l_nz; lia).
    apply orb_true_iff. right. apply Z.eqb_eq. lia.
Qed.

Lemma storable_header self :
  storable self ->
  exists header,
    pack_dQQQQ (error_rate self) (num_slices self) (bits_per_slice self)
               (capacity self) (count self) = Ok header /\
    length header = 40%nat.
Proof.
  intros (_ & _ & _ & R1 & R2 & R3 & R4). unfold u64 in *.
  eexists. split.
  - unfold pack_dQQQQ. rewrite !pack_uint_range by assumption. reflexivity.
  - rewrite !length_app, !le_bytes_length. unfold pack_double.
    now rewrite le_bytes_length.
Qed.

Lemma storable_restored self :
  storable self ->
  restored (make_hashes self)
           (bitarray.frombytes (bitarray.tobytes (bitarray self)))
           (error_rate self) (num_slices self) (bits_per_slice self)
           (capacity self) (count self)
  = padded self.
Proof.
  intros (Hnb & Hlen & _). rewrite frombytes_tobytes, Hlen.
  unfold restored, padded, set_bitarray. now rewrite Hnb.
Qed.

(** Writing a storable filter and reading it back, to the end of the file
    or with the size written, gives the padded filter and leaves what
    follows it unread. *)
Lemma storable_round_trip self is_string_io header :
  (exists bogus, __init__ 1 default_error_rate = Ok bogus) ->
  storable self ->
  pack_dQQQQ (error_rate self) (num_slices self) (bits_per_slice self)
             (capacity self) (count self) = Ok header ->
  (forall f, tofile self f
             = Ok (f ++ header ++ bitarray.tobytes (bitarray self))) /\
  (forall more,
     fromfile is_string_io
       (header ++ bitarray.tobytes (bitarray self) ++ more)
       (headerlen + len (bitarray.tobytes (bitarray self)))
     = Ok (padded self, more)) /\
  (forall n, n <= 0 ->
     fromfile is_string_io (header ++ bitarray.tobytes (bitarray self)) n
     = Ok (padded self, [])).
Proof.
  intros Hb Hs Hh. pose proof Hs as (Hnb & Hlen & Hhf & _).
  split; [|split].
  - intros f. unfold tofile. now rewrite Hh.
  - intros more. rewrite (fromfile_sized _ _ _ _ _ _ _ _ _ _ Hb Hh Hhf).
    rewrite <- Hnb, tobytes_accepted by exact Hlen.
    now rewrite storable_restored.
  - intros n Hn.
    rewrite (fromfile_spec _ _ _ _ _ _ _ _ _ _ Hb Hh Hhf) by (now left).
    rewrite <- Hnb, tobytes_accepted by exact Hlen.
    now rewrite storable_restored.
Qed.

(** The bits a key hashes to in a storable filter lie inside its bit
    vector. *)
Lemma storable_indices self key :
  storable self ->
  Forall (fun i => 0 <= i < len (bitarray self))
         (absolute (bits_per_slice self)
                   (fst (hashes (make_hashes self) key)) 0).
Proof.
  intros (Hnb & Hlen & Hhf & [Hns _] & [Hbps _] & _).
  destruct (hashes_bounds _ _ _ key Hhf Hbps) as [F L].
  rewrite Z.max_r in L by exact Hns.
  destruct (Z.eq_dec (bits_per_slice self) 0) as [Hz|Hnz].
  - destruct (fst (hashes (make_hashes self) key)) as [|k ks];
      [constructor|].
    inversion F; subst. lia.
  - eapply Forall_impl;
      [|apply (absolute_bounds (bits_per_slice self) _ 0 ltac:(lia) F)].
    cbv beta. intros i Hi. rewrite Hlen, Hnb.
    pose proof (len_nonneg (fst (hashes (make_hashes self) key))). nia.
Qed.

(** X11. Membership survives the file: a filter written with [tofile] and
    read back with [fromfile] answers the membership test as the filter
    written does, for every key, and has the same count.  The filter is
    one [_setup] made, with integers that fit the format, of whatever
    sizes. *)
Theorem file_keeps_members (self : t) (is_string_io : bool) :
  (exists bogus, __init__ 1 default_error_rate = Ok bogus) ->
  storable self ->
  exists bytes read_back,
    tofile self [] = Ok bytes /\
    fromfile is_string_io bytes (-1) = Ok (read_back, []) /\
    count read_back = count self /\
    forall key, __contains__ read_back key = __contains__ self key.
Proof.
  intros Hb Hs. destruct (storable_header self Hs) as [header [Hh _]].
  destruct (storable_round_trip self is_string_io header Hb Hs Hh)
    as [Hto [_ Hfrom]].
  exists (header ++ bitarray.tobytes (bitarray self)), (padded self).
  split; [apply (Hto [])|]. split; [apply Hfrom; lia|].
  split; [reflexivity|]. intros key.
  unfold __contains__, padded.
  cbn [make_hashes bits_per_slice bitarray set_bitarray].
  pose proof (storable_indices self key Hs) as Hi.
  destruct (hashes (make_hashes self) key) as [ks stop]. cbn [fst] in Hi.
  now apply contains_loop_app.
Qed.

Lemma constructed_storable self :
  constructed self ->
  u64 (num_slices self) -> u64 (bits_per_slice self) ->
  u64 (capacity self) -> u64 (count self) ->
  storable self.
Proof.
  intros [fresh [Hi [Hs Hl]]] R1 R2 R3 R4.
  pose proof (BloomFilter_init_inv _ _ _ Hi)
    as (_ & _ & _ & _ & _ & _ & Hnb & Hhf & _).
  assert (E : num_bits self = num_bits fresh /\
              num_slices self = num_slices fresh /\
              bits_per_slice self = bits_per_slice fresh /\
              make_hashes self = make_hashes fresh)
    by (rewrite Hs; cbn; auto).
  destruct E as (E1 & E2 & E3 & E4).
  repeat split; try (apply R1 || apply R2 || apply R3 || apply R4);
    try assumption; congruence.
Qed.

(** X12. A filter read back from its file does not merge with the filter
    it was written from, when the number of bits is no multiple of eight:
    the bit vector read has the padding bits, the operands of [|] and
    [&] differ in length, and [union] and [intersection] raise the
    [ValueError] of [bitarray], in both orders. *)
Theorem read_back_filter_does_not_merge (self : t) (is_string_io : bool) :
  (exists bogus, __init__ 1 default_error_rate = Ok bogus) ->
  constructed self ->
  u64 (num_slices self) -> u64 (bits_per_slice self) ->
  u64 (capacity self) -> u64 (count self) ->
  num_bits self mod 8 <> 0 ->
  exists bytes read_back,
    tofile self [] = Ok bytes /\
    fromfile is_string_io bytes (-1) = Ok (read_back, []) /\
    union self read_back = Raise bitarray.length_error /\
    union read_back self = Raise bitarray.length_error /\
    intersection self read_back = Raise bitarray.length_error /\
    intersection read_back self = Raise bitarray.length_error.
Proof.
  intros Hb Hc R1 R2 R3 R4 Hm.
  pose proof (constructed_storable self Hc R1 R2 R3 R4) as Hs.
  destruct (storable_header self Hs) as [header [Hh _]].
  destruct (storable_round_trip self is_string_io header Hb Hs Hh)
    as [Hto [_ Hfrom]].
  exists (header ++ bitarray.tobytes (bitarray self)), (padded self).
  split; [apply (Hto [])|]. split; [apply Hfrom; lia|].
  pose proof (constructed_rate_eqb self Hc) as He.
  pose proof (constructed_copy self Hc) as Hcopy.
  assert (Hcopy' : copy (padded self) = Ok (padded self)).
  { unfold copy, padded in *.
    cbn [capacity error_rate count bitarray set_bitarray].
    destruct (__init__ (capacity self) (error_rate self)) as [fresh|];
      [|discriminate].
    cbn [bind] in *. inversion Hcopy as [Hself]. rewrite Hself at 4.
    reflexivity. }
  assert (Hpad : (0 < length (repeat false
                                (Z.to_nat ((- num_bits self) mod 8))))%nat).
  { rewrite repeat_length.
    pose proof (Z.mod_pos_bound (num_bits self) 8 ltac:(lia)).
    rewrite Z.mod_opp_l_nz by lia. lia. }
  assert (Hl1 : (len (bitarray self) =? len (bitarray (padded self))) = false).
  { unfold padded. cbn [bitarray set_bitarray]. rewrite len_app.
    apply Z.eqb_neq. unfold len. lia. }
  assert (Hl2 : (len (bitarray (padded self)) =? len (bitarray self)) = false).
  { rewrite Z.eqb_sym. exact Hl1. }
  assert (Hcheck1 : negb (capacity self =? capacity (padded self))
                    || negb (error_rate self =? error_rate (padded self))%float
                    = false).
  { unfold padded. cbn [capacity error_rate set_bitarray].
    now rewrite Z.eqb_refl, He. }
  assert (Hcheck2 : negb (capacity (padded self) =? capacity self)
                    || negb (error_rate (padded self) =? error_rate self)%float
                    = false).
  { unfold padded. cbn [capacity error_rate set_bitarray].
    now rewrite Z.eqb_refl, He. }
  unfold union, intersection, bitarray.or, bitarray.and, bitarray.bitwise.
  rewrite Hcheck1, Hcheck2, Hcopy, Hcopy'. cbn [bind].
  rewrite Hl1, Hl2. repeat split; reflexivity.
Qed.

End RoundTrip.

(** [BloomFilter(2, 0.1)], twelve bits, written and read back. *)
Lemma file_keeps_members_witness :
  storable (hashlib := Demo.hashlib) Demo.filter12 /\
  exists bytes read_back,
    BloomFilter.tofile Demo.filter12 [] = Ok bytes /\
    BloomFilter.fromfile (hashlib := Demo.hashlib) (libm := Demo.libm)
                         true bytes (-1) = Ok (read_back, []) /\
    BloomFilter.__contains__ (hashlib := Demo.hashlib) read_back Demo.hello
    = BloomFilter.__contains__ (hashlib := Demo.hashlib) Demo.filter12
                               Demo.hello.
Proof.
  assert (Hs : storable (hashlib := Demo.hashlib) Demo.filter12).
  { unfold storable, u64. repeat split; by_evaluation. }
  split; [exact Hs|].
  destruct (@file_keeps_members Demo.hashlib Demo.libm Demo.filter12 true)
    as [bytes [read_back [Hto [Hfrom [_ Hm]]]]].
  - eexists. by_evaluation.
  - exact Hs.
  - exists bytes, read_back. split; [exact Hto|]. split; [exact Hfrom|].
    apply Hm.
Defined.

Lemma read_back_filter_does_not_merge_witness :
  constructed (hashlib := Demo.hashlib) (libm := Demo.libm) Demo.filter12 /\
  BloomFilter.num_bits Demo.filter12 mod 8 <> 0 /\
  exists bytes read_back,
    BloomFilter.tofile Demo.filter12 [] = Ok bytes /\
    BloomFilter.fromfile (hashlib := Demo.hashlib) (libm := Demo.libm)
                         true bytes (-1) = Ok (read_back, []) /\
    BloomFilter.union (hashlib := Demo.hashlib) (libm := Demo.libm)
                      Demo.filter12 read_back
    = Raise bitarray.length_error.
Proof.
  assert (Hc : constructed (hashlib := Demo.hashlib) (libm := Demo.libm)
                           Demo.filter12)
    by constructed_by_evaluation Demo.filter12.
  assert (Hm : BloomFilter.num_bits Demo.filter12 mod 8 <> 0) by by_evaluation.
  split; [exact Hc|]. split; [exact Hm|].
  destruct (@read_back_filter_does_not_merge Demo.hashlib Demo.libm
              Demo.filter12 true)
    as [bytes [read_back [Hto [Hfrom [Hu _]]]]];
    try exact Hc; try exact Hm;
    try (unfold u64; split; by_evaluation).
  - eexists. by_evaluation.
  - exists bytes, read_back. auto.
Defined.

(** ** Filters of degenerate sizes, and pickling *)

Section Degenerate.

Context {hashlib : Hashlib}.

Import BloomFilter.

(** X13. The sizes [_setup] accepts without a test, as when a header read
    by [fromfile] carries them.  With no slice, no bit is looked at: every
    key tests as a member, and [add] reports every key as present without
    counting it.  With slices of no bit, the generator divides by zero:
    every membership test and every [add] of a filter within its capacity
    raises [ZeroDivisionError] and leaves the filter as it was. *)
Theorem degenerate_sizes (bits : bitarray.t) (error_rate : float)
        (num_slices bits_per_slice capacity count : Z) (self : t)
        (key : list byte) :
  _setup bits error_rate num_slices bits_per_slice capacity count = Ok self ->
  (num_slices <= 0 ->
   __contains__ self key = Ok true /\
   (count <= capacity -> add self key false = (Ok true, self))) /\
  (0 < num_slices -> bits_per_slice = 0 ->
   __contains__ self key = Raise ZeroDivisionError /\
   (count <= capacity ->
    forall skip_check,
      add self key skip_check = (Raise ZeroDivisionError, self))).
Proof.
  unfold _setup.
  destruct (make_hashfuncs num_slices bits_per_slice) as [hf|] eqn:Hhf;
    cbn [bind]; [|discriminate].
  inversion 1; subst self; clear H. split.
  - intros Hns.
    assert (E : hashes hf key = ([], None)).
    { unfold hashes. now rewrite (make_hashfuncs_no_slices _ _ _ Hns Hhf). }
    unfold __contains__, add.
    cbn [BloomFilter.make_hashes BloomFilter.bits_per_slice
         BloomFilter.bitarray BloomFilter.count BloomFilter.capacity].
    rewrite E. cbn [contains_loop add_loop]. split; [reflexivity|].
    intros Hc. destruct (Z.gtb_spec count capacity); [lia|]. reflexivity.
  - intros Hns ->.
    pose proof (hashes_no_bits _ _ key Hns Hhf) as E.
    unfold __contains__, add.
    cbn [BloomFilter.make_hashes BloomFilter.bits_per_slice
         BloomFilter.bitarray BloomFilter.count BloomFilter.capacity].
    rewrite E. cbn [contains_loop add_loop]. split; [reflexivity|].
    intros Hc skip_check. destruct (Z.gtb_spec count capacity); [lia|].
    reflexivity.
Qed.

End Degenerate.

(** A filter with no slice and five bits per slice reports every key. *)
Lemma degenerate_sizes_witness :
  exists self,
    BloomFilter._setup (hashlib := Demo.hashlib) [] Demo.rate 0 5 1 0
    = Ok self /\
    BloomFilter.__contains__ (hashlib := Demo.hashlib) self Demo.hello
    = Ok true.
Proof.
  eexists. split; [by_evaluation|].
  apply (@degenerate_sizes Demo.hashlib [] Demo.rate 0 5 1 0 _ Demo.hello);
    [by_evaluation | lia].
Defined.

Section Pickling.

Context {hashlib : Hashlib} {libm : Libm}.

Import BloomFilter.

Lemma fromfile_make_hashes is_string_io f n self rest :
  fromfile is_string_io f n = Ok (self, rest) ->
  make_hashfuncs (num_slices self) (bits_per_slice self)
  = Ok (make_hashes self).
Proof.
  unfold fromfile. destruct (_ && _); [discriminate|].
  destruct (__init__ 1 default_error_rate) as [bogus|]; [|discriminate].
  cbn [bind].
  destruct (unpack_dQQQQ _) as [[[[[e ns] bps] c] cnt]|]; [|discriminate].
  cbn [bind]. unfold _setup.
  destruct (make_hashfuncs ns bps) as [hf|] eqn:Hhf; [|discriminate].
  cbn [bind].
  destruct (read_bits _ _ _) as [[bits rest']|]; [|discriminate].
  cbn [bind]. destruct (_ && _); [discriminate|].
  inversion 1; subst. exact Hhf.
Qed.

(** X14. Pickling: [__setstate__] applied to what [__getstate__] returns
    gives the filter back, hash functions included, for every filter whose
    hash functions are those of its two sizes; a filter is such when
    [_setup], the constructor or [fromfile] returned it, and stays such
    under [add]. *)
Theorem pickle_round_trip :
  (forall self,
     make_hashfuncs (num_slices self) (bits_per_slice self)
     = Ok (make_hashes self) ->
     __setstate__ (__getstate__ self) = Ok self) /\
  (forall bits error_rate num_slices bits_per_slice capacity count self,
     _setup bits error_rate num_slices bits_per_slice capacity count
     = Ok self ->
     __setstate__ (__getstate__ self) = Ok self) /\
  (forall capacity error_rate self,
     __init__ capacity error_rate = Ok self ->
     __setstate__ (__getstate__ self) = Ok self) /\
  (forall is_string_io f n self rest,
     fromfile is_string_io f n = Ok (self, rest) ->
     __setstate__ (__getstate__ self) = Ok self) /\
  (forall self key skip_check,
     __setstate__ (__getstate__ self) = Ok self ->
     __setstate__ (__getstate__ (snd (add self key skip_check)))
     = Ok (snd (add self key skip_check))).
Proof.
  assert (H1 : forall self,
             make_hashfuncs (num_slices self) (bits_per_slice self)
             = Ok (make_hashes self) ->
             __setstate__ (__getstate__ self) = Ok self).
  { intros self H. unfold __setstate__, __getstate__.
    cbn [st_error_rate st_num_slices st_bits_per_slice st_capacity st_count
         st_num_bits st_bitarray].
    rewrite H. cbn [bind]. now destruct self. }
  assert (H2 : forall self,
             __setstate__ (__getstate__ self) = Ok self ->
             make_hashfuncs (num_slices self) (bits_per_slice self)
             = Ok (make_hashes self)).
  { intros self. unfold __setstate__, __getstate__.
    cbn [st_error_rate st_num_slices st_bits_per_slice st_capacity st_count
         st_num_bits st_bitarray].
    destruct (make_hashfuncs _ _) as [hf|]; cbn [bind]; [|discriminate].
    intros H.
    exact (f_equal (fun r => match r with
                             | Ok s => Ok (make_hashes s)
                             | Raise e => Raise e
                             end) H). }
  split; [exact H1|]. split; [|split; [|split]].
  - intros bits e ns bps c n self H. apply H1. unfold _setup in H.
    destruct (make_hashfuncs ns bps) as [hf|] eqn:Hhf; cbn [bind] in H;
      [|discriminate].
    inversion H; subst self. exact Hhf.
  - intros c e self H. apply H1. apply BloomFilter_init_inv in H. apply H.
  - intros is_string_io f n self rest H. apply H1.
    eapply fromfile_make_hashes; eauto.
  - intros self key skip_check H. apply H1. apply H2 in H.
    destruct (add_grows self key skip_check) as [_ [_ Hs]].
    rewrite Hs. exact H.
Qed.

End Pickling.

(** ** The growing filters: what [add] does to the list of sub-filters *)

Lemma contains_loop_raises bits bps ks stop off e :
  BloomFilter.contains_loop bits bps ks stop off = Raise e ->
  e = bitarray.index_error \/ stop = Some e.
Proof.
  revert off. induction ks as [|k ks IH]; intros off;
    cbn [BloomFilter.contains_loop].
  - destruct stop; [|discriminate]. inversion 1. now right.
  - destruct (bitarray.getitem bits (off + k)) as [b|e'] eqn:G; cbn [bind].
    + destruct (negb b); [discriminate | apply IH].
    + inversion 1; subst. left. eapply getitem_raises; eauto.
Qed.

Lemma sum_app (l1 l2 : list Z) :
  fold_right Z.add 0 (l1 ++ l2)
  = fold_right Z.add 0 l1 + fold_right Z.add 0 l2.
Proof. induction l1 as [|x l1 IH]; cbn [app fold_right]; lia. Qed.

Lemma sum_le (f g : BloomFilter.t -> Z) fs :
  Forall (fun x => f x <= g x) fs ->
  fold_right Z.add 0 (map f fs) <= fold_right Z.add 0 (map g fs).
Proof. induction 1; cbn [map fold_right]; lia. Qed.

Section GrowingFilters.

Context {hashlib : Hashlib} {libm : Libm}.

Lemma contains_raises self key e :
  BloomFilter.__contains__ self key = Raise e ->
  e <> BloomFilter.at_capacity.
Proof.
  unfold BloomFilter.__contains__.
  destruct (hashes (BloomFilter.make_hashes self) key) as [ks stop] eqn:E.
  intros H. apply contains_loop_raises in H. destruct H as [->| ->].
  - discriminate.
  - unfold hashes in E. destruct (run_salts_raises _ _ _ _ _ _ E) as [->| ->];
      discriminate.
Qed.

Lemma any_contains_raises fs key e :
  any_contains fs key = Raise e -> e <> BloomFilter.at_capacity.
Proof.
  induction fs as [|f fs IH]; cbn [any_contains]; [discriminate|].
  destruct (BloomFilter.__contains__ f key) as [[|]|e'] eqn:C; cbn [bind].
  - discriminate.
  - exact IH.
  - inversion 1; subst. eapply contains_raises; eauto.
Qed.

Lemma init_not_at_capacity c e x :
  BloomFilter.__init__ c e = Raise x -> x <> BloomFilter.at_capacity.
Proof.
  intros H. apply BloomFilter_init_raises in H.
  destruct H as [[_ ->]|[[_ [_ ->]]|[_ [_ [H|[->| ->]]]]]]; try discriminate.
  unfold arithmetic_error in H. intuition (subst; discriminate).
Qed.

Lemma any_contains_last front f key :
  BloomFilter.__contains__ f key = Ok true ->
  any_contains (rev (front ++ [f])) key = Ok true.
Proof.
  intros H. rewrite rev_app_distr. cbn [rev app any_contains].
  now rewrite H.
Qed.

(** What [add] of a sub-filter does to its count: one more when it returns
    [False], the same otherwise; capacity and error rate stay. *)
Lemma add_count self key skip_check :
  BloomFilter.count (snd (BloomFilter.add self key skip_check))
  = BloomFilter.count self
    + match fst (BloomFilter.add self key skip_check) with
      | Ok false => 1
      | _ => 0
      end /\
  BloomFilter.capacity (snd (BloomFilter.add self key skip_check))
  = BloomFilter.capacity self /\
  BloomFilter.error_rate (snd (BloomFilter.add self key skip_check))
  = BloomFilter.error_rate self.
Proof.
  unfold BloomFilter.add.
  destruct (BloomFilter.count self >? BloomFilter.capacity self).
  { cbn [fst snd]. repeat split; lia. }
  destruct (hashes (BloomFilter.make_hashes self) key) as [ks stop].
  destruct (BloomFilter.add_loop _ _ _ _ _ _ _) as [[found|e] bits].
  - destruct skip_check; [|destruct (negb found)]; cbn [fst snd];
      cbn [BloomFilter.count BloomFilter.capacity BloomFilter.error_rate
           BloomFilter.set_count BloomFilter.set_bitarray];
      repeat split; lia.
  - cbn [fst snd].
    cbn [BloomFilter.count BloomFilter.capacity BloomFilter.error_rate
         BloomFilter.set_bitarray].
    repeat split; lia.
Qed.

(** The three ways [ScalableBloomFilter.add] goes: the key tests as a
    member; the membership test or a constructor raises; or the key goes
    into a sub-filter [filter], the last one when it has room and a fresh
    one otherwise, that ends the list after [front]. *)
Lemma scalable_add_cases (self : ScalableBloomFilter.t) key :
  (ScalableBloomFilter.add self key = (Ok true, self) /\
   ScalableBloomFilter.__contains__ self key = Ok true) \/
  (exists e, ScalableBloomFilter.add self key = (Raise e, self) /\
             e <> BloomFilter.at_capacity) \/
  (exists front filter,
     ScalableBloomFilter.add self key
     = (_ <- fst (BloomFilter.add filter key true) ;; Ok false,
        ScalableBloomFilter.set_filters
          (front ++ [snd (BloomFilter.add filter key true)]) self) /\
     ((ScalableBloomFilter.filters self = front ++ [filter] /\
       BloomFilter.count filter < BloomFilter.capacity filter) \/
      (ScalableBloomFilter.filters self = front /\
       ((front = [] /\
         BloomFilter.__init__ (ScalableBloomFilter.initial_capacity self)
           (ScalableBloomFilter.error_rate self
            * (1 - ScalableBloomFilter.ratio self))%float = Ok filter) \/
        (exists front' last,
           front = front' ++ [last] /\
           BloomFilter.count last >= BloomFilter.capacity last /\
           BloomFilter.__init__
             (BloomFilter.capacity last * ScalableBloomFilter.scale self)
             (BloomFilter.error_rate last
              * ScalableBloomFilter.ratio self)%float = Ok filter))))).
Proof.
  unfold ScalableBloomFilter.add.
  destruct (ScalableBloomFilter.__contains__ self key) as [[|]|e] eqn:C.
  - left. auto.
  - right.
    destruct (rev (ScalableBloomFilter.filters self)) as [|last front] eqn:R.
    + assert (Hnil : ScalableBloomFilter.filters self = []).
      { apply (f_equal (@rev _)) in R. now rewrite rev_involutive in R. }
      destruct (BloomFilter.__init__ _ _) as [filter|e] eqn:I.
      * right. exists (ScalableBloomFilter.filters self), filter.
        unfold add_to_last.
        destruct (BloomFilter.add filter key true) as [r filter'].
        cbn [fst snd]. split; [reflexivity|]. right. split; [reflexivity|].
        left. auto.
      * left. exists e. split; [reflexivity|].
        eapply init_not_at_capacity; eauto.
    + assert (Hfs : ScalableBloomFilter.filters self = rev front ++ [last]).
      { apply (f_equal (@rev _)) in R. now rewrite rev_involutive in R. }
      destruct (Z.geb_spec (BloomFilter.count last) (BloomFilter.capacity last))
        as [Hfull|Hroom].
      * destruct (BloomFilter.__init__ _ _) as [filter|e] eqn:I.
        -- right. exists (ScalableBloomFilter.filters self), filter.
           unfold add_to_last.
           destruct (BloomFilter.add filter key true) as [r filter'].
           cbn [fst snd]. split; [reflexivity|]. right. split; [reflexivity|].
           right. exists (rev front), last. split; [exact Hfs|].
           split; [lia | exact I].
        -- left. exists e. split; [reflexivity|].
           eapply init_not_at_capacity; eauto.
      * right. exists (rev front), last.
        unfold add_to_last.
        destruct (BloomFilter.add last key true) as [r filter'].
        cbn [fst snd]. split; [reflexivity|]. left. auto.
  - right. left. exists e. split; [reflexivity|].
    eapply any_contains_raises; eauto.
Qed.

(** The same for [DynamicBloomFilter.add], where every fresh sub-filter is
    built with the base capacity and the individual error rate. *)
Lemma dynamic_add_cases (self : DynamicBloomFilter.t) key :
  (DynamicBloomFilter.add self key = (Ok true, self) /\
   DynamicBloomFilter.__contains__ self key = Ok true) \/
  (exists e, DynamicBloomFilter.add self key = (Raise e, self) /\
             e <> BloomFilter.at_capacity) \/
  (exists front filter,
     DynamicBloomFilter.add self key
     = (_ <- fst (BloomFilter.add filter key true) ;; Ok false,
        DynamicBloomFilter.set_filters
          (front ++ [snd (BloomFilter.add filter key true)]) self) /\
     ((DynamicBloomFilter.filters self = front ++ [filter] /\
       BloomFilter.count filter < BloomFilter.capacity filter) \/
      (DynamicBloomFilter.filters self = front /\
       (front = [] \/
        exists front' last,
          front = front' ++ [last] /\
          BloomFilter.count last >= BloomFilter.capacity last) /\
       BloomFilter.__init__ (DynamicBloomFilter.base_capacity self)
         (DynamicBloomFilter.individual_error_rate self) = Ok filter))).
Proof.
  unfold DynamicBloomFilter.add.
  destruct (DynamicBloomFilter.__contains__ self key) as [[|]|e] eqn:C.
  - left. auto.
  - right.
    destruct (rev (DynamicBloomFilter.filters self)) as [|last front] eqn:R.
    + assert (Hnil : DynamicBloomFilter.filters self = []).
      { apply (f_equal (@rev _)) in R. now rewrite rev_involutive in R. }
      destruct (BloomFilter.__init__ _ _) as [filter|e] eqn:I.
      * right. exists (DynamicBloomFilter.filters self), filter.
        unfold add_to_last.
        destruct (BloomFilter.add filter key true) as [r filter'].
        cbn [fst snd]. split; [reflexivity|]. right. split; [reflexivity|].
        split; [now left | reflexivity].
      * left. exists e. split; [reflexivity|].
        eapply init_not_at_capacity; eauto.
    + assert (Hfs : DynamicBloomFilter.filters self = rev front ++ [last]).
      { apply (f_equal (@rev _)) in R. now rewrite rev_involutive in R. }
      destruct (Z.geb_spec (BloomFilter.count last) (BloomFilter.capacity last))
        as [Hfull|Hroom].
      * destruct (BloomFilter.__init__ _ _) as [filter|e] eqn:I.
        -- right. exists (DynamicBloomFilter.filters self), filter.
           unfold add_to_last.
           destruct (BloomFilter.add filter key true) as [r filter'].
           cbn [fst snd]. split; [reflexivity|]. right. split; [reflexivity|].
           split; [|reflexivity]. right. exists (rev front), last.
           split; [exact Hfs | lia].
        -- left. exists e. split; [reflexivity|].
           eapply init_not_at_capacity; eauto.
      * right. exists (rev front), last.
        unfold add_to_last.
        destruct (BloomFilter.add last key true) as [r filter'].
        cbn [fst snd]. split; [reflexivity|]. left. auto.
  - right. left. exists e. split; [reflexivity|].
    eapply any_contains_raises; eauto.
Qed.

Lemma scalable_add_grows (self : ScalableBloomFilter.t) key :
  grows (ScalableBloomFilter.filters self) key
        (fst (ScalableBloomFilter.add self key))
        (ScalableBloomFilter.filters (snd (ScalableBloomFilter.add self key))).
Proof.
  destruct (scalable_add_cases self key)
    as [[-> C]|[[e [-> He]]|[front [filter [-> T]]]]]; cbn [fst snd].
  - left. auto.
  - right. left. eauto.
  - right. right. exists front, filter. split; [reflexivity|].
    split; [reflexivity|].
    destruct T as [T|[T [[_ I]|[front' [last [_ [_ I]]]]]]]; eauto.
Qed.

Lemma dynamic_add_grows (self : DynamicBloomFilter.t) key :
  grows (DynamicBloomFilter.filters self) key
        (fst (DynamicBloomFilter.add self key))
        (DynamicBloomFilter.filters (snd (DynamicBloomFilter.add self key))).
Proof.
  destruct (dynamic_add_cases self key)
    as [[-> C]|[[e [-> He]]|[front [filter [-> T]]]]]; cbn [fst snd].
  - left. auto.
  - right. left. eauto.
  - right. right. exists front, filter. split; [reflexivity|].
    split; [reflexivity|].
    destruct T as [T|[T [_ I]]]; eauto.
Qed.

(** When [add] returns, the key is a member of the last sub-filter or of
    an earlier one. *)
Lemma grows_member fs key r fs' b :
  grows fs key r fs' -> r = Ok b -> any_contains (rev fs') key = Ok true.
Proof.
  intros [[-> [-> C]]|[[e [-> _]]|[front [filter [-> [-> _]]]]]] Hr.
  - exact C.
  - discriminate.
  - destruct (BloomFilter.add filter key true) as [[r0|e] filter'] eqn:A;
      cbn [fst snd bind] in *; [|discriminate].
    apply any_contains_last. apply add_returns_inv in A.
    destruct A as [Hh [Hb [ks [stop [E C]]]]].
    unfold BloomFilter.__contains__. now rewrite Hh, Hb, E.
Qed.

Lemma add_skip_check_outcome self key b :
  fst (BloomFilter.add self key true) = Ok b -> b = false.
Proof.
  unfold BloomFilter.add.
  destruct (BloomFilter.count self >? BloomFilter.capacity self);
    [discriminate|].
  destruct (hashes (BloomFilter.make_hashes self) key) as [ks stop].
  destruct (BloomFilter.add_loop _ _ _ _ _ _ _) as [[found|e] bits];
    cbn [fst]; [|discriminate].
  now inversion 1.
Qed.

(** The sub-filter [add] inserts into is within its capacity before the
    call, and its count is the share it has in the total. *)
Lemma grows_target fs front filter :
  (fs = front ++ [filter] /\
   BloomFilter.count filter < BloomFilter.capacity filter) \/
  (fs = front /\ exists c e, BloomFilter.__init__ c e = Ok filter) ->
  BloomFilter.count filter < BloomFilter.capacity filter /\
  fold_right Z.add 0 (map BloomFilter.count (front ++ [filter]))
  = fold_right Z.add 0 (map BloomFilter.count fs) /\
  (Forall (fun f => 0 <= BloomFilter.count f <= BloomFilter.capacity f) fs ->
   Forall (fun f => 0 <= BloomFilter.count f <= BloomFilter.capacity f) front /\
   0 <= BloomFilter.count filter).
Proof.
  intros [[-> Hroom]|[-> [c [e I]]]].
  - split; [lia|]. split; [reflexivity|].
    intros H. apply Forall_app in H. destruct H as [H1 H2].
    split; [exact H1|]. inversion H2; subst. lia.
  - apply BloomFilter_init_inv in I.
    destruct I as (_ & _ & Hc & _ & Hcap & Hcount & _).
    rewrite Hcap, Hcount. split; [lia|]. split.
    + rewrite map_app, sum_app. cbn [map fold_right]. lia.
    + intros H. split; [exact H | lia].
Qed.

Lemma grows_len fs key r fs' :
  grows fs key r fs' ->
  fold_right Z.add 0 (map BloomFilter.count fs')
  = fold_right Z.add 0 (map BloomFilter.count fs)
    + match r with Ok false => 1 | _ => 0 end.
Proof.
  intros [[-> [-> C]]|[[e [-> [-> _]]]|[front [filter [-> [-> T]]]]]];
    try lia.
  destruct (grows_target _ _ _ T) as [_ [<- _]].
  rewrite !map_app, !sum_app. cbn [map fold_right].
  destruct (add_count filter key true) as [-> _].
  pose proof (add_skip_check_outcome filter key) as Hb.
  destruct (fst (BloomFilter.add filter key true)) as [b|e]; cbn [bind].
  - rewrite (Hb b eq_refl). lia.
  - lia.
Qed.

Lemma grows_not_at_capacity fs key r fs' :
  grows fs key r fs' -> r <> Raise BloomFilter.at_capacity.
Proof.
  intros [[-> _]|[[e [-> [_ He]]]|[front [filter [-> [_ T]]]]]].
  - discriminate.
  - congruence.
  - destruct (grows_target _ _ _ T) as [Hc _].
    pose proof (add_never_at_capacity filter key true ltac:(lia)) as Hn.
    destruct (fst (BloomFilter.add filter key true)) as [b|e]; cbn [bind];
      [discriminate | congruence].
Qed.

Lemma grows_within_capacity fs key r fs' :
  grows fs key r fs' -> within_capacity fs -> within_capacity fs'.
Proof.
  unfold within_capacity.
  intros [[_ [-> _]]|[[e [_ [-> _]]]|[front [filter [_ [-> T]]]]]] H;
    try exact H.
  destruct (grows_target _ _ _ T) as [Hc [_ Hf]].
  destruct (Hf H) as [Hfront Hcount].
  apply Forall_app. split; [exact Hfront|]. constructor; [|constructor].
  destruct (add_count filter key true) as [-> [-> _]].
  destruct (fst (BloomFilter.add filter key true)) as [[|]|e]; lia.
Qed.

(** X15. A key that a growing filter has taken is a member: when [add] of
    a [ScalableBloomFilter] or of a [DynamicBloomFilter] returns, whatever
    it returns and whatever the filter was, the membership test of the
    filter it leaves answers [True] for the key. *)
Theorem growing_added_key_is_member :
  (forall (self : ScalableBloomFilter.t) key r self',
     ScalableBloomFilter.add self key = (Ok r, self') ->
     ScalableBloomFilter.__contains__ self' key = Ok true) /\
  (forall (self : DynamicBloomFilter.t) key r self',
     DynamicBloomFilter.add self key = (Ok r, self') ->
     DynamicBloomFilter.__contains__ self' key = Ok true).
Proof.
  split; intros self key r self' H.
  - pose proof (scalable_add_grows self key) as G. rewrite H in G.
    cbn [fst snd] in G. eapply grows_member; eauto.
  - pose proof (dynamic_add_grows self key) as G. rewrite H in G.
    cbn [fst snd] in G. eapply grows_member; eauto.
Qed.

(** X16. The length of a growing filter counts the keys it took as new:
    one call of [add] adds one to [len(self)] when it returns [False], and
    leaves it as it was when it returns [True] or raises. *)
Theorem growing_len_counts_new_keys :
  (forall (self : ScalableBloomFilter.t) key,
     ScalableBloomFilter.__len__ (snd (ScalableBloomFilter.add self key))
     = ScalableBloomFilter.__len__ self
       + match fst (ScalableBloomFilter.add self key) with
         | Ok false => 1
         | _ => 0
         end) /\
  (forall (self : DynamicBloomFilter.t) key,
     DynamicBloomFilter.__len__ (snd (DynamicBloomFilter.add self key))
     = DynamicBloomFilter.__len__ self
       + match fst (DynamicBloomFilter.add self key) with
         | Ok false => 1
         | _ => 0
         end).
Proof.
  split; intros self key.
  - exact (grows_len _ _ _ _ (scalable_add_grows self key)).
  - exact (grows_len _ _ _ _ (dynamic_add_grows self key)).
Qed.

(** X17. A growing filter is never at capacity: [add] of a
    [ScalableBloomFilter] or of a [DynamicBloomFilter] never raises the
    [IndexError] of a full [BloomFilter], whatever the filter is, since it
    inserts into the last sub-filter only when that one has room and into
    a fresh one otherwise. *)
Theorem growing_never_at_capacity :
  (forall (self : ScalableBloomFilter.t) key,
     fst (ScalableBloomFilter.add self key) <> Raise BloomFilter.at_capacity) /\
  (forall (self : DynamicBloomFilter.t) key,
     fst (DynamicBloomFilter.add self key) <> Raise BloomFilter.at_capacity).
Proof.
  split; intros self key.
  - exact (grows_not_at_capacity _ _ _ _ (scalable_add_grows self key)).
  - exact (grows_not_at_capacity _ _ _ _ (dynamic_add_grows self key)).
Qed.

Lemma scalable_add_all_bounds self keys :
  within_capacity (ScalableBloomFilter.filters self) ->
  within_capacity (ScalableBloomFilter.filters (scalable_add_all self keys)) /\
  ScalableBloomFilter.__len__ (scalable_add_all self keys)
  <= ScalableBloomFilter.__len__ self + len keys.
Proof.
  revert self. induction keys as [|key keys IH]; intros self H;
    cbn [scalable_add_all].
  - rewrite (@len_nil (list byte)). split; [exact H | lia].
  - pose proof (scalable_add_grows self key) as G.
    destruct (IH _ (grows_within_capacity _ _ _ _ G H)) as [IH1 IH2].
    split; [exact IH1|]. rewrite len_cons.
    apply grows_len in G. unfold ScalableBloomFilter.__len__ in *.
    destruct (fst (ScalableBloomFilter.add self key)) as [[|]|e]; lia.
Qed.

Lemma dynamic_add_all_bounds self keys :
  within_capacity (DynamicBloomFilter.filters self) ->
  within_capacity (DynamicBloomFilter.filters (dynamic_add_all self keys)) /\
  DynamicBloomFilter.__len__ (dynamic_add_all self keys)
  <= DynamicBloomFilter.__len__ self + len keys.
Proof.
  revert self. induction keys as [|key keys IH]; intros self H;
    cbn [dynamic_add_all].
  - rewrite (@len_nil (list byte)). split; [exact H | lia].
  - pose proof (dynamic_add_grows self key) as G.
    destruct (IH _ (grows_within_capacity _ _ _ _ G H)) as [IH1 IH2].
    split; [exact IH1|]. rewrite len_cons.
    apply grows_len in G. unfold DynamicBloomFilter.__len__ in *.
    destruct (fst (DynamicBloomFilter.add self key)) as [[|]|e]; lia.
Qed.

Lemma within_capacity_sums fs :
  within_capacity fs ->
  0 <= fold_right Z.add 0 (map BloomFilter.count fs)
  <= fold_right Z.add 0 (map BloomFilter.capacity fs).
Proof. induction 1; cbn [map fold_right]; lia. Qed.

(** X18. The bounds of the module's documentation: after [add] was called
    with any keys on a growing filter just built, [len(self)] is at most
    the number of keys and at most [self.capacity], and no sub-filter
    holds more keys than its capacity. *)
Theorem growing_len_bounds :
  (forall initial_capacity error_rate mode fresh keys,
     ScalableBloomFilter.__init__ initial_capacity error_rate mode
     = Ok fresh ->
     let s := scalable_add_all fresh keys in
     0 <= ScalableBloomFilter.__len__ s <= len keys /\
     ScalableBloomFilter.__len__ s <= ScalableBloomFilter.capacity s /\
     within_capacity (ScalableBloomFilter.filters s)) /\
  (forall base_capacity max_capacity error_rate fresh keys,
     DynamicBloomFilter.__init__ base_capacity max_capacity error_rate
     = Ok fresh ->
     let d := dynamic_add_all fresh keys in
     0 <= DynamicBloomFilter.__len__ d <= len keys /\
     DynamicBloomFilter.__len__ d <= DynamicBloomFilter.capacity d /\
     within_capacity (DynamicBloomFilter.filters d)).
Proof.
  split.
  - intros ic e mode fresh keys H s.
    assert (Hnil : ScalableBloomFilter.filters fresh = []).
    { unfold ScalableBloomFilter.__init__ in H.
      destruct (_ || _); [discriminate|]. now inversion H. }
    destruct (scalable_add_all_bounds fresh keys) as [Hw Hl].
    { rewrite Hnil. constructor. }
    unfold ScalableBloomFilter.__len__ in Hl at 2. rewrite Hnil in Hl.
    cbn [map fold_right] in Hl.
    pose proof (within_capacity_sums _ Hw) as Hs.
    unfold ScalableBloomFilter.__len__, ScalableBloomFilter.capacity in *.
    fold s in Hw, Hl, Hs. repeat split; try assumption; lia.
  - intros bc mc e fresh keys H d.
    destruct (init_inv _ _ _ _ H) as [_ [_ [_ Hnil]]].
    destruct (dynamic_add_all_bounds fresh keys) as [Hw Hl].
    { rewrite Hnil. constructor. }
    unfold DynamicBloomFilter.__len__ in Hl at 2. rewrite Hnil in Hl.
    cbn [map fold_right] in Hl.
    pose proof (within_capacity_sums _ Hw) as Hs.
    unfold DynamicBloomFilter.__len__, DynamicBloomFilter.capacity in *.
    fold d in Hw, Hl, Hs. repeat split; try assumption; lia.
Qed.

End GrowingFilters.

(** ** The sub-filters of the growing filters *)

Lemma seq_snoc n : seq 0 (S n) = seq 0 n ++ [n].
Proof. rewrite seq_S. reflexivity. Qed.

Section SubFilters.

Context {hashlib : Hashlib} {libm : Libm}.

(** [add] changes the list of sub-filters only: the parameters of a
    growing filter stay as the constructor set them. *)
Lemma scalable_add_fields (self : ScalableBloomFilter.t) key :
  ScalableBloomFilter.scale (snd (ScalableBloomFilter.add self key))
  = ScalableBloomFilter.scale self /\
  ScalableBloomFilter.ratio (snd (ScalableBloomFilter.add self key))
  = ScalableBloomFilter.ratio self /\
  ScalableBloomFilter.initial_capacity (snd (ScalableBloomFilter.add self key))
  = ScalableBloomFilter.initial_capacity self /\
  ScalableBloomFilter.error_rate (snd (ScalableBloomFilter.add self key))
  = ScalableBloomFilter.error_rate self.
Proof.
  destruct (scalable_add_cases self key)
    as [[-> _]|[[e [-> _]]|[front [filter [-> _]]]]]; cbn [snd]; auto.
Qed.

Lemma dynamic_add_fields (self : DynamicBloomFilter.t) key :
  DynamicBloomFilter.base_capacity (snd (DynamicBloomFilter.add self key))
  = DynamicBloomFilter.base_capacity self /\
  DynamicBloomFilter.individual_error_rate
    (snd (DynamicBloomFilter.add self key))
  = DynamicBloomFilter.individual_error_rate self /\
  DynamicBloomFilter.max_capacity (snd (DynamicBloomFilter.add self key))
  = DynamicBloomFilter.max_capacity self /\
  DynamicBloomFilter.max_error_rate (snd (DynamicBloomFilter.add self key))
  = DynamicBloomFilter.max_error_rate self.
Proof.
  destruct (dynamic_add_cases self key)
    as [[-> _]|[[e [-> _]]|[front [filter [-> _]]]]]; cbn [snd]; auto.
Qed.

Lemma add_same_kind bc rate filter key skip_check :
  same_kind bc rate filter ->
  same_kind bc rate (snd (BloomFilter.add filter key skip_check)).
Proof.
  intros [Hc [Hcap Hrate]].
  destruct (add_count filter key skip_check) as [_ [Ec Ee]].
  split; [now apply add_constructed|]. split; congruence.
Qed.

Lemma init_same_kind c e filter :
  BloomFilter.__init__ c e = Ok filter -> same_kind c e filter.
Proof.
  intros H. split; [eapply init_constructed; eauto|].
  apply BloomFilter_init_inv in H. split; apply H.
Qed.

Lemma dynamic_add_uniform (self : DynamicBloomFilter.t) key :
  Forall (same_kind (DynamicBloomFilter.base_capacity self)
                    (DynamicBloomFilter.individual_error_rate self))
         (DynamicBloomFilter.filters self) ->
  Forall (same_kind (DynamicBloomFilter.base_capacity self)
                    (DynamicBloomFilter.individual_error_rate self))
         (DynamicBloomFilter.filters (snd (DynamicBloomFilter.add self key))).
Proof.
  intros H.
  destruct (dynamic_add_cases self key)
    as [[-> _]|[[e [-> _]]|[front [filter [-> T]]]]]; cbn [snd];
    try exact H.
  cbn [DynamicBloomFilter.filters DynamicBloomFilter.set_filters].
  apply Forall_app. destruct T as [[Hfs _]|[Hfs [_ I]]].
  - rewrite Hfs in H. apply Forall_app in H. destruct H as [H1 H2].
    split; [exact H1|]. constructor; [|constructor].
    apply add_same_kind. now inversion H2.
  - rewrite Hfs in H. split; [exact H|]. constructor; [|constructor].
    apply add_same_kind. now apply init_same_kind.
Qed.

Lemma sum_constant (f : BloomFilter.t -> Z) c fs :
  Forall (fun x => f x = c) fs ->
  fold_right Z.add 0 (map f fs) = c * len fs.
Proof.
  induction 1 as [|x fs Hx _ IH]; cbn [map fold_right].
  - unfold len. cbn [length Z.of_nat]. lia.
  - rewrite len_cons, IH, Hx. lia.
Qed.

(** X19. The sub-filters of a dynamic filter are uniform: after [add] was
    called with any keys on a [DynamicBloomFilter] just built, every
    sub-filter is one the [BloomFilter] constructor made with the base
    capacity and the individual error rate, so that all have the same
    sizes and hash functions, and [capacity] is the base capacity times
    the number of sub-filters. *)
Theorem dynamic_filters_are_uniform (base_capacity max_capacity : Z)
        (error_rate : float) (fresh : DynamicBloomFilter.t)
        (keys : list (list byte)) :
  DynamicBloomFilter.__init__ base_capacity max_capacity error_rate
  = Ok fresh ->
  let d := dynamic_add_all fresh keys in
  DynamicBloomFilter.base_capacity d = base_capacity /\
  DynamicBloomFilter.individual_error_rate d
  = DynamicBloomFilter.individual_error_rate fresh /\
  Forall (same_kind base_capacity
                    (DynamicBloomFilter.individual_error_rate fresh))
         (DynamicBloomFilter.filters d) /\
  DynamicBloomFilter.capacity d
  = base_capacity * len (DynamicBloomFilter.filters d).
Proof.
  intros H d. destruct (init_inv _ _ _ _ H) as [Hbc [_ [_ Hnil]]].
  assert (Hinv : forall self,
             DynamicBloomFilter.base_capacity self = base_capacity ->
             DynamicBloomFilter.individual_error_rate self
             = DynamicBloomFilter.individual_error_rate fresh ->
             Forall (same_kind base_capacity
                       (DynamicBloomFilter.individual_error_rate fresh))
                    (DynamicBloomFilter.filters self) ->
             DynamicBloomFilter.base_capacity (dynamic_add_all self keys)
             = base_capacity /\
             DynamicBloomFilter.individual_error_rate
               (dynamic_add_all self keys)
             = DynamicBloomFilter.individual_error_rate fresh /\
             Forall (same_kind base_capacity
                       (DynamicBloomFilter.individual_error_rate fresh))
                    (DynamicBloomFilter.filters (dynamic_add_all self keys))).
  { clear d. induction keys as [|key keys IH]; intros self H1 H2 H3;
      cbn [dynamic_add_all]; [auto|].
    destruct (dynamic_add_fields self key) as [F1 [F2 _]].
    apply IH; try congruence.
    pose proof (dynamic_add_uniform self key) as U.
    rewrite H1, H2 in U. now apply U. }
  destruct (Hinv fresh Hbc eq_refl) as [I1 [I2 I3]].
  { rewrite Hnil. constructor. }
  fold d in I1, I2, I3. repeat split; try assumption.
  unfold DynamicBloomFilter.capacity. apply sum_constant.
  eapply Forall_impl; [|exact I3]. intros f [_ [Hc _]]. exact Hc.
Qed.

(** The capacities and the error rates of the sub-filters of a scalable
    filter form two geometric sequences. *)
Lemma scalable_add_geometric (self : ScalableBloomFilter.t) key :
  let capacity_of i :=
    ScalableBloomFilter.initial_capacity self
    * ScalableBloomFilter.scale self ^ Z.of_nat i in
  let rate_of i :=
    Nat.iter i (fun x => (x * ScalableBloomFilter.ratio self)%float)
      (ScalableBloomFilter.error_rate self
       * (1 - ScalableBloomFilter.ratio self))%float in
  let geometric fs :=
    map BloomFilter.capacity fs = map capacity_of (seq 0 (length fs)) /\
    map BloomFilter.error_rate fs = map rate_of (seq 0 (length fs)) in
  geometric (ScalableBloomFilter.filters self) ->
  geometric (ScalableBloomFilter.filters
               (snd (ScalableBloomFilter.add self key))).
Proof.
  intros capacity_of rate_of geometric [Hc Hr].
  destruct (scalable_add_cases self key)
    as [[-> _]|[[e [-> _]]|[front [filter [-> T]]]]]; cbn [snd];
    try (split; assumption).
  cbn [ScalableBloomFilter.filters ScalableBloomFilter.set_filters].
  destruct (add_count filter key true) as [_ [Ec Ee]].
  unfold geometric. rewrite !map_app, length_app. cbn [map length].
  rewrite Nat.add_1_r, seq_snoc, !map_app. cbn [map]. rewrite Ec, Ee.
  destruct T as [[Hfs _]|[Hfs [[-> I]|[front' [last [-> [_ I]]]]]]].
  - rewrite Hfs, !map_app, length_app in Hc, Hr. cbn [map length] in Hc, Hr.
    rewrite Nat.add_1_r, seq_snoc, !map_app in Hc, Hr. cbn [map] in Hc, Hr.
    split; assumption.
  - apply BloomFilter_init_inv in I.
    destruct I as (_ & _ & _ & He & Hcap & _).
    cbn [map length seq app]. rewrite Hcap, He.
    unfold capacity_of, rate_of. cbn [Nat.iter Z.of_nat].
    rewrite Z.pow_0_r, Z.mul_1_r. split; reflexivity.
  - apply BloomFilter_init_inv in I.
    destruct I as (_ & _ & _ & He & Hcap & _).
    rewrite Hfs in Hc, Hr. rewrite Hc, Hr. rewrite Hcap, He.
    rewrite !map_app, length_app in Hc, Hr. cbn [map length] in Hc, Hr.
    rewrite Nat.add_1_r, seq_snoc, !map_app in Hc, Hr. cbn [map] in Hc, Hr.
    apply app_inj_tail in Hc, Hr. destruct Hc as [_ ->], Hr as [_ ->].
    rewrite length_app. cbn [length]. rewrite Nat.add_1_r.
    unfold capacity_of, rate_of. cbn [Nat.iter].
    rewrite Nat2Z.inj_succ, Z.pow_succ_r by lia.
    split; f_equal; f_equal; ring.
Qed.

(** X20. The sub-filters of a scalable filter grow geometrically: after
    [add] was called with any keys on a [ScalableBloomFilter] just built,
    the sub-filter of rank [i] has the capacity
    [initial_capacity * mode ** i] and the error rate
    [error_rate * (1 - 0.9)] multiplied [i] times by [0.9]. *)
Theorem scalable_filters_are_geometric (initial_capacity : Z)
        (error_rate : float) (mode : Z) (fresh : ScalableBloomFilter.t)
        (keys : list (list byte)) :
  ScalableBloomFilter.__init__ initial_capacity error_rate mode = Ok fresh ->
  let fs := ScalableBloomFilter.filters (scalable_add_all fresh keys) in
  map BloomFilter.capacity fs
  = map (fun i => initial_capacity * mode ^ Z.of_nat i) (seq 0 (length fs)) /\
  map BloomFilter.error_rate fs
  = map (fun i =>
           Nat.iter i
             (fun x => (x * ScalableBloomFilter.default_ratio)%float)
             (error_rate * (1 - ScalableBloomFilter.default_ratio))%float)
        (seq 0 (length fs)).
Proof.
  intros H. unfold ScalableBloomFilter.__init__ in H.
  destruct (_ || _); [discriminate|]. inversion H as [Hfresh]. clear H.
  assert (Hinv : forall self,
             ScalableBloomFilter.scale self = mode ->
             ScalableBloomFilter.ratio self
             = ScalableBloomFilter.default_ratio ->
             ScalableBloomFilter.initial_capacity self = initial_capacity ->
             ScalableBloomFilter.error_rate self = error_rate ->
             let fs := ScalableBloomFilter.filters self in
             (map BloomFilter.capacity fs
              = map (fun i => initial_capacity * mode ^ Z.of_nat i)
                    (seq 0 (length fs)) /\
              map BloomFilter.error_rate fs
              = map (fun i =>
                       Nat.iter i
                         (fun x =>
                            (x * ScalableBloomFilter.default_ratio)%float)
                         (error_rate
                          * (1 - ScalableBloomFilter.default_ratio))%float)
                    (seq 0 (length fs))) ->
             let fs' :=
               ScalableBloomFilter.filters (scalable_add_all self keys) in
             map BloomFilter.capacity fs'
             = map (fun i => initial_capacity * mode ^ Z.of_nat i)
                   (seq 0 (length fs')) /\
             map BloomFilter.error_rate fs'
             = map (fun i =>
                      Nat.iter i
                        (fun x =>
                           (x * ScalableBloomFilter.default_ratio)%float)
                        (error_rate
                         * (1 - ScalableBloomFilter.default_ratio))%float)
                   (seq 0 (length fs'))).
  { induction keys as [|key keys IH]; intros self H1 H2 H3 H4 fs G;
      cbn [scalable_add_all]; [exact G|].
    destruct (scalable_add_fields self key) as [F1 [F2 [F3 F4]]].
    apply IH; try congruence.
    pose proof (scalable_add_geometric self key) as S. cbv zeta in S.
    rewrite H1, H2, H3, H4 in S. apply S. exact G. }
  apply Hinv; subst fresh; try reflexivity.
  cbn [ScalableBloomFilter.filters map length seq]. split; reflexivity.
Qed.

End SubFilters.

(** ** The files of the growing filters *)

Lemma firstn_exact {A} n (a b : list A) :
  length a = n -> firstn n (a ++ b) = a.
Proof.
  intros <-. rewrite firstn_app, firstn_all, Nat.sub_diag. cbn [firstn].
  apply app_nil_r.
Qed.

Lemma skipn_exact {A} n (a b : list A) :
  length a = n -> skipn n (a ++ b) = b.
Proof.
  intros <-. rewrite skipn_app, skipn_all, Nat.sub_diag. reflexivity.
Qed.

Lemma write_at_end before data :
  write (at_end before) data = at_end (before ++ data).
Proof.
  unfold write, at_end. cbn [content position].
  rewrite firstn_all, Nat.sub_diag, skipn_all2 by lia. cbn [repeat app].
  rewrite app_nil_r, length_app. reflexivity.
Qed.

(** Writing over a part of the content replaces it. *)
Lemma write_over a b c d :
  length d = length b ->
  write {| content := a ++ b ++ c; position := length a |} d
  = {| content := a ++ d ++ c; position := length a + length d |}.
Proof.
  intros H. unfold write. cbn [content position].
  rewrite firstn_exact by reflexivity.
  replace (length a - length (a ++ b ++ c))%nat with 0%nat
    by (rewrite !length_app; lia).
  cbn [repeat app].
  rewrite skipn_app, skipn_all2 by lia. cbn [app].
  replace (length a + length d - length a)%nat with (length b) by lia.
  rewrite skipn_exact by reflexivity. reflexivity.
Qed.

Lemma pack_int_range z :
  0 <= z < 2 ^ 31 ->
  pack_int 4 z = Ok (le_bytes 4 z) /\ int_value 4 (le_bytes 4 z) = z.
Proof.
  intros H. unfold pack_int, int_value.
  change (2 ^ (8 * Z.of_nat 4 - 1)) with (2 ^ 31).
  change (2 ^ (8 * Z.of_nat 4)) with (2 ^ 32).
  destruct (Z.leb_spec (- 2 ^ 31) z); [|lia].
  destruct (Z.ltb_spec z (2 ^ 31)); [|lia]. cbn [andb].
  rewrite Z.mod_small by lia.
  rewrite le_value_bytes by (change (2 ^ (8 * Z.of_nat 4)) with (2 ^ 32); lia).
  destruct (Z.ltb_spec z (2 ^ 31)); [|lia]. auto.
Qed.

(** A signed 32-bit integer comes back from its four bytes. *)
Lemma pack_int_inv z bs :
  pack_int 4 z = Ok bs -> length bs = 4%nat /\ int_value 4 bs = z.
Proof.
  unfold pack_int, int_value.
  change (2 ^ (8 * Z.of_nat 4 - 1)) with (2 ^ 31).
  change (2 ^ (8 * Z.of_nat 4)) with (2 ^ 32).
  destruct (Z.leb_spec (- 2 ^ 31) z); cbn [andb]; [|discriminate].
  destruct (Z.ltb_spec z (2 ^ 31)); [|discriminate].
  intros E. assert (Hbs : bs = le_bytes 4 (z mod 2 ^ 32)) by congruence.
  subst bs. clear E. split; [apply le_bytes_length|].
  pose proof (Z.mod_pos_bound z (2 ^ 32) ltac:(lia)) as Hm.
  rewrite le_value_bytes by (change (2 ^ (8 * Z.of_nat 4)) with (2 ^ 32); lia).
  destruct (Z_lt_le_dec z 0).
  - assert (E : z mod 2 ^ 32 = z + 2 ^ 32).
    { symmetry. apply Z.mod_unique_pos with (q := -1); lia. }
    rewrite E. destruct (Z.ltb_spec (z + 2 ^ 32) (2 ^ 31)); lia.
  - rewrite Z.mod_small by lia.
    destruct (Z.ltb_spec z (2 ^ 31)); lia.
Qed.

Lemma pack_uints_ok zs :
  Forall u64 zs -> pack_uints 8 zs = Ok (concat (map (le_bytes 8) zs)).
Proof.
  intros H. unfold pack_uints.
  assert (E : mapM (pack_uint 8) zs = Ok (map (le_bytes 8) zs)).
  { induction H as [|z zs Hz _ IH]; cbn [mapM map]; [reflexivity|].
    rewrite pack_uint_range by exact Hz. cbn [bind]. now rewrite IH. }
  now rewrite E.
Qed.

Lemma concat_le_bytes_length w zs :
  length (concat (map (le_bytes w) zs)) = (length zs * w)%nat.
Proof.
  induction zs as [|z zs IH]; cbn [map concat length]; [reflexivity|].
  rewrite length_app, le_bytes_length, IH. lia.
Qed.

Lemma unpack_uints_concat zs :
  Forall u64 zs ->
  unpack_uints 8 (length zs) (concat (map (le_bytes 8) zs)) = Ok zs.
Proof.
  intros H. unfold unpack_uints.
  rewrite concat_le_bytes_length, Nat.eqb_refl. f_equal.
  induction H as [|z zs Hz _ IH]; cbn [map concat length]; [reflexivity|].
  rewrite chunks_app by apply le_bytes_length. cbn [map].
  rewrite le_value_bytes by exact Hz. now rewrite IH.
Qed.

Lemma unpack_pack_idQd i d q e bs :
  pack_idQd i d q e = Ok bs ->
  length bs = 28%nat /\ unpack_idQd bs = Ok (i, d, q, e).
Proof.
  unfold pack_idQd.
  destruct (pack_int 4 i) as [pi|] eqn:Ei; [|discriminate].
  destruct (pack_uint 8 q) as [pq|] eqn:Eq; [|discriminate].
  cbn [bind].
  assert (Ld : forall x, length (pack_double x) = 8%nat)
    by (intros; apply le_bytes_length).
  pose proof (unpack_pack_double d) as Vd.
  pose proof (unpack_pack_double e) as Ve.
  pose proof (Ld d) as Ldd. pose proof (Ld e) as Lde.
  remember (pack_double d) as pd eqn:Epd. clear Epd.
  remember (pack_double e) as pe eqn:Epe. clear Epe.
  inversion 1; subst bs.
  apply pack_int_inv in Ei. apply pack_uint_inv in Eq.
  destruct Ei as [Li Vi], Eq as [Lq Vq].
  split; [rewrite !length_app; lia|].
  unfold unpack_idQd. rewrite !length_app, Li, Ldd, Lq, Lde.
  cbn [Nat.eqb Nat.add].
  rewrite (firstn_exact 4) by exact Li.
  rewrite (skipn_exact 4) by exact Li.
  rewrite (firstn_exact 8) by exact Ldd.
  replace (pi ++ pd ++ pq ++ pe) with ((pi ++ pd) ++ pq ++ pe)
    by (now rewrite <- app_assoc).
  rewrite (skipn_exact 12) by (rewrite length_app; lia).
  rewrite (firstn_exact 8) by exact Lq.
  replace ((pi ++ pd) ++ pq ++ pe) with ((pi ++ pd ++ pq) ++ pe ++ [])
    by (now rewrite app_nil_r, <- !app_assoc).
  rewrite (skipn_exact 20) by (rewrite !length_app; lia).
  rewrite (firstn_exact 8) by exact Lde.
  now rewrite Vi, Vd, Vq, Ve.
Qed.

Lemma unpack_pack_iQd i q d bs :
  pack_iQd i q d = Ok bs ->
  length bs = 20%nat /\ unpack_iQd bs = Ok (i, q, d).
Proof.
  unfold pack_iQd.
  destruct (pack_int 4 i) as [pi|] eqn:Ei; [|discriminate].
  destruct (pack_uint 8 q) as [pq|] eqn:Eq; [|discriminate].
  cbn [bind].
  pose proof (unpack_pack_double d) as Vd.
  assert (Ld : length (pack_double d) = 8%nat) by apply le_bytes_length.
  remember (pack_double d) as pd eqn:Epd. clear Epd.
  inversion 1; subst bs.
  apply pack_int_inv in Ei. apply pack_uint_inv in Eq.
  destruct Ei as [Li Vi], Eq as [Lq Vq].
  split; [rewrite !length_app; lia|].
  unfold unpack_iQd. rewrite !length_app, Li, Lq, Ld.
  cbn [Nat.eqb Nat.add].
  rewrite (firstn_exact 4) by exact Li.
  rewrite (skipn_exact 4) by exact Li.
  rewrite (firstn_exact 8) by exact Lq.
  replace (pi ++ pq ++ pd) with ((pi ++ pq) ++ pd ++ [])
    by (now rewrite app_nil_r, <- app_assoc).
  rewrite (skipn_exact 12) by (rewrite length_app; lia).
  rewrite (firstn_exact 8) by exact Ld.
  now rewrite Vi, Vq, Vd.
Qed.

Section GrowingFiles.

Context {hashlib : Hashlib} {libm : Libm}.

Lemma storable_pack self :
  storable self ->
  pack_dQQQQ (BloomFilter.error_rate self) (BloomFilter.num_slices self)
             (BloomFilter.bits_per_slice self) (BloomFilter.capacity self)
             (BloomFilter.count self)
  = Ok (pack_double (BloomFilter.error_rate self)
        ++ le_bytes 8 (BloomFilter.num_slices self)
        ++ le_bytes 8 (BloomFilter.bits_per_slice self)
        ++ le_bytes 8 (BloomFilter.capacity self)
        ++ le_bytes 8 (BloomFilter.count self)).
Proof.
  intros (_ & _ & _ & R1 & R2 & R3 & R4). unfold u64 in *.
  unfold pack_dQQQQ. now rewrite !pack_uint_range by assumption.
Qed.

Lemma encoded_length self :
  len (encoded self) = 40 + len (bitarray.tobytes (BloomFilter.bitarray self)).
Proof.
  unfold encoded, len, pack_double.
  rewrite !length_app, !le_bytes_length. lia.
Qed.

Lemma storable_tofile_at before self :
  storable self ->
  BloomFilter.tofile_at self (at_end before)
  = Ok (at_end (before ++ encoded self)).
Proof.
  intros Hs. unfold BloomFilter.tofile_at.
  rewrite (storable_pack self Hs). cbn [bind].
  rewrite !write_at_end. unfold encoded. now rewrite <- !app_assoc.
Qed.

Lemma storable_encoded_fromfile is_string_io self more :
  (exists bogus,
     BloomFilter.__init__ 1 BloomFilter.default_error_rate = Ok bogus) ->
  storable self ->
  BloomFilter.fromfile is_string_io (encoded self ++ more) (len (encoded self))
  = Ok (padded self, more).
Proof.
  intros Hb Hs.
  destruct (storable_round_trip self is_string_io _ Hb Hs
                                (storable_pack self Hs)) as [_ [H _]].
  rewrite encoded_length. specialize (H more).
  unfold encoded. rewrite <- !app_assoc in *. exact H.
Qed.

Lemma write_filters_at_end before fs :
  Forall storable fs ->
  write_filters fs (at_end before)
  = Ok (at_end (before ++ concat (map encoded fs)),
        map (fun f => len (encoded f)) fs).
Proof.
  intros H. revert before.
  induction H as [|f fs Hf _ IH]; intros before;
    cbn [write_filters map concat].
  - now rewrite app_nil_r.
  - rewrite storable_tofile_at by exact Hf. cbn [bind].
    rewrite IH. cbn [bind]. rewrite <- app_assoc. do 3 f_equal.
    unfold tell, at_end, len. cbn [position]. rewrite length_app. lia.
Qed.

Lemma read_filters_encoded is_string_io fs more :
  (exists bogus,
     BloomFilter.__init__ 1 BloomFilter.default_error_rate = Ok bogus) ->
  Forall storable fs ->
  read_filters is_string_io (map (fun f => len (encoded f)) fs)
               (concat (map encoded fs) ++ more)
  = Ok (map padded fs, more).
Proof.
  intros Hb H.
  induction H as [|f fs Hf _ IH]; cbn [read_filters map concat];
    [reflexivity|].
  rewrite <- app_assoc.
  rewrite storable_encoded_fromfile by assumption. cbn [bind].
  rewrite IH. reflexivity.
Qed.

Lemma encoded_size_fits self :
  storable self -> BloomFilter.num_bits self < 2 ^ 64 ->
  u64 (len (encoded self)).
Proof.
  intros (_ & Hlen & _) Hnb. unfold u64.
  rewrite encoded_length, tobytes_length, Hlen.
  pose proof (len_nonneg (BloomFilter.bitarray self)) as H0.
  rewrite Hlen in H0.
  assert (0 <= (BloomFilter.num_bits self + 7) / 8 < 2 ^ 62).
  { split; [apply Z.div_pos; lia|]. apply Z.div_lt_upper_bound; lia. }
  lia.
Qed.

Lemma encoded_sizes_fit fs :
  Forall storable fs ->
  Forall (fun f => BloomFilter.num_bits f < 2 ^ 64) fs ->
  Forall u64 (map (fun f => len (encoded f)) fs).
Proof.
  intros H1 H2. induction H1 as [|f fs Hf _ IH]; cbn [map]; [constructor|].
  inversion H2; subst. constructor; [now apply encoded_size_fits | auto].
Qed.

(** What [tofile] of a growing filter writes after its fixed fields, on a
    file at its end, and where it leaves the position: after the header
    of sizes. *)
Lemma tofile_filters_at_end before fs :
  Forall storable fs ->
  Forall (fun f => BloomFilter.num_bits f < 2 ^ 64) fs ->
  len fs < 2 ^ 31 ->
  tofile_filters fs (at_end before)
  = Ok {| content := before ++ encoded_filters fs;
          position := length before + 4 + 8 * length fs |}.
Proof.
  intros Hs Hnb Hn. unfold tofile_filters, encoded_filters.
  pose proof (len_nonneg fs) as H0.
  destruct (pack_int_range (len fs) ltac:(lia)) as [-> _]. cbn [bind].
  rewrite write_at_end.
  destruct (Z.gtb_spec (len fs) 0) as [Hpos|Hzero].
  - rewrite write_at_end, write_filters_at_end by exact Hs. cbn [bind].
    rewrite pack_uints_ok by (now apply encoded_sizes_fit). cbn [bind].
    unfold seek, tell, at_end. cbn [content position].
    rewrite Nat2Z.id, <- app_assoc.
    rewrite write_over.
    + rewrite concat_le_bytes_length, length_map, length_app, le_bytes_length.
      rewrite map_map, <- app_assoc. do 2 f_equal. lia.
    + rewrite concat_le_bytes_length, length_map, repeat_length. lia.
  - destruct fs as [|f fs];
      [|pose proof (len_nonneg fs); rewrite len_cons in Hzero; lia].
    cbn [map concat length]. unfold at_end.
    rewrite !app_nil_r, length_app, le_bytes_length. do 2 f_equal. lia.
Qed.

Lemma fromfile_filters_encoded is_string_io fs more :
  (exists bogus,
     BloomFilter.__init__ 1 BloomFilter.default_error_rate = Ok bogus) ->
  Forall storable fs ->
  Forall (fun f => BloomFilter.num_bits f < 2 ^ 64) fs ->
  len fs < 2 ^ 31 ->
  fromfile_filters is_string_io [] (encoded_filters fs ++ more)
  = Ok (map padded fs, more).
Proof.
  intros Hb Hs Hnb Hn. unfold fromfile_filters, encoded_filters.
  pose proof (len_nonneg fs) as H0.
  destruct (pack_int_range (len fs) ltac:(lia)) as [_ Hv].
  rewrite <- !app_assoc.
  rewrite (firstn_exact 4) by apply le_bytes_length.
  rewrite (skipn_exact 4) by apply le_bytes_length.
  unfold unpack_int. rewrite le_bytes_length, Nat.eqb_refl, Hv. cbn [bind].
  destruct (Z.gtb_spec (len fs) 0) as [Hpos|Hzero].
  - cbv zeta.
    replace (Z.to_nat (len fs)) with (length fs) by (unfold len; lia).
    assert (Hl : length (concat (map (fun f => le_bytes 8 (len (encoded f)))
                                     fs))
                 = (8 * length fs)%nat).
    { rewrite <- map_map, concat_le_bytes_length, length_map. lia. }
    rewrite (firstn_exact _ _ _ Hl), (skipn_exact _ _ _ Hl).
    rewrite <- map_map.
    rewrite <- (length_map (fun f => len (encoded f)) fs) at 1.
    rewrite unpack_uints_concat by (now apply encoded_sizes_fit).
    cbn [bind]. rewrite read_filters_encoded by assumption. reflexivity.
  - destruct fs as [|f fs];
      [|pose proof (len_nonneg fs); rewrite len_cons in Hzero; lia]. reflexivity.
Qed.

Lemma pack_int_total z :
  - 2 ^ 31 <= z < 2 ^ 31 -> exists bs, pack_int 4 z = Ok bs.
Proof.
  intros H. unfold pack_int.
  change (2 ^ (8 * Z.of_nat 4 - 1)) with (2 ^ 31).
  destruct (Z.leb_spec (- 2 ^ 31) z); [|lia].
  destruct (Z.ltb_spec z (2 ^ 31)); [|lia]. cbn [andb]. eauto.
Qed.

(** X21. The file of a scalable filter: [tofile] on a file at its end,
    then [fromfile] on what was written, gives a filter with the same
    scale, ratio, initial capacity and error rate, whose sub-filters are
    those written, each with the zero bits that fill its last byte.  The
    sub-filters are as [_setup] makes them and every integer fits its
    field. *)
Theorem scalable_file_round_trip (self : ScalableBloomFilter.t)
        (is_string_io : bool) (before : list byte) :
  (exists bogus,
     BloomFilter.__init__ 1 BloomFilter.default_error_rate = Ok bogus) ->
  Forall storable (ScalableBloomFilter.filters self) ->
  Forall (fun f => BloomFilter.num_bits f < 2 ^ 64)
         (ScalableBloomFilter.filters self) ->
  len (ScalableBloomFilter.filters self) < 2 ^ 31 ->
  - 2 ^ 31 <= ScalableBloomFilter.scale self < 2 ^ 31 ->
  u64 (ScalableBloomFilter.initial_capacity self) ->
  exists f' bytes,
    ScalableBloomFilter.tofile self (at_end before) = Ok f' /\
    content f' = before ++ bytes /\
    ScalableBloomFilter.fromfile is_string_io bytes
    = Ok (ScalableBloomFilter.set_filters
            (map padded (ScalableBloomFilter.filters self)) self, []).
Proof.
  intros Hb Hs Hnb Hn Hscale Hic.
  destruct (pack_int_total _ Hscale) as [pi Hpi].
  assert (Hh : exists header,
             pack_idQd (ScalableBloomFilter.scale self)
                       (ScalableBloomFilter.ratio self)
                       (ScalableBloomFilter.initial_capacity self)
                       (ScalableBloomFilter.error_rate self) = Ok header).
  { unfold pack_idQd. rewrite Hpi, pack_uint_range by exact Hic.
    cbn [bind]. eauto. }
  destruct Hh as [header Hh].
  destruct (unpack_pack_idQd _ _ _ _ _ Hh) as [Hl Hu].
  exists {| content :=
              (before ++ header)
              ++ encoded_filters (ScalableBloomFilter.filters self);
            position := length (before ++ header) + 4
                        + 8 * length (ScalableBloomFilter.filters self) |},
         (header ++ encoded_filters (ScalableBloomFilter.filters self)).
  split; [|split].
  - unfold ScalableBloomFilter.tofile. rewrite Hh. cbn [bind].
    rewrite write_at_end. now apply tofile_filters_at_end.
  - cbn [content]. now rewrite <- app_assoc.
  - unfold ScalableBloomFilter.fromfile.
    assert (Hinit : ScalableBloomFilter.__init__ 100
                      BloomFilter.default_error_rate
                      ScalableBloomFilter.SMALL_SET_GROWTH
                    = Ok {| ScalableBloomFilter.scale := 2;
                            ScalableBloomFilter.ratio :=
                              ScalableBloomFilter.default_ratio;
                            ScalableBloomFilter.initial_capacity := 100;
                            ScalableBloomFilter.error_rate :=
                              BloomFilter.default_error_rate;
                            ScalableBloomFilter.filters := [] |})
      by reflexivity.
    rewrite Hinit. cbn [bind].
    rewrite (firstn_exact 28) by exact Hl.
    rewrite (skipn_exact 28) by exact Hl.
    rewrite Hu. cbn [bind].
    cbn [ScalableBloomFilter.filters ScalableBloomFilter._setup].
    rewrite <- (app_nil_r (encoded_filters _)).
    rewrite fromfile_filters_encoded by assumption. cbn [bind].
    now destruct self.
Qed.

(** X22. The file of a dynamic filter: [tofile] on a file at its end,
    then [fromfile] on what was written, gives a filter with the same
    base capacity, maximal capacity and error rates, whose sub-filters are
    those written, each with the zero bits that fill its last byte.  The
    individual error rate is not written: [fromfile] derives it again, and
    the filter is one whose rate is the one [_setup] derives. *)
Theorem dynamic_file_round_trip (self : DynamicBloomFilter.t)
        (is_string_io : bool) (before : list byte) :
  (exists bogus,
     BloomFilter.__init__ 1 BloomFilter.default_error_rate = Ok bogus) ->
  (exists default,
     DynamicBloomFilter.__init__ 100 1000000 BloomFilter.default_error_rate
     = Ok default) ->
  DynamicBloomFilter.derive_individual_error_rate
    (DynamicBloomFilter.base_capacity self)
    (DynamicBloomFilter.max_capacity self)
    (DynamicBloomFilter.max_error_rate self)
  = Ok (DynamicBloomFilter.individual_error_rate self) ->
  Forall storable (DynamicBloomFilter.filters self) ->
  Forall (fun f => BloomFilter.num_bits f < 2 ^ 64)
         (DynamicBloomFilter.filters self) ->
  len (DynamicBloomFilter.filters self) < 2 ^ 31 ->
  - 2 ^ 31 <= DynamicBloomFilter.base_capacity self < 2 ^ 31 ->
  u64 (DynamicBloomFilter.max_capacity self) ->
  exists f' bytes,
    DynamicBloomFilter.tofile self (at_end before) = Ok f' /\
    content f' = before ++ bytes /\
    DynamicBloomFilter.fromfile is_string_io bytes
    = Ok (DynamicBloomFilter.set_filters
            (map padded (DynamicBloomFilter.filters self)) self, []).
Proof.
  intros Hb [default Hd] Hrate Hs Hnb Hn Hbc Hmc.
  destruct (pack_int_total _ Hbc) as [pi Hpi].
  assert (Hh : exists header,
             pack_iQd (DynamicBloomFilter.base_capacity self)
                      (DynamicBloomFilter.max_capacity self)
                      (DynamicBloomFilter.max_error_rate self) = Ok header).
  { unfold pack_iQd. rewrite Hpi, pack_uint_range by exact Hmc.
    cbn [bind]. eauto. }
  destruct Hh as [header Hh].
  destruct (unpack_pack_iQd _ _ _ _ Hh) as [Hl Hu].
  exists {| content :=
              (before ++ header)
              ++ encoded_filters (DynamicBloomFilter.filters self);
            position := length (before ++ header) + 4
                        + 8 * length (DynamicBloomFilter.filters self) |},
         (header ++ encoded_filters (DynamicBloomFilter.filters self)).
  split; [|split].
  - unfold DynamicBloomFilter.tofile. rewrite Hh. cbn [bind].
    rewrite write_at_end. now apply tofile_filters_at_end.
  - cbn [content]. now rewrite <- app_assoc.
  - unfold DynamicBloomFilter.fromfile. rewrite Hd. cbn [bind].
    destruct (init_inv _ _ _ _ Hd) as [_ [_ [_ Hnil]]].
    rewrite (firstn_exact 20) by exact Hl.
    rewrite (skipn_exact 20) by exact Hl.
    rewrite Hu. cbn [bind]. unfold DynamicBloomFilter._setup.
    rewrite Hrate. cbn [bind DynamicBloomFilter.filters]. rewrite Hnil.
    rewrite <- (app_nil_r (encoded_filters _)).
    rewrite fromfile_filters_encoded by assumption. cbn [bind].
    now destruct self.
Qed.

(** X23. Where [tofile] of a growing filter leaves the file: with one
    sub-filter at least, the position is the end of the header of sizes,
    which is written last, and no longer the end of the file; each
    sub-filter written lies after it.  What is written next to the same
    file object goes over the sub-filters. *)
Theorem growing_tofile_leaves_position_inside :
  (forall (self : ScalableBloomFilter.t) before f',
     Forall storable (ScalableBloomFilter.filters self) ->
     Forall (fun f => BloomFilter.num_bits f < 2 ^ 64)
            (ScalableBloomFilter.filters self) ->
     len (ScalableBloomFilter.filters self) < 2 ^ 31 ->
     ScalableBloomFilter.filters self <> [] ->
     ScalableBloomFilter.tofile self (at_end before) = Ok f' ->
     tell f' = len before + 28 + 4
               + 8 * len (ScalableBloomFilter.filters self) /\
     tell f' + 40 * len (ScalableBloomFilter.filters self)
     <= len (content f') /\
     tell f' < len (content f')) /\
  (forall (self : DynamicBloomFilter.t) before f',
     Forall storable (DynamicBloomFilter.filters self) ->
     Forall (fun f => BloomFilter.num_bits f < 2 ^ 64)
            (DynamicBloomFilter.filters self) ->
     len (DynamicBloomFilter.filters self) < 2 ^ 31 ->
     DynamicBloomFilter.filters self <> [] ->
     DynamicBloomFilter.tofile self (at_end before) = Ok f' ->
     tell f' = len before + 20 + 4
               + 8 * len (DynamicBloomFilter.filters self) /\
     tell f' + 40 * len (DynamicBloomFilter.filters self)
     <= len (content f') /\
     tell f' < len (content f')).
Proof.
  assert (Hsizes : forall fs,
             40 * len fs <= len (concat (map encoded fs))).
  { induction fs as [|f fs IH]; cbn [map concat].
    - unfold len. cbn [length Z.of_nat]. lia.
    - rewrite len_cons, len_app, encoded_length.
      pose proof (len_nonneg (bitarray.tobytes (BloomFilter.bitarray f))).
      lia. }
  assert (Hcount : forall fs,
             len (encoded_filters fs)
             = 4 + 8 * len fs + len (concat (map encoded fs))).
  { intros fs. unfold encoded_filters. rewrite !len_app.
    assert (E2 : len (concat (map (fun f => le_bytes 8 (len (encoded f)))
                                  fs)) = 8 * len fs).
    { induction fs as [|f fs IH]; cbn [map concat].
      - reflexivity.
      - rewrite len_app, len_cons, IH. unfold len at 1.
        rewrite le_bytes_length. lia. }
    assert (E1 : len (le_bytes 4 (len fs)) = 4)
      by (unfold len at 1; now rewrite le_bytes_length).
    lia. }
  split.
  - intros self before f' Hs Hnb Hn Hne.
    unfold ScalableBloomFilter.tofile.
    destruct (pack_idQd _ _ _ _) as [header|] eqn:Hh; cbn [bind];
      [|discriminate].
    destruct (unpack_pack_idQd _ _ _ _ _ Hh) as [Hl _].
    rewrite write_at_end, tofile_filters_at_end by assumption.
    inversion 1; subst f'. unfold tell. cbn [position content].
    rewrite !len_app, Hcount.
    specialize (Hsizes (ScalableBloomFilter.filters self)).
    assert (0 < len (ScalableBloomFilter.filters self)).
    { destruct (ScalableBloomFilter.filters self) as [|f fs];
        [contradiction|].
      rewrite len_cons. pose proof (len_nonneg fs). lia. }
    unfold len in *. rewrite length_app, Hl. repeat split; lia.
  - intros self before f' Hs Hnb Hn Hne.
    unfold DynamicBloomFilter.tofile.
    destruct (pack_iQd _ _ _) as [header|] eqn:Hh; cbn [bind];
      [|discriminate].
    destruct (unpack_pack_iQd _ _ _ _ Hh) as [Hl _].
    rewrite write_at_end, tofile_filters_at_end by assumption.
    inversion 1; subst f'. unfold tell. cbn [position content].
    rewrite !len_app, Hcount.
    specialize (Hsizes (DynamicBloomFilter.filters self)).
    assert (0 < len (DynamicBloomFilter.filters self)).
    { destruct (DynamicBloomFilter.filters self) as [|f fs];
        [contradiction|].
      rewrite len_cons. pose proof (len_nonneg fs). lia. }
    unfold len in *. rewrite length_app, Hl. repeat split; lia.
Qed.

End GrowingFiles.

(** ** [DynamicBloomFilter.union]: the sub-filters of the result *)

Lemma contains_loop_total a b bps ks stop off :
  len b = len a ->
  BloomFilter.contains_loop a bps ks stop off = Ok true ->
  exists r, BloomFilter.contains_loop b bps ks stop off = Ok r.
Proof.
  intros Hl. revert off.
  induction ks as [|k ks IH]; intros off; cbn [BloomFilter.contains_loop].
  - destruct stop; [discriminate | eauto].
  - unfold bitarray.getitem. rewrite Hl.
    destruct (bitarray.index (len a) (off + k)) as [i|e]; cbn [bind];
      [|discriminate].
    destruct (nth i a false); cbn [negb]; [|discriminate].
    destruct (nth i b false); cbn [negb]; [apply IH | eauto].
Qed.

Lemma covered_refl fs : covered fs fs.
Proof. intros f Hf. exists f. split; [exact Hf | apply included_refl]. Qed.

Lemma covered_trans fs gs hs : covered fs gs -> covered gs hs -> covered fs hs.
Proof.
  intros H1 H2 f Hf. destruct (H1 f Hf) as [g [Hg I1]].
  destruct (H2 g Hg) as [h [Hh I2]]. exists h. split; [exact Hh|].
  eapply included_trans; eauto.
Qed.

Lemma covered_perm fs fs' gs gs' :
  (forall f, In f fs' -> In f fs) -> (forall g, In g gs -> In g gs') ->
  covered fs gs -> covered fs' gs'.
Proof.
  intros H1 H2 H f Hf. destruct (H f (H1 f Hf)) as [g [Hg I]]. eauto.
Qed.

Section DynamicUnion.

Context {hashlib : Hashlib} {libm : Libm}.

Lemma same_kind_fields bc rate f g :
  same_kind bc rate f -> same_kind bc rate g ->
  BloomFilter.make_hashes f = BloomFilter.make_hashes g /\
  BloomFilter.bits_per_slice f = BloomFilter.bits_per_slice g /\
  len (BloomFilter.bitarray f) = len (BloomFilter.bitarray g).
Proof.
  intros [Cf [Hf1 Hf2]] [Cg [Hg1 Hg2]].
  destruct (constructed_same_fields f g Cf Cg) as [Hh [Hb _]];
    try congruence.
  split; [exact Hh|]. split; [exact Hb|].
  unfold len. f_equal. apply constructed_same_length; congruence.
Qed.

(** Among filters of one kind, a key that is a member of a filter is a
    member of every filter that has its bits, and its membership test
    raises on none. *)
Lemma same_kind_member bc rate f g key :
  same_kind bc rate f -> same_kind bc rate g ->
  BloomFilter.__contains__ f key = Ok true ->
  (exists b, BloomFilter.__contains__ g key = Ok b) /\
  (included (BloomFilter.bitarray f) (BloomFilter.bitarray g) ->
   BloomFilter.__contains__ g key = Ok true).
Proof.
  intros Hf Hg. destruct (same_kind_fields _ _ _ _ Hf Hg) as [Hh [Hb Hl]].
  unfold BloomFilter.__contains__. rewrite <- Hh, <- Hb.
  destruct (hashes (BloomFilter.make_hashes f) key) as [ks stop].
  intros H. split.
  - eapply contains_loop_total; [symmetry; exact Hl | exact H].
  - intros Hi. eapply contains_loop_mono; [symmetry; exact Hl | exact Hi | exact H].
Qed.

Lemma any_contains_true_inv fs key :
  any_contains fs key = Ok true ->
  exists f, In f fs /\ BloomFilter.__contains__ f key = Ok true.
Proof.
  induction fs as [|f fs IH]; cbn [any_contains]; [discriminate|].
  destruct (BloomFilter.__contains__ f key) as [[|]|e] eqn:C; cbn [bind].
  - intros _. exists f. split; [now left | exact C].
  - intros H. destruct (IH H) as [g [Hg Cg]]. exists g.
    split; [now right | exact Cg].
  - discriminate.
Qed.

Lemma any_contains_true_intro fs key :
  (forall g, In g fs -> exists b, BloomFilter.__contains__ g key = Ok b) ->
  (exists g, In g fs /\ BloomFilter.__contains__ g key = Ok true) ->
  any_contains fs key = Ok true.
Proof.
  induction fs as [|f fs IH]; intros Hall [g [Hg Cg]]; [contradiction|].
  cbn [any_contains].
  destruct (Hall f (or_introl eq_refl)) as [[|] Cf]; rewrite Cf; cbn [bind];
    [reflexivity|].
  apply IH.
  - intros h Hh. apply Hall. now right.
  - destruct Hg as [->|Hg]; [congruence|]. eauto.
Qed.

(** A key that is a member of a filter of [fs] is a member of every list
    of filters of the kind that covers [fs], in whatever order it is
    scanned. *)
Lemma covered_member bc rate fs gs key :
  Forall (same_kind bc rate) fs -> Forall (same_kind bc rate) gs ->
  covered fs gs ->
  any_contains (rev fs) key = Ok true ->
  any_contains (rev gs) key = Ok true.
Proof.
  intros Hfs Hgs Hc H. apply any_contains_true_inv in H.
  destruct H as [f [Hf Cf]]. apply in_rev in Hf.
  pose proof (proj1 (Forall_forall _ _) Hfs f Hf) as Kf.
  apply any_contains_true_intro.
  - intros g Hg. apply in_rev in Hg.
    pose proof (proj1 (Forall_forall _ _) Hgs g Hg) as Kg.
    apply (same_kind_member _ _ _ _ _ Kf Kg Cf).
  - destruct (Hc f Hf) as [g [Hg Hi]]. exists g.
    split; [now apply in_rev in Hg|].
    pose proof (proj1 (Forall_forall _ _) Hgs g Hg) as Kg.
    now apply (same_kind_member _ _ _ _ _ Kf Kg Cf).
Qed.

Lemma merged_same_kind bc rate f g :
  same_kind bc rate f -> same_kind bc rate g ->
  BloomFilter.__or__ f g = Ok (merged orb f g) /\
  same_kind bc rate (merged orb f g) /\
  included (BloomFilter.bitarray f) (BloomFilter.bitarray (merged orb f g)) /\
  included (BloomFilter.bitarray g) (BloomFilter.bitarray (merged orb f g)).
Proof.
  intros [Cf [Hf1 Hf2]] [Cg [Hg1 Hg2]].
  assert (Hc : BloomFilter.capacity f = BloomFilter.capacity g) by congruence.
  assert (He : BloomFilter.error_rate f = BloomFilter.error_rate g)
    by congruence.
  pose proof (constructed_same_length f g Cf Cg Hc He) as Hl.
  split; [now apply union_spec|].
  destruct (merged_constructed orb f g Cf Cg Hc He) as [M1 [M2 M3]].
  split; [repeat split; congruence|].
  unfold merged. cbv zeta.
  cbn [BloomFilter.bitarray BloomFilter.set_count BloomFilter.set_bitarray].
  split; [now apply included_zip_or_l | now apply included_zip_or_r].
Qed.

(** The inner loop of [union]: it returns, and when it finds a mate, the
    list it gives has the length of the one it was given, filters of the
    kind, and the bits of [mine] and of every filter it was given. *)
Lemma find_union_mate_spec bc rate mine reversed :
  same_kind bc rate mine -> Forall (same_kind bc rate) reversed ->
  exists r,
    DynamicBloomFilter.find_union_mate bc mine reversed = Ok r /\
    match r with
    | Some l =>
      Forall (same_kind bc rate) l /\ length l = length reversed /\
      covered (mine :: reversed) l
    | None => True
    end.
Proof.
  intros Hm. induction 1 as [|o rest Ho Hrest IH];
    cbn [DynamicBloomFilter.find_union_mate].
  - now exists None.
  - destruct (merged_same_kind _ _ _ _ Hm Ho) as [-> [Mk [Mi Mo]]].
    cbn [bind]. destruct (_ <? bc).
    + eexists. split; [reflexivity|]. split; [now constructor|].
      split; [reflexivity|].
      intros f [<-|[<-|Hf]].
      * eexists. split; [now left | exact Mi].
      * eexists. split; [now left | exact Mo].
      * exists f. split; [now right | apply included_refl].
    + destruct IH as [r [-> Hr]]. cbn [bind]. eexists. split; [reflexivity|].
      destruct r as [l|]; cbn [option_map]; [|exact I].
      destruct Hr as [Hk [Hlen Hc]].
      split; [now constructor|]. split; [cbn [length]; now rewrite Hlen|].
      intros f [<-|[<-|Hf]].
      * destruct (Hc mine (or_introl eq_refl)) as [g [Hg Hi]].
        exists g. split; [now right | exact Hi].
      * exists o. split; [now left | apply included_refl].
      * destruct (Hc f (or_intror Hf)) as [g [Hg Hi]].
        exists g. split; [now right | exact Hi].
Qed.

(** The outer loop of [union]: it returns filters of the kind that have
    the bits of every filter of the two lists, no fewer than the second
    list has and no more than the two lists have together. *)
Lemma union_loop_spec bc rate my_filters other_filters :
  Forall (same_kind bc rate) my_filters ->
  Forall (same_kind bc rate) other_filters ->
  exists fs,
    DynamicBloomFilter.union_loop bc my_filters other_filters = Ok fs /\
    Forall (same_kind bc rate) fs /\
    covered (my_filters ++ other_filters) fs /\
    (length other_filters <= length fs
     <= length my_filters + length other_filters)%nat.
Proof.
  intros Hm. revert other_filters.
  induction Hm as [|mine rest Hmine _ IH]; intros others Ho;
    cbn [DynamicBloomFilter.union_loop].
  - exists others. split; [reflexivity|]. split; [exact Ho|].
    split; [apply covered_refl | cbn [length]; lia].
  - destruct (find_union_mate_spec bc rate mine (rev others) Hmine)
      as [r [-> Hr]]; [now apply Forall_rev|].
    cbn [bind].
    set (next := match r with
                 | Some reversed => rev reversed
                 | None => others ++ [mine]
                 end).
    assert (Hnext : Forall (same_kind bc rate) next /\
                    covered (mine :: others) next /\
                    (length others <= length next <= 1 + length others)%nat).
    { unfold next. destruct r as [l|].
      - destruct Hr as [Hk [Hlen Hc]]. split; [now apply Forall_rev|].
        split.
        + eapply covered_perm; [| |exact Hc].
          * intros f [<-|Hf]; [now left | right; now apply in_rev in Hf].
          * intros g Hg. now apply in_rev in Hg.
        + rewrite length_rev, Hlen, length_rev. lia.
      - split; [apply Forall_app; split; [exact Ho | now constructor]|].
        split.
        + intros f Hf. exists f. split; [|apply included_refl].
          apply in_app_iff. destruct Hf as [<-|Hf]; [right; now left | now left].
        + rewrite length_app. cbn [length]. lia. }
    destruct Hnext as [Hk [Hc Hlen]].
    destruct (IH next Hk) as [fs [-> [Hfs [Hcov Hl]]]].
    exists fs. split; [reflexivity|]. split; [exact Hfs|]. split.
    + eapply covered_trans; [|exact Hcov].
      intros f Hf. cbn [app] in Hf.
      destruct Hf as [<-|Hf].
      * destruct (Hc mine (or_introl eq_refl)) as [g [Hg Hi]].
        exists g. split; [apply in_app_iff; now right | exact Hi].
      * apply in_app_iff in Hf. destruct Hf as [Hf|Hf].
        -- exists f. split; [apply in_app_iff; now left | apply included_refl].
        -- destruct (Hc f (or_intror Hf)) as [g [Hg Hi]].
           exists g. split; [apply in_app_iff; now right | exact Hi].
    + cbn [length]. lia.
Qed.

Lemma dynamic_union_spec (self other : DynamicBloomFilter.t) fresh :
  DynamicBloomFilter.__init__ (DynamicBloomFilter.base_capacity self)
    (DynamicBloomFilter.max_capacity self)
    (DynamicBloomFilter.max_error_rate self) = Ok fresh ->
  DynamicBloomFilter.base_capacity self
  = DynamicBloomFilter.base_capacity other ->
  (DynamicBloomFilter.individual_error_rate self
   =? DynamicBloomFilter.individual_error_rate other)%float = true ->
  Forall (same_kind (DynamicBloomFilter.base_capacity self)
                    (DynamicBloomFilter.individual_error_rate self))
         (DynamicBloomFilter.filters self) ->
  Forall (same_kind (DynamicBloomFilter.base_capacity self)
                    (DynamicBloomFilter.individual_error_rate self))
         (DynamicBloomFilter.filters other) ->
  exists fs,
    DynamicBloomFilter.union self other
    = Ok (DynamicBloomFilter.set_filters fs fresh) /\
    Forall (same_kind (DynamicBloomFilter.base_capacity self)
                      (DynamicBloomFilter.individual_error_rate self)) fs /\
    covered (DynamicBloomFilter.filters self
             ++ DynamicBloomFilter.filters other) fs /\
    (length (DynamicBloomFilter.filters other) <= length fs
     <= length (DynamicBloomFilter.filters self)
        + length (DynamicBloomFilter.filters other))%nat.
Proof.
  intros Hfresh Hbc Her Hs Ho.
  destruct (union_loop_spec _ _ _ _ Hs Ho) as [fs [Hfs H]].
  exists fs. split; [|exact H].
  unfold DynamicBloomFilter.union.
  rewrite <- Hbc, Z.eqb_refl, Her. cbn [negb orb].
  rewrite Hfresh. cbn [bind].
  rewrite mapM_copy.
  - cbn [bind]. rewrite Hfs. reflexivity.
  - eapply Forall_impl; [|exact Ho]. now intros f [Hc _].
Qed.

(** X24. [DynamicBloomFilter.union] loses no member: for two dynamic
    filters of one base capacity and individual error rate, whose
    sub-filters are all built with these two, every key that tests as a
    member of one of them tests as a member of their union. *)
Theorem dynamic_union_keeps_members (self other : DynamicBloomFilter.t) :
  (exists fresh,
     DynamicBloomFilter.__init__ (DynamicBloomFilter.base_capacity self)
       (DynamicBloomFilter.max_capacity self)
       (DynamicBloomFilter.max_error_rate self) = Ok fresh) ->
  DynamicBloomFilter.base_capacity self
  = DynamicBloomFilter.base_capacity other ->
  (DynamicBloomFilter.individual_error_rate self
   =? DynamicBloomFilter.individual_error_rate other)%float = true ->
  Forall (same_kind (DynamicBloomFilter.base_capacity self)
                    (DynamicBloomFilter.individual_error_rate self))
         (DynamicBloomFilter.filters self) ->
  Forall (same_kind (DynamicBloomFilter.base_capacity self)
                    (DynamicBloomFilter.individual_error_rate self))
         (DynamicBloomFilter.filters other) ->
  exists u,
    DynamicBloomFilter.union self other = Ok u /\
    forall key,
      DynamicBloomFilter.__contains__ self key = Ok true \/
      DynamicBloomFilter.__contains__ other key = Ok true ->
      DynamicBloomFilter.__contains__ u key = Ok true.
Proof.
  intros [fresh Hfresh] Hbc Her Hs Ho.
  destruct (dynamic_union_spec self other fresh Hfresh Hbc Her Hs Ho)
    as [fs [Hu [Hk [Hc _]]]].
  exists (DynamicBloomFilter.set_filters fs fresh). split; [exact Hu|].
  intros key. unfold DynamicBloomFilter.__contains__.
  cbn [DynamicBloomFilter.filters DynamicBloomFilter.set_filters].
  intros [H|H]; revert H; eapply covered_member; try eassumption.
  - intros f Hf. apply Hc. apply in_app_iff. now left.
  - intros f Hf. apply Hc. apply in_app_iff. now right.
Qed.

(** X25. The sub-filters of a union: [DynamicBloomFilter.union] returns a
    filter with the base capacity, the maximal capacity and the maximal
    error rate of [self], whose sub-filters are all of the one kind, no
    fewer than [other] has and no more than the two operands have
    together; the union of a filter without sub-filters with [other] has
    the sub-filters of [other]. *)
Theorem dynamic_union_shape (self other : DynamicBloomFilter.t) :
  (exists fresh,
     DynamicBloomFilter.__init__ (DynamicBloomFilter.base_capacity self)
       (DynamicBloomFilter.max_capacity self)
       (DynamicBloomFilter.max_error_rate self) = Ok fresh) ->
  DynamicBloomFilter.base_capacity self
  = DynamicBloomFilter.base_capacity other ->
  (DynamicBloomFilter.individual_error_rate self
   =? DynamicBloomFilter.individual_error_rate other)%float = true ->
  Forall (same_kind (DynamicBloomFilter.base_capacity self)
                    (DynamicBloomFilter.individual_error_rate self))
         (DynamicBloomFilter.filters self) ->
  Forall (same_kind (DynamicBloomFilter.base_capacity self)
                    (DynamicBloomFilter.individual_error_rate self))
         (DynamicBloomFilter.filters other) ->
  exists u,
    DynamicBloomFilter.union self other = Ok u /\
    DynamicBloomFilter.base_capacity u
    = DynamicBloomFilter.base_capacity self /\
    DynamicBloomFilter.max_capacity u
    = DynamicBloomFilter.max_capacity self /\
    DynamicBloomFilter.max_error_rate u
    = DynamicBloomFilter.max_error_rate self /\
    Forall (same_kind (DynamicBloomFilter.base_capacity self)
                      (DynamicBloomFilter.individual_error_rate self))
           (DynamicBloomFilter.filters u) /\
    len (DynamicBloomFilter.filters other)
    <= len (DynamicBloomFilter.filters u)
    <= len (DynamicBloomFilter.filters self)
       + len (DynamicBloomFilter.filters other) /\
    (DynamicBloomFilter.filters self = [] ->
     DynamicBloomFilter.filters u = DynamicBloomFilter.filters other).
Proof.
  intros [fresh Hfresh] Hbc Her Hs Ho.
  destruct (dynamic_union_spec self other fresh Hfresh Hbc Her Hs Ho)
    as [fs [Hu [Hk [_ Hl]]]].
  exists (DynamicBloomFilter.set_filters fs fresh). split; [exact Hu|].
  destruct (init_inv _ _ _ _ Hfresh) as [F1 [F2 [F3 _]]].
  cbn [DynamicBloomFilter.filters DynamicBloomFilter.set_filters
       DynamicBloomFilter.base_capacity DynamicBloomFilter.max_capacity
       DynamicBloomFilter.max_error_rate].
  split; [exact F1|]. split; [exact F2|]. split; [exact F3|].
  split; [exact Hk|]. split; [unfold len; lia|].
  intros Hnil. unfold DynamicBloomFilter.union in Hu.
  rewrite <- Hbc, Z.eqb_refl, Her in Hu. cbn [negb orb] in Hu.
  rewrite Hfresh in Hu. cbn [bind] in Hu.
  rewrite mapM_copy in Hu
    by (eapply Forall_impl; [|exact Ho]; now intros f [Hc _]).
  rewrite Hnil in Hu. cbn [bind DynamicBloomFilter.union_loop] in Hu.
  assert (E : Ok (DynamicBloomFilter.filters
                    (DynamicBloomFilter.set_filters
                       (DynamicBloomFilter.filters other) fresh))
              = Ok (DynamicBloomFilter.filters
                      (DynamicBloomFilter.set_filters fs fresh)))
    by (f_equal; congruence).
  cbn [DynamicBloomFilter.filters DynamicBloomFilter.set_filters] in E.
  congruence.
Qed.

End DynamicUnion.

(** The union of the filter that holds [hello] with the one that holds
    [world] has both keys. *)
Lemma dynamic_union_keeps_members_witness :
  exists u,
    DynamicBloomFilter.union (hashlib := Demo.hashlib) (libm := Demo.libm)
                             Demo.with_hello Demo.with_world = Ok u /\
    DynamicBloomFilter.__contains__ (hashlib := Demo.hashlib) u Demo.hello
    = Ok true /\
    DynamicBloomFilter.__contains__ (hashlib := Demo.hashlib) u Demo.world
    = Ok true.
Proof.
  destruct (@dynamic_union_keeps_members Demo.hashlib Demo.libm
              Demo.with_hello Demo.with_world) as [u [Hu Hm]].
  - exists Demo.dynamic40. by_evaluation.
  - by_evaluation.
  - by_evaluation.
  - constructor; [|constructor].
    split; [constructed_by_evaluation Demo.sub_filter0|].
    split; by_evaluation.
  - constructor; [|constructor].
    split; [constructed_by_evaluation Demo.sub_filter0|].
    split; by_evaluation.
  - exists u. split; [exact Hu|].
    split; apply Hm; [left | right]; by_evaluation.
Defined.

Lemma dynamic_union_shape_witness :
  exists u,
    DynamicBloomFilter.union (hashlib := Demo.hashlib) (libm := Demo.libm)
                             Demo.with_hello Demo.with_world = Ok u /\
    1 <= len (DynamicBloomFilter.filters u) <= 2.
Proof.
  destruct (@dynamic_union_shape Demo.hashlib Demo.libm
              Demo.with_hello Demo.with_world)
    as [u [Hu [_ [_ [_ [_ [Hl _]]]]]]].
  - exists Demo.dynamic40. by_evaluation.
  - by_evaluation.
  - by_evaluation.
  - constructor; [|constructor].
    split; [constructed_by_evaluation Demo.sub_filter0|].
    split; by_evaluation.
  - constructor; [|constructor].
    split; [constructed_by_evaluation Demo.sub_filter0|].
    split; by_evaluation.
  - exists u. split; [exact Hu|]. exact Hl.
Defined.

(** ** The capacities of a dynamic filter *)

Section ZeroCapacity.

Context {libm : Libm}.

(** X26. A dynamic filter of no capacity: with a base capacity or a
    maximal capacity of zero, and an error rate that passes the test and
    has a logarithm of its complement, the constructor divides by zero
    and raises [ZeroDivisionError]; no test of the constructor looks at
    the two capacities. *)
Theorem dynamic_zero_capacity (base_capacity max_capacity : Z)
        (error_rate : float) :
  (error_rate =? 0)%float || (error_rate <? 0)%float = false ->
  (exists lg, math_log (1 - error_rate)%float = Ok lg) ->
  base_capacity = 0 \/ max_capacity = 0 ->
  DynamicBloomFilter.__init__ base_capacity max_capacity error_rate
  = Raise ZeroDivisionError.
Proof.
  intros Htest [lg Hlg] Hz.
  unfold DynamicBloomFilter.__init__, DynamicBloomFilter._setup,
    DynamicBloomFilter.derive_individual_error_rate.
  rewrite Htest, Hlg. cbn [bind]. unfold int_truediv.
  destruct (Z.eqb_spec base_capacity 0) as [Hb|Hb]; [reflexivity|].
  destruct Hz as [Hz|Hz]; [contradiction|]. subst max_capacity.
  cbn [Z.eqb Z.ltb Z.compare xorb].
  destruct (base_capacity <? 0); reflexivity.
Qed.

End ZeroCapacity.

Lemma dynamic_zero_capacity_witness :
  DynamicBloomFilter.__init__ (libm := Demo.libm) 0 1000 Demo.rate
  = Raise ZeroDivisionError.
Proof.
  apply (@dynamic_zero_capacity Demo.libm 0 1000 Demo.rate).
  - by_evaluation.
  - eexists. by_evaluation.
  - now left.
Defined.

(** ** Sample runs of the growing filters *)

(** [ScalableBloomFilter(2, 0.5)] after [add("hello")] has the key. *)
Lemma growing_added_key_is_member_witness :
  ScalableBloomFilter.add (hashlib := Demo.hashlib) (libm := Demo.libm)
                          Demo.scalable Demo.hello
  = (Ok false, Demo.scalable_hello) /\
  ScalableBloomFilter.__contains__ (hashlib := Demo.hashlib)
                                   Demo.scalable_hello Demo.hello = Ok true.
Proof.
  assert (H : ScalableBloomFilter.add (hashlib := Demo.hashlib)
                (libm := Demo.libm) Demo.scalable Demo.hello
              = (Ok false, Demo.scalable_hello)) by by_evaluation.
  split; [exact H|].
  exact (proj1 (@growing_added_key_is_member Demo.hashlib Demo.libm)
               _ _ _ _ H).
Defined.

(** After [hello] and [world] were added to [ScalableBloomFilter(2, 0.5)]
    the length is at most two and at most the capacity. *)
Lemma growing_len_bounds_witness :
  ScalableBloomFilter.__init__ 2 0.5 ScalableBloomFilter.SMALL_SET_GROWTH
  = Ok Demo.scalable /\
  ScalableBloomFilter.__len__
    (scalable_add_all (hashlib := Demo.hashlib) (libm := Demo.libm)
                      Demo.scalable [Demo.hello; Demo.world])
  <= ScalableBloomFilter.capacity
       (scalable_add_all (hashlib := Demo.hashlib) (libm := Demo.libm)
                         Demo.scalable [Demo.hello; Demo.world]).
Proof.
  assert (H : ScalableBloomFilter.__init__ 2 0.5
                ScalableBloomFilter.SMALL_SET_GROWTH = Ok Demo.scalable)
    by reflexivity.
  split; [exact H|].
  exact (proj1 (proj2 (proj1 (@growing_len_bounds Demo.hashlib Demo.libm)
                             _ _ _ _ [Demo.hello; Demo.world] H))).
Defined.

Lemma dynamic_filters_are_uniform_witness :
  DynamicBloomFilter.__init__ (libm := Demo.libm) 4 40 Demo.rate
  = Ok Demo.dynamic40 /\
  DynamicBloomFilter.capacity
    (dynamic_add_all (hashlib := Demo.hashlib) (libm := Demo.libm)
                     Demo.dynamic40 [Demo.hello; Demo.world])
  = 4 * len (DynamicBloomFilter.filters
               (dynamic_add_all (hashlib := Demo.hashlib) (libm := Demo.libm)
                                Demo.dynamic40 [Demo.hello; Demo.world])).
Proof.
  assert (H : DynamicBloomFilter.__init__ (libm := Demo.libm) 4 40 Demo.rate
              = Ok Demo.dynamic40) by by_evaluation.
  split; [exact H|].
  apply (@dynamic_filters_are_uniform Demo.hashlib Demo.libm _ _ _ _
           [Demo.hello; Demo.world] H).
Defined.

Lemma scalable_filters_are_geometric_witness :
  ScalableBloomFilter.__init__ 2 0.5 ScalableBloomFilter.SMALL_SET_GROWTH
  = Ok Demo.scalable /\
  map BloomFilter.capacity
      (ScalableBloomFilter.filters
         (scalable_add_all (hashlib := Demo.hashlib) (libm := Demo.libm)
                           Demo.scalable [Demo.hello; Demo.world]))
  = map (fun i => 2 * 2 ^ Z.of_nat i)
        (seq 0 (length
                  (ScalableBloomFilter.filters
                     (scalable_add_all (hashlib := Demo.hashlib)
                                       (libm := Demo.libm)
                                       Demo.scalable
                                       [Demo.hello; Demo.world])))).
Proof.
  assert (H : ScalableBloomFilter.__init__ 2 0.5
                ScalableBloomFilter.SMALL_SET_GROWTH = Ok Demo.scalable)
    by reflexivity.
  split; [exact H|].
  apply (@scalable_filters_are_geometric Demo.hashlib Demo.libm _ _ _ _
           [Demo.hello; Demo.world] H).
Defined.

(** [ScalableBloomFilter(2, 0.5)] with [hello], written and read back. *)
Lemma scalable_file_round_trip_witness :
  exists f' bytes,
    ScalableBloomFilter.tofile Demo.scalable_hello (at_end []) = Ok f' /\
    content f' = bytes /\
    ScalableBloomFilter.fromfile (hashlib := Demo.hashlib) (libm := Demo.libm)
                                 true bytes
    = Ok (ScalableBloomFilter.set_filters
            (map padded (ScalableBloomFilter.filters Demo.scalable_hello))
            Demo.scalable_hello, []).
Proof.
  destruct (@scalable_file_round_trip Demo.hashlib Demo.libm
              Demo.scalable_hello true [])
    as [f' [bytes [Hto [Hc Hfrom]]]].
  - eexists. by_evaluation.
  - constructor; [|constructor]. unfold storable, u64.
    repeat split; by_evaluation.
  - constructor; [|constructor]. by_evaluation.
  - by_evaluation.
  - split; by_evaluation.
  - unfold u64. split; by_evaluation.
  - exists f', bytes. auto.
Defined.

(** [DynamicBloomFilter(4, 40, 0.1)] with [hello], written and read
    back. *)
Lemma dynamic_file_round_trip_witness :
  exists f' bytes,
    DynamicBloomFilter.tofile Demo.with_hello (at_end []) = Ok f' /\
    content f' = bytes /\
    DynamicBloomFilter.fromfile (hashlib := Demo.hashlib) (libm := Demo.libm)
                                true bytes
    = Ok (DynamicBloomFilter.set_filters
            (map padded (DynamicBloomFilter.filters Demo.with_hello))
            Demo.with_hello, []).
Proof.
  destruct (@dynamic_file_round_trip Demo.hashlib Demo.libm
              Demo.with_hello true [])
    as [f' [bytes [Hto [Hc Hfrom]]]].
  - eexists. by_evaluation.
  - eexists. by_evaluation.
  - by_evaluation.
  - constructor; [|constructor]. unfold storable, u64.
    repeat split; by_evaluation.
  - constructor; [|constructor]. by_evaluation.
  - by_evaluation.
  - split; by_evaluation.
  - unfold u64. split; by_evaluation.
  - exists f', bytes. auto.
Defined.

(** After [tofile] of the scalable filter that holds [hello] the position
    is 40 and the file is longer. *)
Lemma growing_tofile_leaves_position_inside_witness :
  exists f',
    ScalableBloomFilter.tofile Demo.scalable_hello (at_end []) = Ok f' /\
    tell f' = 40 /\ tell f' < len (content f').
Proof.
  eexists. split; [by_evaluation|].
  destruct (proj1 (@growing_tofile_leaves_position_inside Demo.hashlib)
                  Demo.scalable_hello [] _
                  ltac:(constructor; [|constructor]; unfold storable, u64;
                        repeat split; by_evaluation)
                  ltac:(constructor; [|constructor]; by_evaluation)
                  ltac:(by_evaluation)
                  ltac:(discriminate)
                  eq_refl) as [H1 [_ H3]].
  split; [exact H1 | exact H3].
Defined.

(** ** The count of a merged filter whose bits are all set *)

Lemma div_eucl_pair a b : Z.div_eucl a b = (a / b, a mod b).
Proof. unfold Z.div, Z.modulo. now destruct (Z.div_eucl a b). Qed.

(** A finite float divided by itself is one. *)
Lemma SFdiv_self s m e :
  SFdiv prec emax (S754_finite s m e) (S754_finite s m e)
  = S754_finite false 4503599627370496 (-52).
Proof.
  cbn [SFdiv]. unfold SFdiv_core_binary. cbv zeta.
  replace (Zdigits2 (Zpos m) + e - (Zdigits2 (Zpos m) + e)) with 0 by lia.
  rewrite Z.sub_diag.
  change (Z.min (fexp prec emax 0) 0) with (-53).
  change (0 - -53) with 53. cbv iota.
  rewrite div_eucl_pair, Z.shiftl_mul_pow2 by lia.
  rewrite (Z.mul_comm (Zpos m)), Z.div_mul, Z.mod_mul by lia.
  assert (Hl : new_location (Zpos m) 0 = loc_Exact).
  { unfold new_location, new_location_even, new_location_odd.
    destruct (Z.even (Zpos m)); reflexivity. }
  rewrite Hl, xorb_nilpotent. reflexivity.
Qed.

Lemma float_div_self x q :
  float_truediv x x = Ok q ->
  Prim2SF q = Prim2SF 1 \/ Prim2SF q = S754_nan.
Proof.
  unfold float_truediv. destruct (x =? 0)%float eqn:E; [discriminate|].
  inversion 1; subst q. rewrite div_spec. unfold SF64div.
  rewrite eqb_spec, Prim2SF_zero in E.
  destruct (Prim2SF x) as [s|s| |s m e].
  - destruct s; discriminate.
  - now right.
  - now right.
  - left. rewrite SFdiv_self. reflexivity.
Qed.

Section Saturated.

Context {libm : Libm}.

(** [math.log] of a float that is not a number is that float. *)
Lemma math_log_nan x :
  Prim2SF x = S754_nan -> math_log x = Ok x.
Proof.
  intros H.
  assert (Hn : is_nan x = true).
  { unfold is_nan. rewrite eqb_spec, H. reflexivity. }
  assert (Hm : m_log x = x).
  { unfold m_log, is_finite. rewrite Hn. reflexivity. }
  unfold math_log, math_1. cbv zeta. rewrite Hm.
  unfold is_finite. rewrite Hn. cbn [orb negb].
  now rewrite !Bool.andb_false_r.
Qed.

(** The estimate of the count raises when every bit is set: the fill
    ratio is one and its complement has no logarithm, or the quotient is
    no number and has no integer value. *)
Lemma estimate_saturated bits num_slices :
  bitarray.count bits = len bits ->
  exists e, BloomFilter.estimate bits num_slices = Raise e.
Proof.
  intros H. unfold BloomFilter.estimate. rewrite H.
  destruct (float_of_int (len bits)) as [x|e]; cbn [bind]; [|eauto].
  destruct (float_truediv x x) as [fill|e] eqn:D; cbn [bind]; [|eauto].
  destruct (float_div_self x fill D) as [P|P].
  - rewrite math_log_nonpositive; [cbn [bind]; eauto|].
    rewrite sub_spec, P. vm_compute. exact I.
  - assert (N : Prim2SF (1 - fill)%float = S754_nan).
    { rewrite sub_spec, P. reflexivity. }
    rewrite (math_log_nan _ N). cbn [bind].
    destruct (float_truediv 1 x) as [one_bit|e]; cbn [bind]; [|eauto].
    destruct (math_log (1 - one_bit)%float) as [lg|e]; cbn [bind]; [|eauto].
    destruct (float_of_int num_slices) as [k|e]; cbn [bind]; [|eauto].
    unfold float_truediv.
    destruct (k * lg =? 0)%float; cbn [bind]; [eauto|].
    unfold int_of_float. rewrite div_spec, N. cbn. eauto.
Qed.

End Saturated.

Section SaturatedMerge.

Context {hashlib : Hashlib} {libm : Libm}.

Import BloomFilter.

(** X27. The count of a full filter: when the bit vector that [union] or
    [intersection] computes for two filters of the same capacity and error
    rate has every bit set, the estimate of the count is undefined and the
    count of the result is the number of bits, whatever the C library
    computes. *)
Theorem saturated_merge_counts_all_bits (self other : t) :
  constructed self -> constructed other ->
  capacity self = capacity other -> error_rate self = error_rate other ->
  (bitarray.count (zip_bits orb (bitarray self) (bitarray other))
   = num_bits self ->
   exists u, union self other = Ok u /\ count u = num_bits u) /\
  (bitarray.count (zip_bits andb (bitarray self) (bitarray other))
   = num_bits self ->
   exists i, intersection self other = Ok i /\ count i = num_bits i).
Proof.
  intros Hs Ho Hc He.
  assert (Hm : forall op,
             bitarray.count (zip_bits op (bitarray self) (bitarray other))
             = num_bits self ->
             count (merged op self other) = num_bits (merged op self other)).
  { intros op Hfull.
    pose proof (merged_bits_length op self other Hs Ho Hc He) as Hl.
    unfold merged. cbv zeta.
    cbn [count num_bits set_count set_bitarray].
    destruct (estimate_saturated
                (zip_bits op (bitarray self) (bitarray other))
                (num_slices self)) as [e ->]; [congruence | reflexivity]. }
  split; intros Hfull.
  - exists (merged orb self other). split; [now apply union_spec | auto].
  - exists (merged andb self other).
    split; [now apply intersection_spec | auto].
Qed.

End SaturatedMerge.

(** The union of a filter of eight set bits with itself counts eight. *)
Lemma saturated_merge_counts_all_bits_witness :
  constructed (hashlib := Demo.hashlib) (libm := Demo.libm) Demo.full8 /\
  exists u,
    BloomFilter.union (hashlib := Demo.hashlib) (libm := Demo.libm)
                      Demo.full8 Demo.full8 = Ok u /\
    BloomFilter.count u = 8.
Proof.
  assert (Hc : constructed (hashlib := Demo.hashlib) (libm := Demo.libm)
                           Demo.full8)
    by constructed_by_evaluation Demo.filter8.
  split; [exact Hc|].
  destruct (proj1 (@saturated_merge_counts_all_bits Demo.hashlib Demo.libm
                     Demo.full8 Demo.full8 Hc Hc eq_refl eq_refl))
    as [u [Hu Hn]]; [by_evaluation|].
  exists u. split; [exact Hu|]. rewrite Hn.
  revert Hu. unfold BloomFilter.union. vm_compute.
  intros Hu. inversion Hu. reflexivity.
Defined.

(** ** Sample files and pickles *)

(** [filter8] goes to a file of 41 bytes; with a count below zero it does
    not. *)
Lemma tofile_outcome_witness :
  (exists header,
     BloomFilter.tofile Demo.filter8 []
     = Ok ([] ++ header ++ bitarray.tobytes (BloomFilter.bitarray Demo.filter8))
     /\ len header = BloomFilter.headerlen) /\
  BloomFilter.tofile (BloomFilter.set_count (-1) Demo.filter8) []
  = Raise StructError.
Proof.
  split.
  - destruct (proj1 (tofile_outcome Demo.filter8 []))
      as [header [H1 [H2 _]]].
    + unfold u64. repeat split; by_evaluation.
    + exists header. split; [exact H1 | exact H2].
  - apply (proj2 (tofile_outcome (BloomFilter.set_count (-1) Demo.filter8) [])).
    unfold u64. intros [_ [_ [_ [H _]]]]. now apply H.
Defined.

(** The header of [filter8] alone, read with [n = 10], with a byte cut
    off, and with [n = 41] from a file that is no [StringIO]. *)
Lemma fromfile_truncated_witness :
  BloomFilter.fromfile (hashlib := Demo.hashlib) (libm := Demo.libm)
                       true Demo.header8 10
  = Raise BloomFilter.n_too_small /\
  BloomFilter.fromfile (hashlib := Demo.hashlib) (libm := Demo.libm)
                       true (firstn 39 Demo.header8) (-1)
  = Raise StructError /\
  BloomFilter.fromfile (hashlib := Demo.hashlib) (libm := Demo.libm)
                       false (Demo.header8 ++ []) 41
  = Raise EOFError.
Proof.
  assert (Hb : exists bogus,
             BloomFilter.__init__ (hashlib := Demo.hashlib)
               (libm := Demo.libm) 1 BloomFilter.default_error_rate
             = Ok bogus) by (eexists; by_evaluation).
  split; [|split].
  - apply (proj1 (@fromfile_truncated Demo.hashlib Demo.libm
                    true Demo.header8 10)).
    unfold BloomFilter.headerlen. lia.
  - apply (proj1 (proj2 (@fromfile_truncated Demo.hashlib Demo.libm
                           true (firstn 39 Demo.header8) (-1))));
      [exact Hb | left; lia | by_evaluation].
  - destruct (make_hashfuncs (hashlib := Demo.hashlib) 4 2) as [hf|e] eqn:E;
      [|revert E; by_evaluation].
    apply (proj2 (proj2 (@fromfile_truncated Demo.hashlib Demo.libm
                           false (Demo.header8 ++ []) 41))
             Demo.rate 4 2 1 0 Demo.header8 hf []);
      [exact Hb | by_evaluation | exact E | reflexivity | by_evaluation].
Defined.

(** [filter12] pickled and restored. *)
Lemma pickle_round_trip_witness :
  BloomFilter.__setstate__ (hashlib := Demo.hashlib)
    (BloomFilter.__getstate__ Demo.filter12)
  = Ok Demo.filter12.
Proof.
  apply (proj1 (@pickle_round_trip Demo.hashlib Demo.libm)).
  by_evaluation.
Defined.
